(** * Field-mapping engine of the Shopware -> Shopify integration

    A shallow embedding of [internal/services/field_mapping_service.go]
    (the nested path accessor, the transformation dispatcher and the
    mapping pipeline) and of the migration-log status handling of the
    webhook handler, together with the properties of the specification
    that were checked against them; and of the code around them: the
    middleware, the dataflow and field-mapping services over the
    database, and their handlers.

    Go strings are byte sequences and are modelled by [string]
    (a list of 8-bit [ascii]); Go's [int] is a 64-bit integer modelled
    by [Z] with its range written out where the code depends on it. *)

From Stdlib Require Import ZArith String Ascii List Bool Lia Floats.
From Stdlib Require Import DecimalString.
From stdpp Require Import base option list gmap strings.

Local Open Scope Z_scope.

(** ** The parts of Go's [strings] and [strconv] packages the code uses *)

Module GoStrings.

(** [strings.Split(s, sep)] for a one-byte separator: one more segment
    than there are separators, the empty string gives one empty
    segment. *)
Fixpoint Split (s : string) (sep : ascii) : list string :=
  match s with
  | EmptyString => [EmptyString]
  | String c s' =>
      if Ascii.eqb c sep then EmptyString :: Split s' sep
      else match Split s' sep with
           | [] => [String c EmptyString]
           | seg :: segs => String c seg :: segs
           end
  end.

(** [strings.Contains(s, sep)] for a one-byte [sep]. *)
Fixpoint Contains (s : string) (sep : ascii) : bool :=
  match s with
  | EmptyString => false
  | String c s' => Ascii.eqb c sep || Contains s' sep
  end.

(** [strings.Index(s, sep)] for a one-byte [sep]: [-1] when absent. *)
Fixpoint Index (s : string) (sep : ascii) : Z :=
  match s with
  | EmptyString => -1
  | String c s' =>
      if Ascii.eqb c sep then 0
      else let i := Index s' sep in if i <? 0 then -1 else i + 1
  end.

Definition len (s : string) : Z := Z.of_nat (String.length s).

(** The slice expression [s[lo:hi]]; [None] is the run-time panic
    "slice bounds out of range". *)
Definition slice (s : string) (lo hi : Z) : option string :=
  if (0 <=? lo) && (lo <=? hi) && (hi <=? len s)
  then Some (String.substring (Z.to_nat lo) (Z.to_nat (hi - lo)) s)
  else None.

Definition HasPrefix (s p : string) : bool := String.prefix p s.

Definition HasSuffix (s suf : string) : bool :=
  (String.length suf <=? String.length s)%nat &&
  String.eqb
    (String.substring (String.length s - String.length suf)
       (String.length suf) s) suf.

(** [strings.ReplaceAll(s, old, new)] for a non-empty [old]: the
    matches are taken left to right and do not overlap.  [skip]
    counts the bytes of a match still to be dropped. *)
Fixpoint replace_from (old new s : string) (skip : nat) : string :=
  match s with
  | EmptyString => EmptyString
  | String c s' =>
      match skip with
      | S k => replace_from old new s' k
      | O =>
          if String.prefix old s
          then new +:+ replace_from old new s' (String.length old - 1)
          else String c (replace_from old new s' O)
      end
  end.

Definition ReplaceAll (s old new : string) : string :=
  replace_from old new s O.

Definition lower_byte (c : ascii) : ascii :=
  let n := nat_of_ascii c in
  if (65 <=? n)%nat && (n <=? 90)%nat then ascii_of_nat (n + 32) else c.

(** [strings.ToLower] on the ASCII letters.  The code only compares
    the result with ASCII literals, and no rune outside ASCII
    lower-cases to one of their letters. *)
Fixpoint ToLower (s : string) : string :=
  match s with
  | EmptyString => EmptyString
  | String c s' => String (lower_byte c) (ToLower s')
  end.

Definition is_digit (c : ascii) : bool :=
  let n := nat_of_ascii c in (48 <=? n)%nat && (n <=? 57)%nat.

Fixpoint all_digits (s : string) : bool :=
  match s with
  | EmptyString => true
  | String c s' => is_digit c && all_digits s'
  end.

(** The value of a digit string, most significant digit first. *)
Fixpoint digits_value (acc : Z) (s : string) : Z :=
  match s with
  | EmptyString => acc
  | String c s' =>
      digits_value (10 * acc + Z.of_nat (nat_of_ascii c - 48)) s'
  end.

Definition max_int : Z := 2 ^ 63 - 1.
Definition min_int : Z := - 2 ^ 63.

(** [strconv.Atoi]: an optional sign, then one or more decimal
    digits, the value within the 64-bit [int]; [None] stands for the
    [*strconv.NumError] it returns otherwise. *)
Definition Atoi (s : string) : option Z :=
  let '(neg, body) :=
    match s with
    | String "-" r => (true, r)
    | String "+" r => (false, r)
    | _ => (false, s)
    end in
  match body with
  | EmptyString => None
  | _ =>
      if all_digits body then
        let n := digits_value 0 body in
        let v := if neg then - n else n in
        if (min_int <=? v) && (v <=? max_int) then Some v else None
      else None
  end.

(** [strconv.ParseBool]. *)
Definition ParseBool (s : string) : option bool :=
  if existsb (String.eqb s) ["1"; "t"; "T"; "TRUE"; "true"; "True"]
  then Some true
  else if existsb (String.eqb s) ["0"; "f"; "F"; "FALSE"; "false"; "False"]
  then Some false
  else None.

(** [strconv.Itoa], also what the verbs [%d] and [%v] print for an
    [int]. *)
Definition Itoa (n : Z) : string := NilZero.string_of_int (Z.to_int n).

Fixpoint Join (l : list string) (sep : string) : string :=
  match l with
  | [] => EmptyString
  | [x] => x
  | x :: rest => x +:+ sep +:+ Join rest sep
  end.

End GoStrings.

Import GoStrings.


(** ** Go values, the heap, and the monad of the embedding

    The documents are [map[string]interface{}] trees as [encoding/json]
    builds them.  Maps and slices are reference types that the code
    updates in place and stores in more than one place, so they live in
    a heap and a value only names them. *)

(** Locations are indexes into the heap. *)
Abbreviation loc := nat.

Inductive value :=
| VNil                      (* the nil interface: JSON null, an unset slot *)
| VBool (b : bool)
| VFloat (f : float)        (* float64: every JSON number *)
| VInt (n : Z)              (* int: results of strconv.Atoi, positions *)
| VString (s : string)
| VSlice (a : loc)          (* []interface{} *)
| VMap (m : loc).           (* map[string]interface{} *)

Inductive object :=
| OSlice (elems : list value)
| OMap (fields : gmap string value).

Abbreviation heap := (list object).

(** Go errors.  [Wrapf msg e] is [fmt.Errorf(msg + ": %w", e)]. *)
Inductive error :=
| Errorf (msg : string)
| Wrapf (msg : string) (cause : error)
| NumError (fn input : string)          (* *strconv.NumError *)
| ExternalError (pkg detail : string).  (* encoding/json, time, gorm *)

(** A computation either returns with a new heap or panics. *)
Inductive outcome (A : Type) : Type :=
| Ret (a : A) (h : heap)
| Panic (why : string).
Arguments Ret {A} a h.
Arguments Panic {A} why.

Definition M (A : Type) : Type := heap -> outcome A.

Definition ret {A} (a : A) : M A := fun h => Ret a h.

Definition bind {A B} (m : M A) (k : A -> M B) : M B :=
  fun h => match m h with
           | Ret a h' => k a h'
           | Panic why => Panic why
           end.

Definition panic {A} (why : string) : M A := fun _ => Panic why.

Notation "'let!' x ':=' m 'in' k" := (bind m (fun x => k))
  (at level 10, x pattern, m at level 100, k at level 200).

(** Computations that leave the heap as it is. *)
Definition reads_only {A} (m : M A) : Prop :=
  forall (h h' : heap) (a : A), m h = Ret a h' -> h' = h.

(** The result pair [(interface{}, error)] of most functions. *)
Definition result : Type := value * option error.
Definition ok (v : value) : M result := ret (v, None).
Definition fail (e : error) : M result := ret (VNil, Some e).

(** *** Heap accesses *)

Definition new (o : object) : M loc :=
  fun h => Ret (length h) (h ++ [o]).

Definition load_map (m : loc) : M (gmap string value) :=
  fun h => match h !! m with
           | Some (OMap fields) => Ret fields h
           | _ => Panic "invalid map reference"
           end.

Definition load_slice (a : loc) : M (list value) :=
  fun h => match h !! a with
           | Some (OSlice elems) => Ret elems h
           | _ => Panic "invalid slice reference"
           end.

Definition store (l : loc) (o : object) : M unit :=
  fun h => Ret tt (<[l := o]> h).

(** [m[key] = v] *)
Definition map_assign (m : loc) (key : string) (v : value) : M unit :=
  let! fields := load_map m in
  store m (OMap (<[key := v]> fields)).

(** Addition of two [int]s, with the wrap-around of 64-bit two's
    complement. *)
Definition int_add (a b : Z) : Z :=
  (a + b - min_int) mod 2 ^ 64 + min_int.

(** The runtime's limit on the size of one allocation, [maxAlloc]:
    2^48 bytes on the 64-bit platforms. *)
Definition maxAlloc : Z := 2 ^ 48.

(** [make([]interface{}, n)]: [makeslice] panics on a negative length
    and on one whose elements, of 16 bytes each, take more than
    [maxAlloc].  Below that the allocation is taken to succeed. *)
Definition make_slice (n : Z) : M loc :=
  if (n <? 0) || (maxAlloc <? 16 * n)
  then panic "makeslice: len out of range"
  else new (OSlice (replicate (Z.to_nat n) VNil)).

(** [make(map[string]interface{})] *)
Definition make_map : M loc := new (OMap ∅).

(** [arr[index]] *)
Definition index_read (a : loc) (index : Z) : M value :=
  let! elems := load_slice a in
  if (index <? 0) || (Z.of_nat (length elems) <=? index)
  then panic "index out of range"
  else match elems !! Z.to_nat index with
       | Some v => ret v
       | None => panic "index out of range"
       end.

(** [arr[index] = v] *)
Definition index_assign (a : loc) (index : Z) (v : value) : M unit :=
  let! elems := load_slice a in
  if (index <? 0) || (Z.of_nat (length elems) <=? index)
  then panic "index out of range"
  else store a (OSlice (<[Z.to_nat index := v]> elems)).

(** The elements of [dst] after [copy(dst, src)]. *)
Definition copy (dst src : list value) : list value :=
  take (length dst) src ++ drop (length src) dst.

(** *** JSON documents and [json.Unmarshal] into [interface{}] *)

#[local] Set Warnings "-register-all".

Inductive json :=
| JNull
| JBool (b : bool)
| JNumber (f : float)
| JInt (n : Z)              (* a Go int; decoding never yields one *)
| JString (s : string)
| JArray (items : list json)
| JObject (members : list (string * json)).

(** Decoding a parsed document allocates a fresh slice per array and a
    fresh map per object; a repeated key keeps its last value. *)
Section Decoding.

(** The decoder of the elements. *)
Variable alloc : json -> heap -> value * heap.

Fixpoint alloc_items (items : list json) (h : heap) : list value * heap :=
  match items with
  | [] => ([], h)
  | x :: r =>
      let '(v, h1) := alloc x h in
      let '(vs, h2) := alloc_items r h1 in
      (v :: vs, h2)
  end.

Fixpoint alloc_fields (members : list (string * json))
  (acc : gmap string value) (h : heap) : gmap string value * heap :=
  match members with
  | [] => (acc, h)
  | (k, x) :: r =>
      let '(v, h1) := alloc x h in
      alloc_fields r (<[k := v]> acc) h1
  end.

End Decoding.

Fixpoint alloc_json (j : json) (h : heap) : value * heap :=
  match j with
  | JNull => (VNil, h)
  | JBool b => (VBool b, h)
  | JNumber f => (VFloat f, h)
  | JInt n => (VInt n, h)
  | JString s => (VString s, h)
  | JArray items =>
      let '(vs, h1) := alloc_items alloc_json items h in
      (VSlice (length h1), h1 ++ [OSlice vs])
  | JObject members =>
      let '(fields, h1) := alloc_fields alloc_json members ∅ h in
      (VMap (length h1), h1 ++ [OMap fields])
  end.

Definition unmarshal_value (j : json) : M value :=
  fun h => let '(v, h') := alloc_json j h in Ret v h'.

(** Decoding into a [map[string]interface{}] variable. *)
Definition unmarshal_object (members : list (string * json)) : M loc :=
  fun h => let '(fields, h1) := alloc_fields alloc_json members ∅ h in
           Ret (length h1) (h1 ++ [OMap fields]).

(** The fields of a map by increasing key, the order in which [fmt]
    prints them. *)
Fixpoint insert_sorted (kv : string * value) (l : list (string * value))
  : list (string * value) :=
  match l with
  | [] => [kv]
  | kv' :: r =>
      if String.leb (fst kv) (fst kv') then kv :: l
      else kv' :: insert_sorted kv r
  end.

Definition sorted_fields (fields : gmap string value)
  : list (string * value) :=
  foldr insert_sorted [] (map_to_list fields).

(** Reading a value back as a document, for stating what a heap holds.
    [fuel] bounds the nesting depth; [None] on a dangling reference or
    when the depth is exceeded. *)
Fixpoint reify (fuel : nat) (h : heap) (v : value) : option json :=
  match v with
  | VNil => Some JNull
  | VBool b => Some (JBool b)
  | VFloat f => Some (JNumber f)
  | VInt n => Some (JInt n)
  | VString s => Some (JString s)
  | VSlice a =>
      match fuel, h !! a with
      | S fuel', Some (OSlice elems) =>
          JArray <$> mapM (reify fuel' h) elems
      | _, _ => None
      end
  | VMap m =>
      match fuel, h !! m with
      | S fuel', Some (OMap fields) =>
          JObject <$>
            mapM (fun kv => pair (fst kv) <$> reify fuel' h (snd kv))
                 (sorted_fields fields)
      | _, _ => None
      end
  end.

(** *** [fmt.Sprintf] with the verbs [%v] and [%s]

    [fmt] prints a slice as its elements between brackets and a map as
    [map[k:v ...]] by increasing key.  A verb that does not apply to an
    operand prints as [%!s(type=value)]; a nil inside a slice or map
    prints as [<nil>] under every verb.  [fmt] does not detect cycles:
    on a cyclic value it recurses until the stack overflows, which the
    depth bound [fuel] stands for. *)

Inductive verb := VerbV | VerbS.

Definition bad_verb (type_name printed : string) : string :=
  "%!s(" +:+ type_name +:+ "=" +:+ printed +:+ ")".

Section Fmt.

(** What [%v] prints for a [float64] (the shortest [%g] form) is left
    to the library. *)
Variable fmt_float : float -> string.

Fixpoint fmt_value (fuel : nat) (h : heap) (vb : verb) (top : bool)
  (v : value) : option string :=
  match v with
  | VNil =>
      Some (match vb, top with
            | VerbS, true => "%!s(<nil>)"
            | _, _ => "<nil>"
            end)
  | VBool b =>
      let printed := if b then "true" else "false" in
      Some (match vb with
            | VerbV => printed
            | VerbS => bad_verb "bool" printed
            end)
  | VFloat f =>
      Some (match vb with
            | VerbV => fmt_float f
            | VerbS => bad_verb "float64" (fmt_float f)
            end)
  | VInt n =>
      Some (match vb with
            | VerbV => Itoa n
            | VerbS => bad_verb "int" (Itoa n)
            end)
  | VString s => Some s
  | VSlice a =>
      match fuel, h !! a with
      | S fuel', Some (OSlice elems) =>
          printed ← mapM (fmt_value fuel' h vb false) elems;
          Some ("[" +:+ Join printed " " +:+ "]")
      | _, _ => None
      end
  | VMap m =>
      match fuel, h !! m with
      | S fuel', Some (OMap fields) =>
          printed ← mapM (fun kv =>
                            s ← fmt_value fuel' h vb false (snd kv);
                            Some (fst kv +:+ ":" +:+ s))
                         (sorted_fields fields);
          Some ("map[" +:+ Join printed " " +:+ "]")
      | _, _ => None
      end
  end.

(** More objects than the heap holds cannot nest without a cycle. *)
Definition Sprintf (vb : verb) (v : value) : M string :=
  fun h => match fmt_value (S (length h)) h vb true v with
           | Some s => Ret s h
           | None => Panic "stack overflow"
           end.

End Fmt.

(** What decoding [j] into a heap [h] gives has a string form, within
    a depth of one more than the number of objects it allocated. *)
Definition decodes_printable (fmt_float : float -> string) (j : json)
  : Prop :=
  forall h : heap,
  exists ext : heap,
    snd (alloc_json j h) = h ++ ext
    /\ forall vb top,
         is_Some (fmt_value fmt_float (S (length ext)) (h ++ ext) vb top
                    (fst (alloc_json j h))).

(** ** The nested path accessor *)

(** The slice expression [s[lo:hi]] as a computation. *)
Definition substr (s : string) (lo hi : Z) : M string :=
  match slice s lo hi with
  | Some r => ret r
  | None => panic "slice bounds out of range"
  end.

(** The test that selects the array-access branch for a path part. *)
Definition is_array_access (part : string) : bool :=
  Contains part "[" && Contains part "]".

(** The loop of [getNestedValue] over the parts still to be resolved. *)
Fixpoint getNestedValue_from (current : value) (parts : list string)
  : M result :=
  match parts with
  | [] => ok current
  | part :: rest =>
      if is_array_access part then
        let! key := substr part 0 (Index part "[") in
        let! indexStr := substr part (Index part "[" + 1) (Index part "]") in
        match Atoi indexStr with
        | None => fail (Errorf ("invalid array index: " +:+ indexStr))
        | Some index =>
            match current with
            | VMap m =>
                let! currentMap := load_map m in
                match currentMap !! key with
                | Some (VSlice a) =>
                    let! arr := load_slice a in
                    if (index <? 0) || (index >=? Z.of_nat (length arr))
                    then fail (Errorf ("array index out of bounds: "
                                       +:+ Itoa index))
                    else
                      let! elem := index_read a index in
                      getNestedValue_from elem rest
                | _ => fail (Errorf ("field " +:+ key +:+ " is not an array"))
                end
            | _ =>
                fail (Errorf ("cannot access " +:+ key
                              +:+ ": parent is not an object"))
            end
        end
      else
        match current with
        | VMap m =>
            let! currentMap := load_map m in
            match currentMap !! part with
            | Some v => getNestedValue_from v rest
            | None => fail (Errorf ("field " +:+ part +:+ " not found"))
            end
        | _ =>
            fail (Errorf ("cannot access " +:+ part
                          +:+ ": parent is not an object"))
        end
  end.

Definition getNestedValue (obj : loc) (path : string) : M result :=
  getNestedValue_from (VMap obj) (Split path ".").

(** The part of [setNestedValue] shared by its loop and its last step:
    make [current[key]] a slice longer than [index] and return it. *)
Definition ensure_slice (current : loc) (key : string) (index : Z)
  : M (loc + error) :=
  let! fields := load_map current in
  let! _ := match fields !! key with
            | None =>
                let! a := make_slice (int_add index 1) in
                map_assign current key (VSlice a)
            | Some _ => ret tt
            end in
  let! fields := load_map current in
  match fields !! key with
  | Some (VSlice a) =>
      let! arr := load_slice a in
      if index >=? Z.of_nat (length arr) then
        let! newArr := make_slice (int_add index 1) in
        let! fresh := load_slice newArr in
        let! _ := store newArr (OSlice (copy fresh arr)) in
        let! _ := map_assign current key (VSlice newArr) in
        ret (inl newArr)
      else ret (inl a)
  | _ => ret (inr (Errorf ("field " +:+ key +:+ " is not an array")))
  end.

(** The loop [for i := 0; i < len(parts)-1; i++] of [setNestedValue]:
    [n] is [len(parts)], [inter] the parts from index [i] up to the
    last but one.  It returns the map the last part is written to, or
    the error the function returns. *)
Fixpoint setNestedValue_loop (n i : Z) (current : loc) (inter : list string)
  : M (loc + error) :=
  match inter with
  | [] => ret (inl current)
  | part :: rest =>
      if is_array_access part then
        let! key := substr part 0 (Index part "[") in
        let! indexStr := substr part (Index part "[" + 1) (Index part "]") in
        match Atoi indexStr with
        | None => ret (inr (Errorf ("invalid array index: " +:+ indexStr)))
        | Some index =>
            let! r := ensure_slice current key index in
            match r with
            | inr e => ret (inr e)
            | inl arr =>
                if i <? n - 2 then
                  let! elem := index_read arr index in
                  let! _ := match elem with
                            | VNil =>
                                let! m := make_map in
                                index_assign arr index (VMap m)
                            | _ => ret tt
                            end in
                  let! elem := index_read arr index in
                  match elem with
                  | VMap nextMap =>
                      setNestedValue_loop n (i + 1) nextMap rest
                  | _ =>
                      ret (inr (Errorf ("array element at index "
                                        +:+ Itoa index
                                        +:+ " is not an object")))
                  end
                else setNestedValue_loop n (i + 1) current rest
            end
        end
      else
        let! fields := load_map current in
        let! _ := match fields !! part with
                  | None =>
                      let! m := make_map in
                      map_assign current part (VMap m)
                  | Some _ => ret tt
                  end in
        let! fields := load_map current in
        match fields !! part with
        | Some (VMap nextMap) => setNestedValue_loop n (i + 1) nextMap rest
        | _ => ret (inr (Errorf ("field " +:+ part +:+ " is not an object")))
        end
  end.

Definition setNestedValue (obj : loc) (path : string) (v : value)
  : M (option error) :=
  let parts := Split path "." in
  let n := Z.of_nat (length parts) in
  let! r := setNestedValue_loop n 0 obj (List.removelast parts) in
  match r with
  | inr e => ret (Some e)
  | inl current =>
      let lastPart := List.last parts EmptyString in
      if is_array_access lastPart then
        let! key := substr lastPart 0 (Index lastPart "[") in
        let! indexStr :=
          substr lastPart (Index lastPart "[" + 1) (Index lastPart "]") in
        match Atoi indexStr with
        | None => ret (Some (Errorf ("invalid array index: " +:+ indexStr)))
        | Some index =>
            let! r := ensure_slice current key index in
            match r with
            | inr e => ret (Some e)
            | inl arr =>
                let! _ := index_assign arr index v in
                ret None
            end
        end
      else
        let! _ := map_assign current lastPart v in
        ret None
  end.

(** A heap holding one empty map, at location [root]. *)
Definition root : loc := 0%nat.
Definition empty_root : heap := [OMap ∅].

(** ** Field mappings and their transformation configs *)

(** [models.TransformationType] is a string type; its constants: *)
Definition TransformationTypeNone : string := "none".
Definition TransformationTypeFormat : string := "format".
Definition TransformationTypeConvert : string := "convert".
Definition TransformationTypeMap : string := "map".
Definition TransformationTypeTemplate : string := "template".
Definition TransformationTypeGraphQLID : string := "graphql_id".
Definition TransformationTypeArrayMap : string := "array_map".
Definition TransformationTypeJsonPath : string := "json_path".
Definition TransformationTypeConditional : string := "conditional".
Definition TransformationTypeMediaMap : string := "media_map".
Definition TransformationTypeMetafield : string := "metafield".
Definition TransformationTypeEntityLookup : string := "entity_lookup".

Record FieldMapping := {
  DataflowID : N;
  SourceField : string;
  DestField : string;
  IsRequired : bool;
  DefaultValue : string;
  TransformType : string;
  TransformConfig : string
}.

(** The anonymous config structs of [applyTransformation]. *)
Record FormatConfig := { SourceFormat : string; DestFormat : string }.
Record ConvertConfig := { ConvertTo : string }.            (* field Type *)
Record TemplateConfig := { Template : string }.
Record GraphQLIDConfig := { ResourceType : string; Direction : string }.
Record ArrayMapConfig := {
  SourcePath : string;
  DestPath : string;
  Mapping : option (gmap string string)                    (* None: nil *)
}.
Record JsonPathConfig := { Path : string }.
Record MediaConfig := { BaseURL : string }.
Record MetafieldConfig := {
  Namespace : string;
  Key : string;
  MetafieldType : string                                   (* field Type *)
}.
Record EntityLookupConfig := { EntityType : string; Property : string }.

(** [MappingResult]: [Data] is [None] for the nil map. *)
Record MappingResult := { Data : option loc; Error : option error }.

(** What a [First] query on a table gives. *)
Inductive query_result :=
| Row (columns : gmap string value)
| ErrRecordNotFound
| QueryError (e : error).

(** The library functions and collaborators the service calls and this
    development does not look into: float formatting and parsing,
    [time], [encoding/json] with each of its target types, and the
    database.  Decoding into [map[string]interface{}] gives the members
    in document order; JSON null leaves the map nil, which reads like
    the empty one. *)
Record Library := {
  fmt_float : float -> string;
  ParseFloat : string -> float + error;
  Time : Type;
  time_Parse : string -> string -> Time + error;
  time_Format : Time -> string -> string;
  json_Marshal : heap -> value -> string + error;
  Unmarshal_object : string -> list (string * json) + error;
  Unmarshal_format : string -> FormatConfig + error;
  Unmarshal_convert : string -> ConvertConfig + error;
  Unmarshal_template : string -> TemplateConfig + error;
  Unmarshal_graphql_id : string -> GraphQLIDConfig + error;
  Unmarshal_array_map : string -> ArrayMapConfig + error;
  Unmarshal_json_path : string -> JsonPathConfig + error;
  Unmarshal_media_map : string -> MediaConfig + error;
  Unmarshal_metafield : string -> MetafieldConfig + error;
  Unmarshal_entity_lookup : string -> EntityLookupConfig + error;
  db_First : string -> string -> query_result;
  ListFieldMappings : N -> list FieldMapping + error
}.

(** The map a member list decodes to: a repeated key keeps its last
    value. *)
Definition members_map (members : list (string * json)) : gmap string json :=
  foldl (fun acc kv => <[fst kv := snd kv]> acc) ∅ members.

(** ** GraphQL global IDs *)

Definition convertToGraphQLGlobalID (resourceType id : string) : string :=
  "gid://shopify/" +:+ resourceType +:+ "/" +:+ id.

Definition convertFromGraphQLGlobalID (globalID : string) : string :=
  let parts := Split globalID "/" in
  if (length parts <? 4)%nat then globalID
  else List.last parts EmptyString.

(** ** [array_map] *)

(** The first loop of [transformSingleObject]: [None] is the early
    return of the empty result. *)
Fixpoint source_walk (current : loc) (paths : list string)
  : M (option value) :=
  match paths with
  | [] => ret (Some VNil)
  | [path] =>
      let! fields := load_map current in
      ret (Some (default VNil (fields !! path)))
  | path :: rest =>
      let! fields := load_map current in
      match fields !! path with
      | Some (VMap nextMap) => source_walk nextMap rest
      | _ => ret None
      end
  end.

(** Its second loop, writing [mappedValue] below [result]. *)
Fixpoint dest_walk (current : loc) (paths : list string) (mappedValue : value)
  : M unit :=
  match paths with
  | [] => ret tt
  | [path] => map_assign current path mappedValue
  | path :: rest =>
      let! fields := load_map current in
      let! _ := match fields !! path with
                | None =>
                    let! m := make_map in
                    map_assign current path (VMap m)
                | Some _ => ret tt
                end in
      let! fields := load_map current in
      match fields !! path with
      | Some (VMap nextMap) => dest_walk nextMap rest mappedValue
      | _ => panic "interface conversion: not a map"
      end
  end.

Definition transformSingleObject (item : loc) (config : ArrayMapConfig)
  : M loc :=
  let! result := make_map in
  let! found :=
    if String.eqb (SourcePath config) "" then ret (Some (VMap item))
    else source_walk item (Split (SourcePath config) ".") in
  match found with
  | None => ret result
  | Some sourceValue =>
      let mappedValue :=
        match Mapping config, sourceValue with
        | Some table, VString sourceStr =>
            match table !! sourceStr with
            | Some mapped => VString mapped
            | None => sourceValue
            end
        | _, _ => sourceValue
        end in
      let! _ :=
        if String.eqb (DestPath config) "" then
          let! fields := load_map item in
          let! copied := load_map result in
          store result (OMap (fields ∪ copied))
        else dest_walk result (Split (DestPath config) ".") mappedValue in
      ret result
  end.

(** The loop of [transformArray]; the destination slice is local until
    it is returned, so it is allocated once complete. *)
Fixpoint transformArray_items (items : list value) (config : ArrayMapConfig)
  : M (list value) :=
  match items with
  | [] => ret []
  | VMap itemMap :: rest =>
      let! destItem := transformSingleObject itemMap config in
      let! dests := transformArray_items rest config in
      ret (VMap destItem :: dests)
  | _ :: rest => transformArray_items rest config
  end.

Definition transformArray (v : value) (config : ArrayMapConfig) : M result :=
  match v with
  | VSlice a =>
      let! sourceArray := load_slice a in
      let! dests := transformArray_items sourceArray config in
      let! destArray := new (OSlice dests) in
      ok (VSlice destArray)
  | VMap sourceMap =>
      let! single := transformSingleObject sourceMap config in
      let! wrapped := new (OSlice [VMap single]) in
      ok (VSlice wrapped)
  | _ => fail (Errorf "value is not an array or object")
  end.

(** ** [json_path] *)

(** [arrayIndexRegex], [^([^\[]+)\[(\d+)\]$]: a non-empty key without
    an opening bracket, then one or more digits between brackets. *)
Definition arrayIndexRegex (component : string) : option (string * string) :=
  let i := Index component "[" in
  if i <=? 0 then None
  else
    let key := String.substring 0 (Z.to_nat i) component in
    let rest := String.substring (Z.to_nat i + 1)
                  (String.length component - (Z.to_nat i + 1)) component in
    let n := String.length rest in
    let digits := String.substring 0 (n - 1) rest in
    if (2 <=? n)%nat && String.eqb (String.substring (n - 1) 1 rest) "]"
       && all_digits digits
    then Some (key, digits) else None.

Fixpoint extractJsonPath_from (current : value) (components : list string)
  : M result :=
  match components with
  | [] => ok current
  | component :: rest =>
      let parsed :=
        match arrayIndexRegex component with
        | Some (key, indexStr) =>
            match Atoi indexStr with
            | None => inr (Errorf ("invalid array index in path: "
                                   +:+ component))
            | Some idx => inl (key, idx)
            end
        | None => inl (component, -1)
        end in
      match parsed with
      | inr e => fail e
      | inl (key, index) =>
          match current with
          | VMap m =>
              let! fields := load_map m in
              match fields !! key with
              | Some val =>
                  if index >=? 0 then
                    match val with
                    | VSlice a =>
                        let! arr := load_slice a in
                        if index <? Z.of_nat (length arr) then
                          let! elem := index_read a index in
                          extractJsonPath_from elem rest
                        else fail (Errorf ("array index out of bounds: "
                                           +:+ Itoa index))
                    | _ => fail (Errorf ("value at key " +:+ key
                                         +:+ " is not an array"))
                    end
                  else extractJsonPath_from val rest
              | None => fail (Errorf ("key " +:+ key
                                      +:+ " not found in object"))
              end
          | VSlice _ =>
              fail (Errorf ("cannot access property " +:+ key
                            +:+ " of an array"))
          | _ =>
              fail (Errorf ("cannot access property " +:+ key
                            +:+ " of a non-object"))
          end
      end
  end.

Definition extractJsonPath (v : value) (path : string) : M result :=
  if String.eqb path "" then ok v
  else extractJsonPath_from v (Split path ".").

(** ** The transformations that format values or call collaborators *)

Section Engine.

Variable lib : Library.

Definition Sprintf_v (v : value) : M string := Sprintf (fmt_float lib) VerbV v.
Definition Sprintf_s (v : value) : M string := Sprintf (fmt_float lib) VerbS v.

(** [if val, found := m[key]; found && val != nil { s = Sprintf("%s", val) }]
    for a string variable [s] declared empty. *)
Definition string_property (fields : gmap string value) (key : string)
  : M string :=
  match fields !! key with
  | None | Some VNil => ret EmptyString
  | Some val => Sprintf_s val
  end.

(** The URL [transformMedia] gives an item. *)
Definition fullURL (config : MediaConfig) (url : string) : string :=
  if negb (String.eqb (BaseURL config) "") && negb (HasPrefix url "http")
  then
    if HasSuffix (BaseURL config) "/" then BaseURL config +:+ url
    else BaseURL config +:+ "/" +:+ url
  else url.

Definition media_item (url alt : string) (position : Z)
  : gmap string value :=
  {[ "mediaContentType" := VString "IMAGE";
     "originalSource" := VString url;
     "alt" := VString alt;
     "position" := VInt position ]}.

(** The loop of [transformMedia]; [i] is the index of the first item of
    [items] in the source array. *)
Fixpoint transformMedia_items (i : Z) (items : list value)
  (config : MediaConfig) : M (list value) :=
  match items with
  | [] => ret []
  | VMap mediaMap :: rest =>
      let! fields := load_map mediaMap in
      let! url := string_property fields "url" in
      let! alt := string_property fields "alt" in
      let! _ := match fields !! "title" with
                | None | Some VNil => ret alt
                | Some titleVal => Sprintf_s titleVal
                end in
      let! destItem :=
        new (OMap (media_item (fullURL config url) alt (i + 1))) in
      let! dests := transformMedia_items (i + 1) rest config in
      ret (VMap destItem :: dests)
  | _ :: rest => transformMedia_items (i + 1) rest config
  end.

Definition transformMedia (v : value) (config : MediaConfig) : M result :=
  match v with
  | VSlice a =>
      let! sourceArray := load_slice a in
      let! dests := transformMedia_items 0 sourceArray config in
      let! destMedia := new (OSlice dests) in
      ok (VSlice destMedia)
  | _ => fail (Errorf "media value is not an array")
  end.

(** One of the two table cases of [lookupEntity]. *)
Definition lookup_in (table : string) (strID : string)
  (config : EntityLookupConfig) : M result :=
  match db_First lib table strID with
  | ErrRecordNotFound => ok (VString strID)
  | QueryError e => fail (Wrapf ("error looking up " +:+ table) e)
  | Row columns =>
      match columns !! Property config with
      | Some prop => ok prop
      | None => ok (VString strID)
      end
  end.

Definition lookupEntity (v : value) (config : EntityLookupConfig) : M result :=
  let! strID := Sprintf_v v in
  if String.eqb strID "" then fail (Errorf "empty entity ID")
  else if String.eqb (EntityType config) "manufacturer"
  then lookup_in "manufacturer" strID config
  else if String.eqb (EntityType config) "category"
  then lookup_in "category" strID config
  else ret (VString strID,
            Some (Errorf ("unsupported entity type: " +:+ EntityType config))).

Definition metafield_object (config : MetafieldConfig) (metafieldType : string)
  (metafieldValue : value) : gmap string value :=
  {[ "namespace" := VString (Namespace config);
     "key" := VString (Key config);
     "value" := metafieldValue;
     "type" := VString metafieldType ]}.

Definition createMetafield (v : value) (config : MetafieldConfig) : M result :=
  if String.eqb (Namespace config) "" || String.eqb (Key config) ""
  then fail (Errorf "metafield namespace and key are required")
  else
    let metafieldType :=
      if String.eqb (MetafieldType config) "" then "string"
      else MetafieldType config in
    let! metafieldValue :=
      if String.eqb metafieldType "string" then
        let! s := Sprintf_v v in ret (VString s)
      else if String.eqb metafieldType "number_integer" then
        let! s := Sprintf_v v in
        ret (match Atoi s with
             | Some intVal => VInt intVal
             | None => VInt 0
             end)
      else if String.eqb metafieldType "number_decimal" then
        let! s := Sprintf_v v in
        ret (match ParseFloat lib s with
             | inl floatVal => VFloat floatVal
             | inr _ => VFloat 0%float
             end)
      else if String.eqb metafieldType "boolean" then
        let! s := Sprintf_v v in
        let boolStr := ToLower s in
        ret (VBool (String.eqb boolStr "true" || String.eqb boolStr "1"
                    || String.eqb boolStr "yes"))
      else if String.eqb metafieldType "json_string" then
        fun h => match json_Marshal lib h v with
                 | inl jsonBytes => Ret (VString jsonBytes) h
                 | inr _ => Ret (VString "{}") h
                 end
      else
        let! s := Sprintf_v v in ret (VString s) in
    let! metafield :=
      new (OMap (metafield_object config metafieldType metafieldValue)) in
    ok (VMap metafield).

(** ** The transformation dispatcher *)

Definition invalid_config (e : error) : M result :=
  fail (Wrapf "invalid transform config" e).

Definition not_a_string : M result := fail (Errorf "value is not a string").

Definition applyTransformation (v : value) (mapping : FieldMapping)
  : M result :=
  let t := TransformType mapping in
  let config := TransformConfig mapping in
  if String.eqb t TransformationTypeNone then ok v
  else if String.eqb t TransformationTypeFormat then
    match Unmarshal_format lib config with
    | inr e => invalid_config e
    | inl config =>
        match v with
        | VString str =>
            match time_Parse lib (SourceFormat config) str with
            | inr e => fail (Wrapf "error parsing date" e)
            | inl t => ok (VString (time_Format lib t (DestFormat config)))
            end
        | _ => not_a_string
        end
    end
  else if String.eqb t TransformationTypeConvert then
    match Unmarshal_convert lib config with
    | inr e => invalid_config e
    | inl config =>
        if String.eqb (ConvertTo config) "string" then
          let! s := Sprintf_v v in ok (VString s)
        else if String.eqb (ConvertTo config) "int" then
          match v with
          | VString str =>
              match Atoi str with
              | None => fail (Wrapf "error converting to int"
                                (NumError "Atoi" str))
              | Some i => ok (VInt i)
              end
          | _ => not_a_string
          end
        else if String.eqb (ConvertTo config) "float" then
          match v with
          | VString str =>
              match ParseFloat lib str with
              | inr e => fail (Wrapf "error converting to float" e)
              | inl f => ok (VFloat f)
              end
          | _ => not_a_string
          end
        else if String.eqb (ConvertTo config) "bool" then
          match v with
          | VString str =>
              match ParseBool str with
              | None => fail (Wrapf "error converting to bool"
                                (NumError "ParseBool" str))
              | Some b => ok (VBool b)
              end
          | _ => not_a_string
          end
        else fail (Errorf ("unsupported conversion type: "
                           +:+ ConvertTo config))
    end
  else if String.eqb t TransformationTypeMap then
    match Unmarshal_object lib config with
    | inr e => invalid_config e
    | inl members =>
        let table := members_map members in
        let! strValue := Sprintf_v v in
        match table !! strValue with
        | Some mappedValue =>
            let! mapped := unmarshal_value mappedValue in ok mapped
        | None =>
            match table !! "_default" with
            | Some defaultValue =>
                let! mapped := unmarshal_value defaultValue in ok mapped
            | None => fail (Errorf ("no mapping found for value: "
                                    +:+ strValue))
            end
        end
    end
  else if String.eqb t TransformationTypeTemplate then
    match Unmarshal_template lib config with
    | inr e => invalid_config e
    | inl config =>
        let! s := Sprintf_v v in
        ok (VString (ReplaceAll (Template config) "{{value}}" s))
    end
  else if String.eqb t TransformationTypeGraphQLID then
    match Unmarshal_graphql_id lib config with
    | inr e => invalid_config e
    | inl config =>
        match v with
        | VString str =>
            if String.eqb (Direction config) "to_global" then
              ok (VString (convertToGraphQLGlobalID (ResourceType config) str))
            else if String.eqb (Direction config) "from_global" then
              ok (VString (convertFromGraphQLGlobalID str))
            else fail (Errorf ("invalid direction: " +:+ Direction config))
        | _ => not_a_string
        end
    end
  else if String.eqb t TransformationTypeArrayMap then
    match Unmarshal_array_map lib config with
    | inr e => invalid_config e
    | inl config => transformArray v config
    end
  else if String.eqb t TransformationTypeJsonPath then
    match Unmarshal_json_path lib config with
    | inr e => invalid_config e
    | inl config => extractJsonPath v (Path config)
    end
  else if String.eqb t TransformationTypeMediaMap then
    match Unmarshal_media_map lib config with
    | inr e => invalid_config e
    | inl config => transformMedia v config
    end
  else if String.eqb t TransformationTypeMetafield then
    match Unmarshal_metafield lib config with
    | inr e => invalid_config e
    | inl config => createMetafield v config
    end
  else if String.eqb t TransformationTypeEntityLookup then
    match Unmarshal_entity_lookup lib config with
    | inr e => invalid_config e
    | inl config => lookupEntity v config
    end
  else fail (Errorf ("unsupported transformation type: " +:+ t)).

(** ** The mapping pipeline *)

Definition required_field_missing (field : string) : error :=
  Errorf ("required field " +:+ field +:+ " not found in source data").

(** The loop of [TransformData] over the field mappings.  It returns
    the error of the early return, or [None] when the loop ends. *)
Fixpoint TransformData_loop (sourceObj destObj : loc)
  (fieldMappings : list FieldMapping) : M (option error) :=
  match fieldMappings with
  | [] => ret None
  | mapping :: rest =>
      let transform_and_set (sourceValue : value) : M (option error) :=
        let! transformed := applyTransformation sourceValue mapping in
        match transformed with
        | (_, Some err) =>
            ret (Some (Wrapf ("error transforming field "
                              +:+ SourceField mapping) err))
        | (transformedValue, None) =>
            let! set :=
              setNestedValue destObj (DestField mapping) transformedValue in
            match set with
            | Some err =>
                ret (Some (Wrapf ("error setting field "
                                  +:+ DestField mapping) err))
            | None => TransformData_loop sourceObj destObj rest
            end
        end in
      let! got := getNestedValue sourceObj (SourceField mapping) in
      match got with
      | (_, Some _) =>
          if IsRequired mapping
          then ret (Some (required_field_missing (SourceField mapping)))
          else if negb (String.eqb (DefaultValue mapping) "")
          then transform_and_set (VString (DefaultValue mapping))
          else TransformData_loop sourceObj destObj rest
      | (sourceValue, None) => transform_and_set sourceValue
      end
  end.

Definition TransformData (dataflowID : N) (sourceData : string)
  : M (option MappingResult * option error) :=
  match ListFieldMappings lib dataflowID with
  | inr err => ret (None, Some (Wrapf "error getting field mappings" err))
  | inl fieldMappings =>
      match Unmarshal_object lib sourceData with
      | inr err => ret (None, Some (Wrapf "error parsing source data" err))
      | inl members =>
          let! sourceObj := unmarshal_object members in
          let! destObj := make_map in
          let! failure :=
            TransformData_loop sourceObj destObj fieldMappings in
          match failure with
          | Some err => ret (Some {| Data := None; Error := Some err |}, None)
          | None => ret (Some {| Data := Some destObj; Error := None |}, None)
          end
      end
  end.

End Engine.

(** ** The migration log and the handlers that move its status *)

Module Webhook.

(** [models.MigrationStatus] is a string type; its constants: *)
Definition MigrationStatusPending : string := "pending".
Definition MigrationStatusInProgress : string := "in_progress".
Definition MigrationStatusSuccess : string := "success".
Definition MigrationStatusFailed : string := "failed".

Record MigrationLog := {
  DataflowID : N;
  Status : string;
  SourceIdentifier : string;
  DestIdentifier : string;
  ExecutionARN : string;
  SourcePayload : string;
  TransformedPayload : string;
  ErrorMessage : string;
  CompletedAt : option N             (* *time.Time *)
}.

(** The [migration_logs] table, by primary key. *)
Abbreviation table := (gmap N MigrationLog).

(** The body of the loop of [HandleShopwareWebhook] for one dataflow.
    [created] is the key [db.Create] gave the row, [None] when it
    failed; [started] is what [StartExecution] returned, the execution
    ARN or the message of its error.  [db.Save] writes the handler's
    copy of the log; the handler does not look at its outcome, [saved]
    tells whether it went through. *)
Definition handle_dataflow (dataflow : N) (sourceID payload : string)
  (created : option N) (started : string + string) (saved : bool)
  (db : table) : table :=
  let migrationLog :=
    {| DataflowID := dataflow;
       Status := MigrationStatusPending;
       SourceIdentifier := sourceID;
       DestIdentifier := "";
       ExecutionARN := "";
       SourcePayload := payload;
       TransformedPayload := "";
       ErrorMessage := "";
       CompletedAt := None |} in
  match created with
  | None => db
  | Some id =>
      let db := <[id := migrationLog]> db in
      if negb saved then db else
      match started with
      | inr err =>
          <[id := {| DataflowID := DataflowID migrationLog;
                     Status := MigrationStatusFailed;
                     SourceIdentifier := SourceIdentifier migrationLog;
                     DestIdentifier := DestIdentifier migrationLog;
                     ExecutionARN := ExecutionARN migrationLog;
                     SourcePayload := SourcePayload migrationLog;
                     TransformedPayload := TransformedPayload migrationLog;
                     ErrorMessage := err;
                     CompletedAt := CompletedAt migrationLog |}]> db
      | inl executionARN =>
          <[id := {| DataflowID := DataflowID migrationLog;
                     Status := MigrationStatusInProgress;
                     SourceIdentifier := SourceIdentifier migrationLog;
                     DestIdentifier := DestIdentifier migrationLog;
                     ExecutionARN := executionARN;
                     SourcePayload := SourcePayload migrationLog;
                     TransformedPayload := TransformedPayload migrationLog;
                     ErrorMessage := ErrorMessage migrationLog;
                     CompletedAt := CompletedAt migrationLog |}]> db
      end
  end.

(** The body of a status callback, with the clock reading [now] the
    handler would take and whether its [db.Save] goes through. *)
Record StatusRequest := {
  MigrationID : N;
  RequestStatus : string;                       (* field Status *)
  RequestDestIdentifier : string;
  RequestErrorMessage : string;
  RequestTransformedData : string;
  now : N;
  save_ok : bool
}.

Definition or_keep (new old : string) : string :=
  if String.eqb new "" then old else new.

(** [UpdateMigrationStatus], after the request body is bound: the new
    table and the HTTP status of the response. *)
Definition UpdateMigrationStatus (request : StatusRequest) (db : table)
  : table * Z :=
  match db !! MigrationID request with
  | None => (db, 404)
  | Some migrationLog =>
      let updated :=
        {| DataflowID := DataflowID migrationLog;
           Status := RequestStatus request;
           SourceIdentifier := SourceIdentifier migrationLog;
           DestIdentifier :=
             or_keep (RequestDestIdentifier request)
                     (DestIdentifier migrationLog);
           ExecutionARN := ExecutionARN migrationLog;
           SourcePayload := SourcePayload migrationLog;
           TransformedPayload :=
             or_keep (RequestTransformedData request)
                     (TransformedPayload migrationLog);
           ErrorMessage :=
             or_keep (RequestErrorMessage request)
                     (ErrorMessage migrationLog);
           CompletedAt :=
             if String.eqb (RequestStatus request) MigrationStatusSuccess
                || String.eqb (RequestStatus request) MigrationStatusFailed
             then Some (now request)
             else CompletedAt migrationLog |} in
      if save_ok request
      then (<[MigrationID request := updated]> db, 200)
      else (db, 500)
  end.

(** The table after each of a sequence of callbacks, oldest first. *)
Fixpoint callbacks (requests : list StatusRequest) (db : table)
  : list table :=
  match requests with
  | [] => []
  | request :: rest =>
      let db' := fst (UpdateMigrationStatus request db) in
      db' :: callbacks rest db'
  end.





(** A log of dataflow 7 that a callback has already marked as
    succeeded, under key 1. *)
Definition finished_log : MigrationLog :=
  {| DataflowID := 7;
     Status := MigrationStatusSuccess;
     SourceIdentifier := "p-1";
     DestIdentifier := "gid://shopify/Product/9";
     ExecutionARN := "arn:run";
     SourcePayload := "";
     TransformedPayload := "";
     ErrorMessage := "";
     CompletedAt := Some 10%N |}.

End Webhook.

(** ** What the specification says of [media_map]

    The input records, and the output the specification describes for
    them; these follow the specification's words and are compared with
    the code below. *)

(** [fields] holds [text] under [key]; an absent or null entry counts
    as the empty text. *)
Definition text_property (fields : gmap string value) (key text : string)
  : Prop :=
  fields !! key = Some (VString text)
  \/ (text = "" /\ (fields !! key = None \/ fields !! key = Some VNil)).

(** [item] is a record [{url, alt, title?}] of texts in the heap. *)
Definition media_record (h : heap) (item : value) (url_alt : string * string)
  : Prop :=
  exists (m : loc) (fields : gmap string value) (title : string),
    item = VMap m /\ h !! m = Some (OMap fields) /\
    text_property fields "url" (fst url_alt) /\
    text_property fields "alt" (snd url_alt) /\
    text_property fields "title" title.

(** A URL that starts with an HTTP scheme, [http://] or [https://];
    the case of a scheme does not matter. *)
Definition has_http_scheme (url : string) : bool :=
  HasPrefix (ToLower url) "http://" || HasPrefix (ToLower url) "https://".

(** The source the specification describes: [base_url] in front of
    [url] exactly when [url] does not start with an HTTP scheme. *)
Definition spec_originalSource (base_url url : string) : string :=
  if has_http_scheme url then url else base_url +:+ url.

(** The output record for the element of index [j], where
    [originalSource] gives the source of a URL. *)
Definition spec_media (originalSource : string -> string) (j : nat)
  (url_alt : string * string) : object :=
  OMap {[ "mediaContentType" := VString "IMAGE";
          "originalSource" := VString (originalSource (fst url_alt));
          "alt" := VString (snd url_alt);
          "position" := VInt (Z.of_nat j + 1) ]}.

(** ** Stand-ins for the collaborators

    A library for evaluating the engine on concrete inputs: it lists
    [mappings] for every dataflow, decodes every document to the
    members [document], every entity-lookup, media and metafield config
    to [lookup], [media] and [metafield], every conversion config to
    the target [int], answers every query with [found], and knows no
    other config. *)

Definition undecoded : error :=
  ExternalError "json" "unexpected end of JSON input".

Definition example_library (mappings : list FieldMapping)
  (document : list (string * json)) (lookup : EntityLookupConfig)
  (found : query_result) (media : MediaConfig) (metafield : MetafieldConfig)
  : Library :=
  {| fmt_float := fun _ => "0";
     ParseFloat := fun s => inr (NumError "ParseFloat" s);
     Time := unit;
     time_Parse := fun _ s => inr (ExternalError "time" s);
     time_Format := fun _ layout => layout;
     json_Marshal := fun _ _ => inr (ExternalError "json" "unsupported");
     Unmarshal_object := fun _ => inl document;
     Unmarshal_format := fun _ => inr undecoded;
     Unmarshal_convert := fun _ => inl {| ConvertTo := "int" |};
     Unmarshal_template := fun _ => inr undecoded;
     Unmarshal_graphql_id := fun _ => inr undecoded;
     Unmarshal_array_map := fun _ => inr undecoded;
     Unmarshal_json_path := fun _ => inr undecoded;
     Unmarshal_media_map := fun _ => inl media;
     Unmarshal_metafield := fun _ => inl metafield;
     Unmarshal_entity_lookup := fun _ => inl lookup;
     db_First := fun _ _ => found;
     ListFieldMappings := fun _ => inl mappings |}.

(** A mapping of a given transformation type. *)
Definition mapping_of (transform source dest : string) (required : bool)
  : FieldMapping :=
  {| DataflowID := 1;
     SourceField := source;
     DestField := dest;
     IsRequired := required;
     DefaultValue := "";
     TransformType := transform;
     TransformConfig := "" |}.

(** A one-field product, and three rule sets whose second rule fails
    after the first one wrote [title]: a required field that is
    missing, a conversion to [int] of a name, and a write below the
    string the first rule stored. *)
Definition shirt : list (string * json) := [("name", JString "Shirt")].

Definition rules_missing_price : list FieldMapping :=
  [ mapping_of TransformationTypeNone "name" "title" false;
    mapping_of TransformationTypeNone "price" "variants[0].price" true;
    mapping_of TransformationTypeNone "name" "handle" false ].

Definition rules_bad_stock : list FieldMapping :=
  [ mapping_of TransformationTypeNone "name" "title" false;
    mapping_of TransformationTypeConvert "name" "stock" false;
    mapping_of TransformationTypeNone "name" "handle" false ].

Definition rules_shape_conflict : list FieldMapping :=
  [ mapping_of TransformationTypeNone "name" "title" false;
    mapping_of TransformationTypeNone "name" "title.short" false;
    mapping_of TransformationTypeNone "name" "handle" false ].

Definition conditional_rule : FieldMapping :=
  mapping_of TransformationTypeConditional "name" "title" false.

Definition product_lookup : EntityLookupConfig :=
  {| EntityType := "product"; Property := "name" |}.

Definition cdn : MediaConfig := {| BaseURL := "https://cdn.example.com" |}.

Definition width_count : MetafieldConfig :=
  {| Namespace := "dimensions";
     Key := "width";
     MetafieldType := "number_integer" |}.

Definition shirt_library (rules : list FieldMapping) : Library :=
  example_library rules shirt product_lookup ErrRecordNotFound cdn
    width_count.

(** An entity-lookup rule on the name, and a library that decodes the
    lookup config to the manufacturer name and finds no record. *)
Definition vendor_rule : FieldMapping :=
  mapping_of TransformationTypeEntityLookup "name" "vendor" false.

Definition manufacturer_lookup : EntityLookupConfig :=
  {| EntityType := "manufacturer"; Property := "name" |}.

Definition no_manufacturer_library : Library :=
  example_library [vendor_rule] shirt manufacturer_lookup ErrRecordNotFound
    cdn width_count.

(** Two media records, the second with an absolute URL and no alt
    text, in a slice at location 2. *)
Definition gallery : heap :=
  [ OMap {[ "url" := VString "media/front.png"; "alt" := VString "Front" ]};
    OMap {[ "url" := VString "https://img.example.com/back.png";
            "alt" := VNil ]};
    OSlice [VMap 0%nat; VMap 1%nat] ].

Definition gallery_texts : list (string * string) :=
  [ ("media/front.png", "Front");
    ("https://img.example.com/back.png", "") ].




(** Two media records: a relative URL that starts with the letters
    [http], and an absolute one with its scheme in capitals. *)
Definition lookalikes : heap :=
  [ OMap {[ "url" := VString "httpdocs/img.png"; "alt" := VString "Docs" ]};
    OMap {[ "url" := VString "HTTPS://img.example.com/back.png";
            "alt" := VString "Back" ]};
    OSlice [VMap 0%nat; VMap 1%nat] ].

Definition lookalike_texts : list (string * string) :=
  [ ("httpdocs/img.png", "Docs");
    ("HTTPS://img.example.com/back.png", "Back") ].

Definition media_rule : FieldMapping :=
  mapping_of TransformationTypeMediaMap "media" "media" false.


Definition stock_rule : FieldMapping :=
  mapping_of TransformationTypeConvert "stock" "stock" false.

(** The status table of the default product mappings, as a document. *)
Definition status_table : list (string * json) :=
  [ ("true", JString "ACTIVE");
    ("false", JString "DRAFT");
    ("_default", JString "DRAFT") ].

Definition status_library : Library :=
  example_library [] status_table product_lookup ErrRecordNotFound cdn
    width_count.

Definition status_rule : FieldMapping :=
  mapping_of TransformationTypeMap "active" "status" false.

Definition one_variant : json :=
  JObject [("variants", JArray [JObject [("price", JString "9.99")]])].

(** ** Observations on lookups and on the heap

    Used to state what the accessors and the transformations do on
    every document. *)

(** What a lookup found, without the text of its error. *)
Definition found_value (o : outcome result) : outcome (option value) :=
  match o with
  | Ret (v, None) h => Ret (Some v) h
  | Ret (_, Some _) h => Ret None h
  | Panic why => Panic why
  end.

(** A value names an object of its own kind. *)
Definition valid (h : heap) (v : value) : bool :=
  match v with
  | VMap m => match h !! m with Some (OMap _) => true | _ => false end
  | VSlice a => match h !! a with Some (OSlice _) => true | _ => false end
  | _ => true
  end.

Definition object_closed (h : heap) (o : object) : bool :=
  match o with
  | OSlice elems => forallb (valid h) elems
  | OMap fields => forallb (fun kv => valid h (snd kv)) (map_to_list fields)
  end.

(** No object of the heap holds a dangling reference: what every heap
    is that the program can build. *)
Definition closed (h : heap) : bool := forallb (object_closed h) h.

(** Heaps whose references stay valid. *)
Definition keeps (h h' : heap) : Prop :=
  forall v, valid h v = true -> valid h' v = true.

(** Decoding keeps the heap closed. *)
Definition decodes_closed (j : json) : Prop :=
  forall h : heap,
    closed h = true ->
    exists ext : heap,
      snd (alloc_json j h) = h ++ ext
      /\ closed (h ++ ext) = true
      /\ valid (h ++ ext) (fst (alloc_json j h)) = true.

Definition is_object (v : value) : bool :=
  match v with VMap _ => true | _ => false end.

(** A key that is one plain part of a path. *)
Definition plain_key (key : string) : bool :=
  negb (Contains key ".") && negb (is_array_access key).

(** A part of a path that [setNestedValue] can work on: a plain part,
    or an array access whose brackets are in order and whose index, if
    it is a number at all, is not negative and small enough for [make]
    to give a slice of [index + 1] elements. *)
Definition safe_part (part : string) : bool :=
  if is_array_access part then
    match slice part (Index part "[" + 1) (Index part "]") with
    | Some indexStr =>
        match Atoi indexStr with
        | Some index => (0 <=? index) && (16 * (index + 1) <=? maxAlloc)
        | None => true
        end
    | None => false
    end
  else true.

(** ** Rules that copy a field *)

(** The value a rule without transformation hands to the destination:
    the source field, or the default value when the field is absent and
    a default is given. *)
Definition rule_value (source : gmap string value) (mapping : FieldMapping)
  : option value :=
  match source !! SourceField mapping with
  | Some v => Some v
  | None =>
      if String.eqb (DefaultValue mapping) "" then None
      else Some (VString (DefaultValue mapping))
  end.

(** The destination fields after a rule that copies to a plain key. *)
Definition copy_rule (source : gmap string value)
  (dest : gmap string value) (mapping : FieldMapping) : gmap string value :=
  match rule_value source mapping with
  | Some v => <[DestField mapping := v]> dest
  | None => dest
  end.

(** A rule that copies one plain key to another, and is not required
    unless the source has its field. *)
Definition copies (source : gmap string value) (mapping : FieldMapping)
  : Prop :=
  TransformType mapping = TransformationTypeNone
  /\ plain_key (SourceField mapping) = true
  /\ plain_key (DestField mapping) = true
  /\ (IsRequired mapping = true -> is_Some (source !! SourceField mapping)).

(** ** Rules that work on the structure of a value *)

(** The transformations that work on the structure of a value and do
    not print it. *)
Definition structural : list string :=
  [ TransformationTypeNone; TransformationTypeFormat;
    TransformationTypeGraphQLID; TransformationTypeArrayMap;
    TransformationTypeJsonPath ].

(** A rule with a structural transformation whose paths are made of
    safe parts. *)
Definition safe_rule (mapping : FieldMapping) : bool :=
  existsb (String.eqb (TransformType mapping)) structural
  && forallb safe_part (Split (SourceField mapping) ".")
  && forallb safe_part (Split (DestField mapping) ".").

(** ** The middleware in front of the handlers *)

Module Middleware.

(** What a middleware does with a request: hand it to the next handler,
    or abort it with a status and an error message. *)
Inductive verdict :=
| Next
| AbortWithStatusJSON (status : Z) (message : string).

(** [AuthMiddleware(secret)] on the value of the [Authorization]
    header, the empty string when the request has none. *)
Definition AuthMiddleware (secret authHeader : string) : verdict :=
  if String.eqb authHeader "" then
    AbortWithStatusJSON 401 "Authorization header is required"
  else
    let parts := Split authHeader " " in
    if negb (length parts =? 2)%nat
       || negb (String.eqb (nth 0 parts "") "Bearer")
    then AbortWithStatusJSON 401
           "Authorization header format must be Bearer {token}"
    else if negb (String.eqb (nth 1 parts "") secret)
    then AbortWithStatusJSON 401 "Invalid authentication token"
    else Next.

(** [APIKeyMiddleware(apiKey)] on the value of the [X-API-Key] header. *)
Definition APIKeyMiddleware (apiKey requestAPIKey : string) : verdict :=
  if String.eqb requestAPIKey "" || negb (String.eqb requestAPIKey apiKey)
  then AbortWithStatusJSON 401 "Invalid API key"
  else Next.

End Middleware.

(** ** The database and the services on it *)

(** [strconv.ParseUint(s, 10, 32)]: decimal digits only, the value
    below [2^32]. *)
Definition ParseUint (s : string) : option N :=
  match s with
  | EmptyString => None
  | _ =>
      if all_digits s then
        let n := digits_value 0 s in
        if n <? 2 ^ 32 then Some (Z.to_N n) else None
      else None
  end.

Module Store.

Definition DataflowTypeProduct : string := "product".
Definition DataflowTypeOrder : string := "order".

Record Dataflow := {
  Name : string;
  Type_ : string;                               (* field Type *)
  SourceConnectorID : N;
  DestConnectorID : N
}.

(** The tables the services read and write, by primary key; a deleted
    row is one the queries no longer see. *)
Record Database := {
  dataflows : gmap N Dataflow;
  field_mappings : gmap N FieldMapping;
  migration_logs : Webhook.table
}.

(** The database and, for each of its calls still to come, whether the
    call fails; no entry means it goes through. *)
Record world := { tables : Database; faults : list bool }.

(** A service call returns, or panics, in some state of the world. *)
Inductive run (A : Type) : Type :=
| Done (a : A) (w : world)
| Crash (why : string) (w : world).
Arguments Done {A} a w.
Arguments Crash {A} why w.

Definition DB (A : Type) : Type := world -> run A.

#[export] Instance DB_ret : MRet DB := fun A a w => Done a w.

#[export] Instance DB_bind : MBind DB := fun A B k m w =>
  match m w with
  | Done a w' => k a w'
  | Crash why w' => Crash why w'
  end.

Definition ErrDatabase : error := ExternalError "gorm" "invalid transaction".
Definition gorm_ErrRecordNotFound : error :=
  ExternalError "gorm" "record not found".

(** [errors.Is(err, gorm.ErrRecordNotFound)] *)
Definition is_not_found (err : error) : bool :=
  match err with
  | ExternalError pkg detail =>
      String.eqb pkg "gorm" && String.eqb detail "record not found"
  | _ => false
  end.

(** One call of the database: it fails when the next fault says so, and
    otherwise answers and changes the tables by [f]. *)
Definition call {A} (f : Database -> A * Database) : DB (A + error) :=
  fun w =>
    let go rest :=
      let '(a, t) := f (tables w) in
      Done (inl a) {| tables := t; faults := rest |} in
    match faults w with
    | true :: rest =>
        Done (inr ErrDatabase) {| tables := tables w; faults := rest |}
    | false :: rest => go rest
    | [] => go []
    end.

(** Whether the next call of the database fails, and the world after a
    call that left the tables as [t]. *)
Definition fails (w : world) : bool :=
  match faults w with true :: _ => true | _ => false end.

Definition after (w : world) (t : Database) : world :=
  {| tables := t; faults := tl (faults w) |}.

(** [db.First(&row, id)] *)
Definition First {R} (table : Database -> gmap N R) (id : N) : DB (R + error) :=
  r ← call (fun t => (table t !! id, t));
  mret (match r with
        | inl (Some row) => inl row
        | inl None => inr gorm_ErrRecordNotFound
        | inr err => inr err
        end).

(** The [Error] of a call that answers nothing. *)
Definition exec (f : Database -> Database) : DB (option error) :=
  r ← call (fun t => (tt, f t));
  mret (match r with inl _ => None | inr err => Some err end).

Definition with_field_mappings (t : Database) (m : gmap N FieldMapping)
  : Database :=
  {| dataflows := dataflows t; field_mappings := m;
     migration_logs := migration_logs t |}.

Definition with_dataflows (t : Database) (d : gmap N Dataflow) : Database :=
  {| dataflows := d; field_mappings := field_mappings t;
     migration_logs := migration_logs t |}.

Definition with_migration_logs (t : Database) (l : Webhook.table)
  : Database :=
  {| dataflows := dataflows t; field_mappings := field_mappings t;
     migration_logs := l |}.

Definition ErrInvalidFieldMapping : error :=
  Errorf "invalid field mapping: source and destination fields are required".

(** [FieldMapping.BeforeCreate] *)
Definition BeforeCreate (fm : FieldMapping) : option error :=
  if String.eqb (SourceField fm) "" || String.eqb (DestField fm) ""
  then Some ErrInvalidFieldMapping
  else None.

(** The Shopify client and the parts of [encoding/json] and [fmt] that
    [ExecuteDataflow] calls and this development does not look into:
    decoding into the request structs, the two creation calls with the
    ID of the created resource, and the text of an error. *)
Record Shopify := {
  ProductCreateRequest : Type;
  OrderCreateRequest : Type;
  Unmarshal_product : string -> ProductCreateRequest + error;
  Unmarshal_order : string -> OrderCreateRequest + error;
  CreateProduct : Dataflow -> ProductCreateRequest -> Z + error;
  CreateOrder : Dataflow -> OrderCreateRequest -> Z + error;
  Error_text : error -> string
}.

Module DataflowService.

Definition GetDataflow (id : N) : DB (Dataflow + error) := First dataflows id.

Definition DeleteDataflow (id : N) : DB (option error) :=
  existingDataflow ← GetDataflow id;
  match existingDataflow with
  | inr err => mret (Some err)
  | inl _ =>
      count ← call (fun t =>
                 (size (filter (fun kv => Webhook.DataflowID (snd kv) = id)
                          (migration_logs t)), t));
      match count with
      | inr err => mret (Some err)
      | inl count =>
          if (0 <? count)%nat then
            mret (Some (Errorf
                    "dataflow has migration logs and cannot be deleted"))
          else
            err ← exec (fun t =>
                     with_field_mappings t
                       (filter (fun kv => DataflowID (snd kv) <> id)
                          (field_mappings t)));
            match err with
            | Some err => mret (Some err)
            | None => exec (fun t => with_dataflows t (delete id (dataflows t)))
            end
      end
  end.

Definition GetMigrationLog (id : N) : DB (Webhook.MigrationLog + error) :=
  First migration_logs id.

(** [s.db.Create(&migrationLog)], with the primary key [key] the row
    gets, and [s.db.Save(&migrationLog)] for the log of that key. *)
Definition Create (key : N) (migrationLog : Webhook.MigrationLog)
  : DB (option error) :=
  exec (fun t =>
          with_migration_logs t (<[key := migrationLog]> (migration_logs t))).

Definition Save (key : N) (migrationLog : Webhook.MigrationLog)
  : DB (option error) :=
  exec (fun t =>
          with_migration_logs t (<[key := migrationLog]> (migration_logs t))).

(** The assignments to the log before a failure is saved. *)
Definition failed (migrationLog : Webhook.MigrationLog) (message : string)
  : Webhook.MigrationLog :=
  {| Webhook.DataflowID := Webhook.DataflowID migrationLog;
     Webhook.Status := Webhook.MigrationStatusFailed;
     Webhook.SourceIdentifier := Webhook.SourceIdentifier migrationLog;
     Webhook.DestIdentifier := Webhook.DestIdentifier migrationLog;
     Webhook.ExecutionARN := Webhook.ExecutionARN migrationLog;
     Webhook.SourcePayload := Webhook.SourcePayload migrationLog;
     Webhook.TransformedPayload := Webhook.TransformedPayload migrationLog;
     Webhook.ErrorMessage := message;
     Webhook.CompletedAt := Webhook.CompletedAt migrationLog |}.

(** [migrationLog.TransformedPayload = string(transformedJSON)] *)
Definition with_payload (migrationLog : Webhook.MigrationLog)
  (transformedJSON : string) : Webhook.MigrationLog :=
  {| Webhook.DataflowID := Webhook.DataflowID migrationLog;
     Webhook.Status := Webhook.Status migrationLog;
     Webhook.SourceIdentifier := Webhook.SourceIdentifier migrationLog;
     Webhook.DestIdentifier := Webhook.DestIdentifier migrationLog;
     Webhook.ExecutionARN := Webhook.ExecutionARN migrationLog;
     Webhook.SourcePayload := Webhook.SourcePayload migrationLog;
     Webhook.TransformedPayload := transformedJSON;
     Webhook.ErrorMessage := Webhook.ErrorMessage migrationLog;
     Webhook.CompletedAt := Webhook.CompletedAt migrationLog |}.

(** The assignments of the success path. *)
Definition succeeded (migrationLog : Webhook.MigrationLog)
  (destIdentifier : string) : Webhook.MigrationLog :=
  {| Webhook.DataflowID := Webhook.DataflowID migrationLog;
     Webhook.Status := Webhook.MigrationStatusSuccess;
     Webhook.SourceIdentifier := Webhook.SourceIdentifier migrationLog;
     Webhook.DestIdentifier := destIdentifier;
     Webhook.ExecutionARN := Webhook.ExecutionARN migrationLog;
     Webhook.SourcePayload := Webhook.SourcePayload migrationLog;
     Webhook.TransformedPayload := Webhook.TransformedPayload migrationLog;
     Webhook.ErrorMessage := Webhook.ErrorMessage migrationLog;
     Webhook.CompletedAt := Webhook.CompletedAt migrationLog |}.

Section Execute.

Variable lib : Library.
Variable shopify : Shopify.

(** A failure path: the log is marked and saved, without a look at the
    outcome of the save, and [err] is returned. *)
Definition abandon (key : N) (migrationLog : Webhook.MigrationLog)
  (message : string) (err : error) : DB (option error) :=
  _ ← Save key (failed migrationLog message);
  mret (Some err).

(** The call of [TransformData], which works on memory of its own; its
    panic is the panic of the caller. *)
Definition transform (dataflowID : N) (sourceData : string)
  : DB ((option MappingResult * option error) * heap) :=
  fun w => match TransformData lib dataflowID sourceData [] with
           | Ret r h => Done (r, h) w
           | Panic why => Crash why w
           end.

(** The two cases of the switch on the dataflow type that upload; they
    differ in the request struct, the creation call and the word
    [what] of the error message. *)
Definition upload {Request : Type} (unmarshal : string -> Request + error)
  (create : Request -> Z + error) (what : string) (key : N)
  (migrationLog : Webhook.MigrationLog) (h : heap) (data : value)
  : DB (option error) :=
  match json_Marshal lib h data with
  | inr err =>
      abandon key migrationLog
        ("Error marshaling transformed data: " +:+ Error_text shopify err) err
  | inl transformedJSON =>
      let migrationLog := with_payload migrationLog transformedJSON in
      match unmarshal transformedJSON with
      | inr err =>
          abandon key migrationLog
            ("Error unmarshaling transformed data: "
             +:+ Error_text shopify err) err
      | inl request =>
          match create request with
          | inr err =>
              abandon key migrationLog
                ("Error creating " +:+ what +:+ " in Shopify: "
                 +:+ Error_text shopify err) err
          | inl id => Save key (succeeded migrationLog (Itoa id))
          end
      end
  end.

(** [key] is the primary key the new log gets. *)
Definition ExecuteDataflow (dataflowID : N)
  (sourceIdentifier sourceData : string) (key : N) : DB (option error) :=
  found ← GetDataflow dataflowID;
  match found with
  | inr err => mret (Some err)
  | inl dataflow =>
      let migrationLog :=
        {| Webhook.DataflowID := dataflowID;
           Webhook.Status := Webhook.MigrationStatusInProgress;
           Webhook.SourceIdentifier := sourceIdentifier;
           Webhook.DestIdentifier := "";
           Webhook.ExecutionARN := "";
           Webhook.SourcePayload := sourceData;
           Webhook.TransformedPayload := "";
           Webhook.ErrorMessage := "";
           Webhook.CompletedAt := None |} in
      created ← Create key migrationLog;
      match created with
      | Some err => mret (Some err)
      | None =>
          '(transformed, h) ← transform dataflowID sourceData;
          match transformed with
          | (_, Some err) =>
              abandon key migrationLog
                ("Error transforming data: " +:+ Error_text shopify err) err
          | (None, None) =>
              fun w => Crash "nil pointer dereference" w
          | (Some result, None) =>
              match Error result with
              | Some err =>
                  abandon key migrationLog
                    ("Error in transformation: " +:+ Error_text shopify err)
                    err
              | None =>
                  let data := match Data result with
                              | Some destObj => VMap destObj
                              | None => VNil
                              end in
                  if String.eqb (Type_ dataflow) DataflowTypeProduct then
                    upload (Unmarshal_product shopify)
                      (CreateProduct shopify dataflow) "product"
                      key migrationLog h data
                  else if String.eqb (Type_ dataflow) DataflowTypeOrder then
                    upload (Unmarshal_order shopify)
                      (CreateOrder shopify dataflow) "order"
                      key migrationLog h data
                  else
                    abandon key migrationLog "Unsupported dataflow type"
                      (Errorf ("unsupported dataflow type: "
                               +:+ Type_ dataflow))
              end
          end
      end
  end.

End Execute.

End DataflowService.

Module FieldMappingService.

(** [key] is the primary key the row gets. *)
Definition CreateFieldMapping (fieldMapping : FieldMapping) (key : N)
  : DB (option error) :=
  r ← call (fun t =>
         match BeforeCreate fieldMapping with
         | Some err => (Some err, t)
         | None =>
             (None,
              with_field_mappings t (<[key := fieldMapping]> (field_mappings t)))
         end);
  mret (match r with inl hook => hook | inr err => Some err end).

Definition GetFieldMapping (id : N) : DB (FieldMapping + error) :=
  First field_mappings id.

Definition UpdateFieldMapping (id : N) (fieldMapping : FieldMapping)
  : DB (option error) :=
  existingFieldMapping ← GetFieldMapping id;
  match existingFieldMapping with
  | inr err => mret (Some err)
  | inl _ =>
      exec (fun t =>
              with_field_mappings t (<[id := fieldMapping]> (field_mappings t)))
  end.

Definition DeleteFieldMapping (id : N) : DB (option error) :=
  existingFieldMapping ← GetFieldMapping id;
  match existingFieldMapping with
  | inr err => mret (Some err)
  | inl _ =>
      exec (fun t => with_field_mappings t (delete id (field_mappings t)))
  end.

End FieldMappingService.

(** The handlers, from the path parameters and the bound request body
    ([None] when the binding fails) to the status of the response. *)
Module DataflowHandler.

Definition status_of (err : error) : Z :=
  if is_not_found err then 404 else 500.

(** [fieldMapping.DataflowID = uint(id)] *)
Definition for_dataflow (fieldMapping : FieldMapping) (id : N)
  : FieldMapping :=
  {| DataflowID := id;
     SourceField := SourceField fieldMapping;
     DestField := DestField fieldMapping;
     IsRequired := IsRequired fieldMapping;
     DefaultValue := DefaultValue fieldMapping;
     TransformType := TransformType fieldMapping;
     TransformConfig := TransformConfig fieldMapping |}.

Definition CreateFieldMapping (id_param : string) (body : option FieldMapping)
  (key : N) : DB Z :=
  match ParseUint id_param with
  | None => mret 400
  | Some id =>
      found ← DataflowService.GetDataflow id;
      match found with
      | inr err => mret (status_of err)
      | inl _ =>
          match body with
          | None => mret 400
          | Some fieldMapping =>
              err ← FieldMappingService.CreateFieldMapping
                      (for_dataflow fieldMapping id) key;
              match err with
              | Some _ => mret 500
              | None => mret 201
              end
          end
      end
  end.

Definition UpdateFieldMapping (id_param mappingId_param : string)
  (body : option FieldMapping) : DB Z :=
  match ParseUint id_param with
  | None => mret 400
  | Some dataflowID =>
      match ParseUint mappingId_param with
      | None => mret 400
      | Some mappingID =>
          found ← DataflowService.GetDataflow dataflowID;
          match found with
          | inr err => mret (status_of err)
          | inl _ =>
              match body with
              | None => mret 400
              | Some fieldMapping =>
                  err ← FieldMappingService.UpdateFieldMapping mappingID
                          (for_dataflow fieldMapping dataflowID);
                  match err with
                  | Some err => mret (status_of err)
                  | None => mret 200
                  end
              end
          end
      end
  end.

Definition DeleteFieldMapping (mappingId_param : string) : DB Z :=
  match ParseUint mappingId_param with
  | None => mret 400
  | Some mappingID =>
      err ← FieldMappingService.DeleteFieldMapping mappingID;
      match err with
      | Some err => mret (status_of err)
      | None => mret 200
      end
  end.

(** The response carries the log when the status is 200. *)
Definition GetMigrationLog (id_param logId_param : string)
  : DB (Z * option Webhook.MigrationLog) :=
  match ParseUint id_param with
  | None => mret (400, None)
  | Some dataflowID =>
      match ParseUint logId_param with
      | None => mret (400, None)
      | Some logID =>
          found ← DataflowService.GetDataflow dataflowID;
          match found with
          | inr err => mret (status_of err, None)
          | inl _ =>
              log ← DataflowService.GetMigrationLog logID;
              match log with
              | inr err => mret (status_of err, None)
              | inl log =>
                  if negb (N.eqb (Webhook.DataflowID log) dataflowID)
                  then mret (404, None)
                  else mret (200, Some log)
              end
          end
      end
  end.

End DataflowHandler.

(** No field mapping and no migration log names a dataflow that the
    database does not hold. *)
Definition referenced (t : Database) : Prop :=
  map_Forall (fun _ fm => is_Some (dataflows t !! DataflowID fm))
    (field_mappings t)
  /\ map_Forall (fun _ log => is_Some (dataflows t !! Webhook.DataflowID log))
       (migration_logs t).

(** What a run leaves under the key of its log: a log that carries
    [status] and no completion time. *)
Definition leaves (w' : world) (key : N) (status : string) : Prop :=
  exists log,
    migration_logs (tables w') !! key = Some log
    /\ Webhook.Status log = status
    /\ Webhook.CompletedAt log = None.

(** The outcomes of a run once its log is stored; [faulty] says that a
    call of the database failed. *)
Definition settled (key : N) (faulty : Prop) (r : run (option error)) : Prop :=
  match r with
  | Done None w' => leaves w' key Webhook.MigrationStatusSuccess
  | Done (Some _) w' =>
      leaves w' key Webhook.MigrationStatusFailed
      \/ (leaves w' key Webhook.MigrationStatusInProgress /\ faulty)
  | Crash _ w' => leaves w' key Webhook.MigrationStatusInProgress
  end.

End Store.

Import Store.

(** ** The handoff of a webhook to the workflow *)

Module Handoff.

Import Webhook.

(** What the collaborators answer while the handler works on one
    dataflow: the key [db.Create] gives the log, what [StartExecution]
    returns, and whether [db.Save] goes through. *)
Record answers := {
  dataflow : N;
  created : option N;
  started : string + string;
  saved : bool
}.

(** The loop of [HandleShopwareWebhook] over the active dataflows. *)
Definition HandleShopwareWebhook_loop (sourceID payload : string)
  (dataflows : list answers) (db : table) : table :=
  foldl (fun db a =>
           handle_dataflow (dataflow a) sourceID payload (created a)
             (started a) (saved a) db)
    db dataflows.

(** [later] is [earlier] with nothing taken back: the same dataflow,
    source and execution, and a destination identifier, error message,
    transformed payload and completion time once set stay set. *)
Definition keeps_record (earlier later : MigrationLog) : Prop :=
  DataflowID later = DataflowID earlier
  /\ SourceIdentifier later = SourceIdentifier earlier
  /\ SourcePayload later = SourcePayload earlier
  /\ ExecutionARN later = ExecutionARN earlier
  /\ (DestIdentifier earlier <> "" -> DestIdentifier later <> "")
  /\ (ErrorMessage earlier <> "" -> ErrorMessage later <> "")
  /\ (TransformedPayload earlier <> "" -> TransformedPayload later <> "")
  /\ (is_Some (CompletedAt earlier) -> is_Some (CompletedAt later)).

End Handoff.

(** ** More stand-ins *)

(** [lib] with every template config decoding to [config]. *)
Definition with_template (lib : Library) (config : TemplateConfig) : Library :=
  {| fmt_float := fmt_float lib;
     ParseFloat := ParseFloat lib;
     Time := Time lib;
     time_Parse := time_Parse lib;
     time_Format := time_Format lib;
     json_Marshal := json_Marshal lib;
     Unmarshal_object := Unmarshal_object lib;
     Unmarshal_format := Unmarshal_format lib;
     Unmarshal_convert := Unmarshal_convert lib;
     Unmarshal_template := fun _ => inl config;
     Unmarshal_graphql_id := Unmarshal_graphql_id lib;
     Unmarshal_array_map := Unmarshal_array_map lib;
     Unmarshal_json_path := Unmarshal_json_path lib;
     Unmarshal_media_map := Unmarshal_media_map lib;
     Unmarshal_metafield := Unmarshal_metafield lib;
     Unmarshal_entity_lookup := Unmarshal_entity_lookup lib;
     db_First := db_First lib;
     ListFieldMappings := ListFieldMappings lib |}.

Definition sku_template : TemplateConfig :=
  {| Template := "SKU-" +:+ "{{value}}" +:+ "-EU" |}.

(** A product whose [seo] object sits at location 1, with the empty
    destination document at location 2. *)
Definition shirt_with_seo : heap :=
  [ OMap {[ "name" := VString "Shirt"; "seo" := VMap 1%nat ]};
    OMap {[ "keywords" := VString "cotton" ]};
    OMap ∅ ].

(** A product and its empty destination. *)
Definition shirt_and_destination : heap :=
  [ OMap {[ "name" := VString "Shirt"; "active" := VBool true ]}; OMap ∅ ].

(** A product with one tag. *)
Definition tagged : heap :=
  [ OMap {[ "tags" := VSlice 1%nat ]}; OSlice [VString "old"] ].

(** An [array_map] config that renames [url] to [src]. *)
Definition url_to_src : ArrayMapConfig :=
  {| SourcePath := "url"; DestPath := "src"; Mapping := None |}.

(** A product with a list of variants, and two rules on it. *)
Definition shirt_with_variants : heap :=
  [ OMap {[ "name" := VString "Shirt"; "variants" := VSlice 1%nat ]};
    OSlice [VMap 2%nat];
    OMap {[ "sku" := VString "S-1" ]};
    OMap ∅ ].

Definition variant_rules : list FieldMapping :=
  [ mapping_of TransformationTypeNone "variants[0].sku" "variants[0].sku" true;
    mapping_of TransformationTypeJsonPath "variants" "options.first.values"
      false ].

(** A database with a product dataflow 7 that has one rule and one
    finished log, and an order dataflow 8 without rules or logs. *)
Definition shop : Database :=
  {| dataflows :=
       {[ 7%N := {| Name := "products"; Type_ := DataflowTypeProduct;
                    SourceConnectorID := 1; DestConnectorID := 2 |};
          8%N := {| Name := "orders"; Type_ := DataflowTypeOrder;
                    SourceConnectorID := 1; DestConnectorID := 2 |} ]};
     field_mappings :=
       {[ 3%N := DataflowHandler.for_dataflow
                   (mapping_of TransformationTypeNone "name" "title" true) 7 ]};
     migration_logs := {[ 1%N := Webhook.finished_log ]} |}.

(** The database answering every call. *)
Definition reliable (t : Database) : world := {| tables := t; faults := [] |}.

(** A Shopify stand-in that accepts every request and numbers the
    created resource 9. *)
Definition example_shopify : Shopify :=
  {| ProductCreateRequest := string;
     OrderCreateRequest := string;
     Unmarshal_product := fun s => inl s;
     Unmarshal_order := fun s => inl s;
     CreateProduct := fun _ _ => inl 9;
     CreateOrder := fun _ _ => inl 9;
     Error_text := fun _ => "error" |}.

(** * Properties *)

(** ** The examples of the specification, evaluated *)

Example Split_samples :
  Split "variants[0].price" "." = ["variants[0]"; "price"]
  /\ Split "" "/" = [""]
  /\ Split "a..b" "." = ["a"; ""; "b"].
Proof. repeat split; reflexivity. Qed.

Example Atoi_samples :
  Atoi "42" = Some 42 /\ Atoi "-1" = Some (-1) /\ Atoi "+7" = Some 7
  /\ Atoi "abc" = None /\ Atoi "" = None /\ Atoi "-" = None
  /\ Atoi "9223372036854775807" = Some max_int
  /\ Atoi "9223372036854775808" = None.
Proof. repeat split; reflexivity. Qed.

Example int_add_samples :
  int_add 0 1 = 1 /\ int_add (-1) 1 = 0 /\ int_add max_int 1 = min_int.
Proof. repeat split; reflexivity. Qed.

Example ReplaceAll_sample :
  ReplaceAll "sku-{{value}}/{{value}}" "{{value}}" "A1" = "sku-A1/A1".
Proof. reflexivity. Qed.

Example arrayIndexRegex_samples :
  arrayIndexRegex "items[10]" = Some ("items", "10")
  /\ arrayIndexRegex "[0]" = None
  /\ arrayIndexRegex "items[]" = None
  /\ arrayIndexRegex "items[-1]" = None
  /\ arrayIndexRegex "items[0]x" = None.
Proof. repeat split; reflexivity. Qed.

Example set_seo_title :
  exists h,
    setNestedValue root "seo.title" (VString "Foo") empty_root = Ret None h
    /\ reify 2 h (VMap root)
       = Some (JObject [("seo", JObject [("title", JString "Foo")])]).
Proof. eexists. split; vm_compute; reflexivity. Qed.

Example set_grows_slice :
  exists h,
    setNestedValue root "tags[2]" (VString "new") empty_root = Ret None h
    /\ reify 2 h (VMap root)
       = Some (JObject [("tags", JArray [JNull; JNull; JString "new"])]).
Proof. eexists. split; vm_compute; reflexivity. Qed.

Example get_variant_price :
  match alloc_json one_variant [] with
  | (VMap obj, h) =>
      getNestedValue obj "variants[0].price" h = Ret (VString "9.99", None) h
      /\ getNestedValue obj "variants[1].price" h
         = Ret (VNil, Some (Errorf "array index out of bounds: 1")) h
      /\ getNestedValue obj "variants[0].sku" h
         = Ret (VNil, Some (Errorf "field sku not found")) h
  | _ => False
  end.
Proof. vm_compute. repeat split; reflexivity. Qed.

Example convert_int_samples :
  applyTransformation (shirt_library []) (VString "42") stock_rule []
  = Ret (VInt 42, None) []
  /\ applyTransformation (shirt_library []) (VString "abc") stock_rule []
     = Ret (VNil, Some (Wrapf "error converting to int"
                          (NumError "Atoi" "abc"))) [].
Proof. split; reflexivity. Qed.

Example map_status_samples :
  applyTransformation status_library (VBool true) status_rule []
  = Ret (VString "ACTIVE", None) []
  /\ applyTransformation status_library (VString "maybe") status_rule []
     = Ret (VString "DRAFT", None) [].
Proof. split; vm_compute; reflexivity. Qed.

Example Sprintf_samples :
  match alloc_json one_variant [] with
  | (v, h) =>
      Sprintf (fun _ => "0") VerbV v h = Ret "map[variants:[map[price:9.99]]]" h
  end
  /\ Sprintf (fun _ => "0") VerbS (VInt 3) [] = Ret "%!s(int=3)" []
  /\ Sprintf (fun _ => "0") VerbV (VMap 0%nat)
       [OMap {[ "self" := VMap 0%nat ]}]
     = Panic "stack overflow".
Proof. vm_compute. repeat split; reflexivity. Qed.


(** ** Strings *)

Lemma append_nil_l (s : string) : "" +:+ s = s.
Proof. reflexivity. Qed.

Lemma append_cons (c : ascii) (s t : string) :
  String c s +:+ t = String c (s +:+ t).
Proof. reflexivity. Qed.

Lemma append_assoc (a b c : string) : (a +:+ b) +:+ c = a +:+ (b +:+ c).
Proof.
  induction a as [|x a IH]; [reflexivity|].
  rewrite !append_cons. f_equal. exact IH.
Qed.

Section SplitFacts.

Variable sep : ascii.

Lemma Split_nonempty (s : string) : Split s sep <> [].
Proof.
  destruct s as [|c s]; simpl; [discriminate|].
  destruct (Ascii.eqb c sep); [discriminate|].
  destruct (Split s sep); discriminate.
Qed.

(** Splitting around one more separator splits both sides. *)
Lemma Split_app (p q : string) :
  Split (p +:+ String sep q) sep = Split p sep ++ Split q sep.
Proof.
  induction p as [|c p IH]; [rewrite append_nil_l|rewrite append_cons]; simpl.
  - now rewrite Ascii.eqb_refl.
  - destruct (Ascii.eqb c sep); [now rewrite IH|].
    rewrite IH. pose proof (Split_nonempty p) as Hne.
    destruct (Split p sep); [contradiction|reflexivity].
Qed.

Lemma Split_without_sep (s : string) :
  Contains s sep = false -> Split s sep = [s].
Proof.
  induction s as [|c s IH]; simpl; [reflexivity|].
  intros H. apply orb_false_iff in H as [Hc Hs].
  rewrite Hc, (IH Hs). reflexivity.
Qed.

End SplitFacts.

Lemma last_snoc (l : list string) (x d : string) : List.last (l ++ [x]) d = x.
Proof.
  induction l as [|y l IH]; [reflexivity|].
  simpl. destruct (l ++ [x]) eqn:E; [now destruct l|exact IH].
Qed.

(** ** The monad and the heap *)

Lemma bind_Ret {A B} (m : M A) (k : A -> M B) (h h' : heap) (a : A) :
  m h = Ret a h' -> bind m k h = k a h'.
Proof. intros H. unfold bind. now rewrite H. Qed.

Lemma load_map_at (h : heap) (m : loc) (fields : gmap string value) :
  h !! m = Some (OMap fields) -> load_map m h = Ret fields h.
Proof. intros H. unfold load_map. now rewrite H. Qed.

Lemma new_at (o : object) (h : heap) : new o h = Ret (length h) (h ++ [o]).
Proof. reflexivity. Qed.

Lemma load_slice_at (h : heap) (a : loc) (elems : list value) :
  h !! a = Some (OSlice elems) -> load_slice a h = Ret elems h.
Proof. intros H. unfold load_slice. now rewrite H. Qed.

Lemma reads_only_ret {A} (a : A) : reads_only (ret a).
Proof. intros h h' a' H. now inversion H. Qed.

Lemma reads_only_panic {A} (why : string) : reads_only (@panic A why).
Proof. intros h h' a H. discriminate H. Qed.

Lemma reads_only_bind {A B} (m : M A) (k : A -> M B) :
  reads_only m -> (forall a, reads_only (k a)) -> reads_only (bind m k).
Proof.
  intros Hm Hk h h' b H. unfold bind in H.
  destruct (m h) as [a h1|] eqn:E; [|discriminate H].
  apply Hm in E as ->. now apply Hk in H.
Qed.

Lemma reads_only_load_map (m : loc) : reads_only (load_map m).
Proof.
  intros h h' a H. unfold load_map in H.
  destruct (h !! m) as [[|]|]; now inversion H.
Qed.

Lemma reads_only_load_slice (a : loc) : reads_only (load_slice a).
Proof.
  intros h h' x H. unfold load_slice in H.
  destruct (h !! a) as [[|]|]; now inversion H.
Qed.

Ltac reads_only_step :=
  match goal with
  | |- reads_only (bind _ _) => apply reads_only_bind; [|intros ?]
  | |- reads_only (ret _) => apply reads_only_ret
  | |- reads_only (panic _) => apply reads_only_panic
  | |- reads_only (load_map _) => apply reads_only_load_map
  | |- reads_only (load_slice _) => apply reads_only_load_slice
  | |- reads_only (match ?x with _ => _ end) => destruct x
  end.

Lemma reads_only_substr (s : string) (lo hi : Z) : reads_only (substr s lo hi).
Proof. unfold substr. repeat reads_only_step. Qed.

Lemma reads_only_index_read (a : loc) (index : Z) :
  reads_only (index_read a index).
Proof. unfold index_read. repeat reads_only_step. Qed.

(** [getNestedValue] only reads. *)
Lemma getNestedValue_from_reads_only (parts : list string) :
  forall current : value, reads_only (getNestedValue_from current parts).
Proof.
  induction parts as [|part rest IH]; intros current; simpl.
  - apply reads_only_ret.
  - unfold ok, fail.
    repeat first [ apply IH
                 | apply reads_only_substr
                 | apply reads_only_index_read
                 | reads_only_step ].
Qed.

Lemma getNestedValue_reads_only (obj : loc) (path : string)
  (h h' : heap) (r : result) :
  getNestedValue obj path h = Ret r h' -> h' = h.
Proof. apply getNestedValue_from_reads_only. Qed.

(** ** GraphQL global IDs *)

Lemma Split_global_id (resourceType id : string) :
  Contains id "/" = false ->
  Split (convertToGraphQLGlobalID resourceType id) "/" =
  ["gid:"; ""; "shopify"] ++ Split resourceType "/" ++ [id].
Proof.
  intros Hid. unfold convertToGraphQLGlobalID.
  change ("gid://shopify/" +:+ resourceType +:+ "/" +:+ id)
    with ("gid://shopify" +:+ String "/" (resourceType +:+ String "/" id)).
  rewrite Split_app, Split_app, (Split_without_sep _ id Hid).
  reflexivity.
Qed.

(** C5.  Decoding an encoded ID gives the ID back whenever the ID holds
    no slash (the claim's non-empty IDs included), for every resource
    type; and a string with fewer than four slash-separated segments is
    returned as it is. *)
Theorem graphql_id_round_trip (resourceType id globalID : string) :
  id <> "" ->
  Contains id "/" = false ->
  (length (Split globalID "/") < 4)%nat ->
  convertFromGraphQLGlobalID (convertToGraphQLGlobalID resourceType id) = id
  /\ convertFromGraphQLGlobalID globalID = globalID.
Proof.
  intros _ Hid Hshort. split.
  - unfold convertFromGraphQLGlobalID.
    rewrite (Split_global_id _ _ Hid).
    pose proof (Split_nonempty "/" resourceType) as Hne.
    destruct (Split resourceType "/") as [|seg segs] eqn:E; [contradiction|].
    replace (length (["gid:"; ""; "shopify"] ++ (seg :: segs) ++ [id]) <? 4)%nat
      with false.
    + rewrite app_assoc. apply last_snoc.
    + symmetry. apply Nat.ltb_ge. simpl. lia.
  - unfold convertFromGraphQLGlobalID.
    apply Nat.ltb_lt in Hshort. now rewrite Hshort.
Qed.

Lemma graphql_id_round_trip_witness :
  convertFromGraphQLGlobalID (convertToGraphQLGlobalID "Product" "42") = "42"
  /\ convertFromGraphQLGlobalID "gid://42" = "gid://42".
Proof.
  apply (graphql_id_round_trip "Product" "42" "gid://42");
    [discriminate | reflexivity | simpl; lia].
Defined.

(** ** The nested path accessor *)

(** C1.  The round trip fails when the last but one part of the path is
    an array access: on the empty tree, [set] at [variants[0].sku]
    leaves [variants[0]] nil and writes [sku] into the root, and [get]
    at the same path then fails. *)
Theorem set_then_get_below_indexed_parent :
  exists h,
    (let! _ := setNestedValue root "variants[0].sku" (VString "X") in
     getNestedValue root "variants[0].sku") empty_root
    = Ret (VNil, Some (Errorf "cannot access sku: parent is not an object")) h
    /\ reify 2 h (VMap root)
       = Some (JObject [("sku", JString "X"); ("variants", JArray [JNull])]).
Proof. eexists. split; vm_compute; reflexivity. Qed.

(** C10.  A negative index is not rejected by [setNestedValue]: at
    [items[-1]] it makes an empty slice and the store at index -1
    panics, where [getNestedValue] reports the index as out of bounds. *)
Theorem set_at_negative_index_panics :
  setNestedValue root "items[-1]" (VString "X") empty_root
  = Panic "index out of range"
  /\ getNestedValue root "items[-1]"
       [OMap {[ "items" := VSlice 1%nat ]}; OSlice []]
     = Ret (VNil, Some (Errorf "array index out of bounds: -1"))
           [OMap {[ "items" := VSlice 1%nat ]}; OSlice []].
Proof. split; vm_compute; reflexivity. Qed.

Lemma map_assign_at (h : heap) (m : loc) (fields : gmap string value)
  (key : string) (v : value) :
  h !! m = Some (OMap fields) ->
  map_assign m key v h = Ret tt (<[m := OMap (<[key := v]> fields)]> h).
Proof.
  intros Hm. unfold map_assign.
  now rewrite (bind_Ret _ _ _ _ _ (load_map_at _ _ _ Hm)).
Qed.

(** The loop of [setNestedValue] over plain parts, from a map that
    lacks the first of them: it ends in a map [final] that is the
    starting one or a fresh one, leaves every other object that existed
    as it was, and [getNestedValue] walks the same parts to [final]
    whatever [final] holds afterwards. *)
Lemma setNestedValue_loop_plain (inter : list string) :
  forall (n i : Z) (current : loc) (h : heap) (fields : gmap string value),
    Forall (fun part => is_array_access part = false) inter ->
    h !! current = Some (OMap fields) ->
    (forall part, head inter = Some part -> fields !! part = None) ->
    exists (final : loc) (h1 : heap) (reached : gmap string value),
      setNestedValue_loop n i current inter h = Ret (inl final) h1
      /\ h1 !! final = Some (OMap reached)
      /\ (final = current \/ (length h <= final)%nat)
      /\ (forall l, (l < length h)%nat -> l <> current -> h1 !! l = h !! l)
      /\ (forall (c : object) (tail : list string),
            getNestedValue_from (VMap current) (inter ++ tail)
              (<[final := c]> h1)
            = getNestedValue_from (VMap final) tail (<[final := c]> h1)).
Proof.
  induction inter as [|part rest IH];
    intros n i current h fields Hplain Hcurrent Hfresh.
  - exists current, h, fields. repeat split; auto.
  - apply Forall_cons in Hplain as [Hpart Hrest].
    pose proof (lookup_lt_Some _ _ _ Hcurrent) as Hlt.
    set (m := length h).
    set (ha := h ++ [OMap ∅]).
    set (hb := <[current := OMap (<[part := VMap m]> fields)]> ha).
    assert (Hha : ha !! current = Some (OMap fields))
      by (apply lookup_app_l_Some; exact Hcurrent).
    assert (Hhb : hb !! current = Some (OMap (<[part := VMap m]> fields))).
    { apply list_lookup_insert_eq. unfold ha. rewrite length_app. simpl. lia. }
    assert (Hm : hb !! m = Some (OMap ∅)).
    { unfold hb. rewrite list_lookup_insert_ne by (unfold m; lia).
      unfold ha, m. now rewrite list_lookup_middle. }
    destruct (IH n (i + 1) m hb ∅ Hrest Hm)
      as (final & h1 & reached & Hloop & Hfinal & Hwhere & Hframe & Hwalk);
      [intros p _; apply lookup_empty|].
    assert (Hlen : length hb = S (length h)).
    { unfold hb, ha. rewrite length_insert, length_app. simpl. lia. }
    assert (Hne : final <> current).
    { destruct Hwhere as [->|Hge]; [unfold m|rewrite Hlen in Hge]; lia. }
    assert (Hkept : h1 !! current = Some (OMap (<[part := VMap m]> fields))).
    { rewrite Hframe; [exact Hhb|rewrite Hlen; lia|unfold m; lia]. }
    exists final, h1, reached. repeat split.
    + cbn [setNestedValue_loop]. rewrite Hpart.
      rewrite (bind_Ret _ _ _ _ _ (load_map_at _ _ _ Hcurrent)).
      rewrite (Hfresh part eq_refl).
      rewrite (bind_Ret _ _ h hb tt).
      * rewrite (bind_Ret _ _ _ _ _ (load_map_at _ _ _ Hhb)).
        rewrite lookup_insert_eq. exact Hloop.
      * unfold make_map. rewrite (bind_Ret _ _ _ _ _ (new_at _ _)).
        apply (map_assign_at ha current fields part (VMap m) Hha).
    + exact Hfinal.
    + right. destruct Hwhere as [->|Hge]; [unfold m|rewrite Hlen in Hge]; lia.
    + intros l Hl Hlc. rewrite Hframe; [|rewrite Hlen; lia|unfold m; lia].
      unfold hb. rewrite list_lookup_insert_ne by lia.
      unfold ha. now rewrite lookup_app_l by exact Hl.
    + intros c tail. cbn [app getNestedValue_from]. rewrite Hpart.
      assert (Hstill : <[final := c]> h1 !! current
                       = Some (OMap (<[part := VMap m]> fields)))
        by (rewrite list_lookup_insert_ne by exact Hne; exact Hkept).
      rewrite (bind_Ret _ _ _ _ _ (load_map_at _ _ _ Hstill)).
      rewrite lookup_insert_eq. apply Hwalk.
Qed.

(** X1.  On every tree, a path of plain parts whose first part is not
    yet a key of the tree can be set, and is then read back as the
    value set. *)
Theorem plain_path_round_trip (h : heap) (obj : loc)
  (fields : gmap string value) (path : string) (v : value) :
  h !! obj = Some (OMap fields) ->
  Forall (fun part => is_array_access part = false) (Split path ".") ->
  fields !! List.hd EmptyString (Split path ".") = None ->
  exists h' : heap,
    setNestedValue obj path v h = Ret None h'
    /\ getNestedValue obj path h' = Ret (v, None) h'.
Proof.
  intros Hobj Hplain Hfresh.
  unfold setNestedValue, getNestedValue.
  pose proof (Split_nonempty "." path) as Hne.
  set (parts := Split path ".") in *.
  destruct (@exists_last _ parts Hne) as (inter & lastPart & Hparts).
  rewrite Hparts in *.
  rewrite List.removelast_last, List.last_last.
  apply Forall_app in Hplain as [Hinter Hlast].
  apply Forall_cons in Hlast as [Hlast _].
  destruct (setNestedValue_loop_plain inter
              (Z.of_nat (length (inter ++ [lastPart]))) 0 obj h fields
              Hinter Hobj)
    as (final & h1 & reached & Hloop & Hfinal & _ & _ & Hwalk).
  { intros part Hhead. destruct inter as [|p inter]; [discriminate Hhead|].
    simpl in Hhead, Hfresh. congruence. }
  exists (<[final := OMap (<[lastPart := v]> reached)]> h1). split.
  - rewrite (bind_Ret _ _ _ _ _ Hloop). rewrite Hlast.
    now rewrite (bind_Ret _ _ _ _ _ (map_assign_at _ _ _ _ _ Hfinal)).
  - rewrite Hwalk. cbn [getNestedValue_from]. rewrite Hlast.
    assert (Hnow : <[final := OMap (<[lastPart := v]> reached)]> h1 !! final
                   = Some (OMap (<[lastPart := v]> reached))).
    { apply list_lookup_insert_eq. exact (lookup_lt_Some _ _ _ Hfinal). }
    rewrite (bind_Ret _ _ _ _ _ (load_map_at _ _ _ Hnow)).
    now rewrite lookup_insert_eq.
Qed.

Lemma plain_path_round_trip_witness :
  exists h' : heap,
    setNestedValue root "seo.title" (VString "Foo") empty_root = Ret None h'
    /\ getNestedValue root "seo.title" h' = Ret (VString "Foo", None) h'.
Proof.
  apply (plain_path_round_trip empty_root root ∅ "seo.title" (VString "Foo"));
    [reflexivity| |reflexivity].
  repeat constructor.
Defined.

(** ** The dispatcher *)

(** C3.  [applyTransformation] has no case for the transformation type
    [conditional]: whatever the value and the config, it returns the
    error of an unsupported type and evaluates no condition; a run with
    such a rule on a field that is present ends with that error. *)
Theorem conditional_is_unsupported (lib : Library) (v : value)
  (dataflow : N) (source dest default config : string) (required : bool)
  (h : heap) :
  applyTransformation lib v
    {| DataflowID := dataflow;
       SourceField := source;
       DestField := dest;
       IsRequired := required;
       DefaultValue := default;
       TransformType := TransformationTypeConditional;
       TransformConfig := config |} h
  = Ret (VNil, Some (Errorf "unsupported transformation type: conditional")) h
  /\ TransformData (shirt_library [conditional_rule]) 1 "" [] =
     Ret (Some {| Data := None;
                  Error :=
                    Some (Wrapf "error transforming field name"
                            (Errorf ("unsupported transformation type: "
                                     +:+ TransformationTypeConditional))) |},
          None)
         [OMap {[ "name" := VString "Shirt" ]}; OMap ∅].
Proof.
  split; [reflexivity|].
  vm_compute. reflexivity.
Qed.

(** ** The mapping pipeline *)

(** The loop over a concatenation runs the second list from where the
    first one ended, unless the first one returned early or panicked. *)
Lemma TransformData_loop_app (lib : Library) (sourceObj destObj : loc)
  (before after : list FieldMapping) :
  forall h : heap,
    TransformData_loop lib sourceObj destObj (before ++ after) h =
    match TransformData_loop lib sourceObj destObj before h with
    | Ret None h1 => TransformData_loop lib sourceObj destObj after h1
    | stopped => stopped
    end.
Proof.
  induction before as [|mapping before IH]; intros h; [reflexivity|].
  simpl. unfold bind.
  destruct (getNestedValue sourceObj (SourceField mapping) h)
    as [[sourceValue [err|]] h1|]; [| |reflexivity].
  - destruct (IsRequired mapping); [reflexivity|].
    destruct (negb (String.eqb (DefaultValue mapping) "")); [|apply IH].
    destruct (applyTransformation lib _ mapping h1)
      as [[transformed [err'|]] h2|]; [reflexivity| |reflexivity].
    destruct (setNestedValue destObj (DestField mapping) transformed h2)
      as [[err''|] h3|]; [reflexivity|apply IH|reflexivity].
  - destruct (applyTransformation lib _ mapping h1)
      as [[transformed [err'|]] h2|]; [reflexivity| |reflexivity].
    destruct (setNestedValue destObj (DestField mapping) transformed h2)
      as [[err''|] h3|]; [reflexivity|apply IH|reflexivity].
Qed.

(** C2.  When the rules before a required rule ran to the end and the
    source field of the required rule does not resolve, [TransformData]
    returns the one error naming that field, whatever rules follow; the
    heap it returns with is the one the earlier rules left, so nothing
    was written after the failure point. *)
Theorem required_field_fails_fast (lib : Library) (dataflowID : N)
  (sourceData : string) (before after : list FieldMapping)
  (mapping : FieldMapping) (members : list (string * json))
  (sourceObj destObj : loc) (h hs hd h1 h1' : heap) (v : value) (e : error) :
  ListFieldMappings lib dataflowID = inl (before ++ mapping :: after) ->
  Unmarshal_object lib sourceData = inl members ->
  unmarshal_object members h = Ret sourceObj hs ->
  make_map hs = Ret destObj hd ->
  TransformData_loop lib sourceObj destObj before hd = Ret None h1 ->
  IsRequired mapping = true ->
  getNestedValue sourceObj (SourceField mapping) h1 = Ret (v, Some e) h1' ->
  TransformData lib dataflowID sourceData h =
  Ret (Some {| Data := None;
               Error := Some (required_field_missing (SourceField mapping)) |},
       None) h1.
Proof.
  intros Hlist Hdoc Hsrc Hdst Hbefore Hreq Hget.
  pose proof (getNestedValue_reads_only _ _ _ _ _ Hget) as ->.
  unfold TransformData. rewrite Hlist, Hdoc. unfold bind.
  rewrite Hsrc, Hdst, TransformData_loop_app, Hbefore.
  simpl. unfold bind. rewrite Hget, Hreq. reflexivity.
Qed.

Lemma required_field_fails_fast_witness :
  exists h1,
    TransformData (shirt_library rules_missing_price) 1 "" [] =
    Ret (Some {| Data := None;
                 Error := Some (required_field_missing "price") |}, None) h1
    /\ reify 2 h1 (VMap 1%nat) = Some (JObject [("title", JString "Shirt")]).
Proof.
  eexists. split.
  - eapply (required_field_fails_fast (shirt_library rules_missing_price)
              1 "" [mapping_of TransformationTypeNone "name" "title" false]
              [mapping_of TransformationTypeNone "name" "handle" false]
              (mapping_of TransformationTypeNone "price"
                 "variants[0].price" true));
      try (vm_compute; reflexivity).
  - vm_compute; reflexivity.
Defined.

(** C7, as stated, fails: when the second rule cannot convert the name,
    the result carries the error and a nil [Data], although the
    destination map (at location 1) already holds the title the first
    rule wrote. *)
Lemma failed_run_returns_no_tree :
  exists h,
    TransformData (shirt_library rules_bad_stock) 1 "" [] =
    Ret (Some {| Data := None;
                 Error := Some (Wrapf "error transforming field name"
                                  (Wrapf "error converting to int"
                                     (NumError "Atoi" "Shirt"))) |},
         None) h
    /\ reify 2 h (VMap 1%nat) = Some (JObject [("title", JString "Shirt")]).
Proof. eexists. split; vm_compute; reflexivity. Qed.

(** C7, amended.  [TransformData] returns the destination tree only when
    every rule went through, and then without an error; when a rule
    fails it returns the error with a nil [Data], and the tree built so
    far stays behind in the heap. *)
Theorem TransformData_tree_or_error (lib : Library) (dataflowID : N)
  (sourceData : string) (fieldMappings : list FieldMapping)
  (members : list (string * json)) (sourceObj destObj : loc)
  (h hs hd : heap) :
  ListFieldMappings lib dataflowID = inl fieldMappings ->
  Unmarshal_object lib sourceData = inl members ->
  unmarshal_object members h = Ret sourceObj hs ->
  make_map hs = Ret destObj hd ->
  (forall h',
      TransformData_loop lib sourceObj destObj fieldMappings hd = Ret None h' ->
      TransformData lib dataflowID sourceData h =
      Ret (Some {| Data := Some destObj; Error := None |}, None) h')
  /\ (forall err h',
        TransformData_loop lib sourceObj destObj fieldMappings hd
        = Ret (Some err) h' ->
        TransformData lib dataflowID sourceData h =
        Ret (Some {| Data := None; Error := Some err |}, None) h').
Proof.
  intros Hlist Hdoc Hsrc Hdst.
  split; [intros h' Hloop|intros err h' Hloop];
    unfold TransformData; rewrite Hlist, Hdoc; unfold bind;
    now rewrite Hsrc, Hdst, Hloop.
Qed.

Lemma TransformData_tree_or_error_witness :
  exists h,
    TransformData (shirt_library rules_missing_price) 1 "" [] =
    Ret (Some {| Data := None;
                 Error := Some (required_field_missing "price") |}, None) h.
Proof.
  eexists.
  eapply (proj2 (TransformData_tree_or_error
                   (shirt_library rules_missing_price) 1 ""
                   rules_missing_price shirt 0%nat 1%nat [] _ _
                   eq_refl eq_refl eq_refl eq_refl)).
  vm_compute; reflexivity.
Defined.

(** A rule that fails after the rules before it ran to the end ends the
    run with its error and a nil [Data], whatever rules follow. *)
Lemma TransformData_abort (lib : Library) (dataflowID : N)
  (sourceData : string) (before after : list FieldMapping)
  (mapping : FieldMapping) (members : list (string * json))
  (sourceObj destObj : loc) (h hs hd h1 h2 : heap) (err : error) :
  ListFieldMappings lib dataflowID = inl (before ++ mapping :: after) ->
  Unmarshal_object lib sourceData = inl members ->
  unmarshal_object members h = Ret sourceObj hs ->
  make_map hs = Ret destObj hd ->
  TransformData_loop lib sourceObj destObj before hd = Ret None h1 ->
  TransformData_loop lib sourceObj destObj [mapping] h1 = Ret (Some err) h2 ->
  TransformData lib dataflowID sourceData h =
  Ret (Some {| Data := None; Error := Some err |}, None) h2.
Proof.
  intros Hlist Hdoc Hsrc Hdst Hbefore Hrule.
  unfold TransformData. rewrite Hlist, Hdoc.
  rewrite (bind_Ret _ _ _ _ _ Hsrc), (bind_Ret _ _ _ _ _ Hdst).
  rewrite (bind_Ret _ _ hd h2 (Some err)); [reflexivity|].
  change (before ++ mapping :: after) with (before ++ [mapping] ++ after).
  rewrite app_assoc, TransformData_loop_app, TransformData_loop_app.
  now rewrite Hbefore, Hrule.
Qed.

(** X2.  An error of the dispatcher ends the run at once: the result
    carries that error, wrapped with the source field of the rule, and
    the rules after it are not run. *)
Theorem transformation_error_fails_fast (lib : Library) (dataflowID : N)
  (sourceData : string) (before after : list FieldMapping)
  (mapping : FieldMapping) (members : list (string * json))
  (sourceObj destObj : loc) (h hs hd h1 h2 : heap)
  (sourceValue partial : value) (err : error) :
  ListFieldMappings lib dataflowID = inl (before ++ mapping :: after) ->
  Unmarshal_object lib sourceData = inl members ->
  unmarshal_object members h = Ret sourceObj hs ->
  make_map hs = Ret destObj hd ->
  TransformData_loop lib sourceObj destObj before hd = Ret None h1 ->
  getNestedValue sourceObj (SourceField mapping) h1
  = Ret (sourceValue, None) h1 ->
  applyTransformation lib sourceValue mapping h1 = Ret (partial, Some err) h2 ->
  TransformData lib dataflowID sourceData h =
  Ret (Some {| Data := None;
               Error := Some (Wrapf ("error transforming field "
                                     +:+ SourceField mapping) err) |},
       None) h2.
Proof.
  intros Hlist Hdoc Hsrc Hdst Hbefore Hget Happly.
  apply (TransformData_abort lib dataflowID sourceData before after mapping
           members sourceObj destObj h hs hd h1 h2 _
           Hlist Hdoc Hsrc Hdst Hbefore).
  cbn [TransformData_loop].
  rewrite (bind_Ret _ _ _ _ _ Hget), (bind_Ret _ _ _ _ _ Happly).
  reflexivity.
Qed.

Lemma transformation_error_fails_fast_witness :
  exists h,
    TransformData (shirt_library rules_bad_stock) 1 "" [] =
    Ret (Some {| Data := None;
                 Error := Some (Wrapf "error transforming field name"
                                  (Wrapf "error converting to int"
                                     (NumError "Atoi" "Shirt"))) |},
         None) h.
Proof.
  eexists.
  eapply (transformation_error_fails_fast (shirt_library rules_bad_stock)
            1 "" [mapping_of TransformationTypeNone "name" "title" false]
            [mapping_of TransformationTypeNone "name" "handle" false]
            (mapping_of TransformationTypeConvert "name" "stock" false));
    try (vm_compute; reflexivity).
Defined.

(** X3.  An error of [setNestedValue] ends the run at once, wrapped
    with the destination field of the rule. *)
Theorem set_error_fails_fast (lib : Library) (dataflowID : N)
  (sourceData : string) (before after : list FieldMapping)
  (mapping : FieldMapping) (members : list (string * json))
  (sourceObj destObj : loc) (h hs hd h1 h2 h3 : heap)
  (sourceValue transformed : value) (err : error) :
  ListFieldMappings lib dataflowID = inl (before ++ mapping :: after) ->
  Unmarshal_object lib sourceData = inl members ->
  unmarshal_object members h = Ret sourceObj hs ->
  make_map hs = Ret destObj hd ->
  TransformData_loop lib sourceObj destObj before hd = Ret None h1 ->
  getNestedValue sourceObj (SourceField mapping) h1
  = Ret (sourceValue, None) h1 ->
  applyTransformation lib sourceValue mapping h1
  = Ret (transformed, None) h2 ->
  setNestedValue destObj (DestField mapping) transformed h2
  = Ret (Some err) h3 ->
  TransformData lib dataflowID sourceData h =
  Ret (Some {| Data := None;
               Error := Some (Wrapf ("error setting field "
                                     +:+ DestField mapping) err) |},
       None) h3.
Proof.
  intros Hlist Hdoc Hsrc Hdst Hbefore Hget Happly Hset.
  apply (TransformData_abort lib dataflowID sourceData before after mapping
           members sourceObj destObj h hs hd h1 h3 _
           Hlist Hdoc Hsrc Hdst Hbefore).
  cbn [TransformData_loop].
  rewrite (bind_Ret _ _ _ _ _ Hget), (bind_Ret _ _ _ _ _ Happly).
  now rewrite (bind_Ret _ _ _ _ _ Hset).
Qed.

Lemma set_error_fails_fast_witness :
  exists h,
    TransformData (shirt_library rules_shape_conflict) 1 "" [] =
    Ret (Some {| Data := None;
                 Error := Some (Wrapf "error setting field title.short"
                                  (Errorf "field title is not an object")) |},
         None) h.
Proof.
  eexists.
  eapply (set_error_fails_fast (shirt_library rules_shape_conflict)
            1 "" [mapping_of TransformationTypeNone "name" "title" false]
            [mapping_of TransformationTypeNone "name" "handle" false]
            (mapping_of TransformationTypeNone "name" "title.short" false));
    try (vm_compute; reflexivity).
Defined.

(** X4.  A rule whose source field does not resolve, that is not
    required and has no default value, is skipped: the run goes on with
    the next rule from the same heap.  With a default value, the rule
    runs on that string in place of the source value. *)
Theorem absent_optional_field (lib : Library) (sourceObj destObj : loc)
  (mapping : FieldMapping) (rest : list FieldMapping) (h : heap)
  (v : value) (e : error) :
  getNestedValue sourceObj (SourceField mapping) h = Ret (v, Some e) h ->
  IsRequired mapping = false ->
  (DefaultValue mapping = "" ->
   TransformData_loop lib sourceObj destObj (mapping :: rest) h
   = TransformData_loop lib sourceObj destObj rest h)
  /\ (forall (transformed : value) (h2 h3 : heap),
        DefaultValue mapping <> "" ->
        applyTransformation lib (VString (DefaultValue mapping)) mapping h
        = Ret (transformed, None) h2 ->
        setNestedValue destObj (DestField mapping) transformed h2
        = Ret None h3 ->
        TransformData_loop lib sourceObj destObj (mapping :: rest) h
        = TransformData_loop lib sourceObj destObj rest h3).
Proof.
  intros Hget Hoptional. split.
  - intros Hdefault. cbn [TransformData_loop].
    rewrite (bind_Ret _ _ _ _ _ Hget), Hoptional, Hdefault. reflexivity.
  - intros transformed h2 h3 Hdefault Happly Hset. cbn [TransformData_loop].
    apply String.eqb_neq in Hdefault.
    rewrite (bind_Ret _ _ _ _ _ Hget), Hoptional, Hdefault.
    cbn [negb]. cbv beta iota zeta.
    rewrite (bind_Ret _ _ _ _ _ Happly).
    now rewrite (bind_Ret _ _ _ _ _ Hset).
Qed.

Lemma absent_optional_field_witness :
  TransformData_loop (shirt_library []) 0%nat 1%nat
    [mapping_of TransformationTypeNone "price" "price" false]
    [OMap {[ "name" := VString "Shirt" ]}; OMap ∅]
  = Ret None [OMap {[ "name" := VString "Shirt" ]}; OMap ∅].
Proof.
  refine (proj1 (absent_optional_field (shirt_library []) 0%nat 1%nat
                   (mapping_of TransformationTypeNone "price" "price" false)
                   [] [OMap {[ "name" := VString "Shirt" ]}; OMap ∅]
                   VNil (Errorf "field price not found") _ eq_refl) eq_refl).
  vm_compute. reflexivity.
Defined.

(** X5.  A [map] rule looks the string form of the value up in its
    table, then the key [_default]; when the table has neither, it
    returns an error and does not pass the value through. *)
Theorem map_rule_lookup (lib : Library) (v : value) (mapping : FieldMapping)
  (members : list (string * json)) (strValue : string) (h : heap) :
  TransformType mapping = TransformationTypeMap ->
  Unmarshal_object lib (TransformConfig mapping) = inl members ->
  Sprintf_v lib v h = Ret strValue h ->
  (forall mappedValue,
      members_map members !! strValue = Some mappedValue ->
      applyTransformation lib v mapping h
      = Ret (fst (alloc_json mappedValue h), None)
          (snd (alloc_json mappedValue h)))
  /\ (forall defaultValue,
        members_map members !! strValue = None ->
        members_map members !! "_default" = Some defaultValue ->
        applyTransformation lib v mapping h
        = Ret (fst (alloc_json defaultValue h), None)
            (snd (alloc_json defaultValue h)))
  /\ (members_map members !! strValue = None ->
      members_map members !! "_default" = None ->
      applyTransformation lib v mapping h
      = Ret (VNil, Some (Errorf ("no mapping found for value: "
                                 +:+ strValue))) h).
Proof.
  intros Htype Hconfig Hprint.
  assert (Hrun :
             applyTransformation lib v mapping h
             = (let table := members_map members in
                match table !! strValue with
                | Some mappedValue =>
                    let! mapped := unmarshal_value mappedValue in ok mapped
                | None =>
                    match table !! "_default" with
                    | Some defaultValue =>
                        let! mapped := unmarshal_value defaultValue in
                        ok mapped
                    | None => fail (Errorf ("no mapping found for value: "
                                            +:+ strValue))
                    end
                end) h).
  { unfold applyTransformation. rewrite Htype. simpl.
    rewrite Hconfig. now rewrite (bind_Ret _ _ _ _ _ Hprint). }
  rewrite Hrun. cbv zeta.
  repeat split.
  - intros mappedValue ->. unfold bind, unmarshal_value.
    now destruct (alloc_json mappedValue h).
  - intros defaultValue -> ->. unfold bind, unmarshal_value.
    now destruct (alloc_json defaultValue h).
  - now intros -> ->.
Qed.

Lemma map_rule_lookup_witness :
  applyTransformation status_library (VString "maybe") status_rule []
  = Ret (VString "DRAFT", None) [].
Proof.
  refine (proj1 (proj2 (map_rule_lookup status_library (VString "maybe")
                          status_rule status_table "maybe" []
                          eq_refl eq_refl eq_refl)) (JString "DRAFT") _ _);
    vm_compute; reflexivity.
Defined.

(** ** Decoded documents have a string form *)

Section JsonInduction.

Variable P : json -> Prop.
Hypothesis Hnull : P JNull.
Hypothesis Hbool : forall b, P (JBool b).
Hypothesis Hnumber : forall f, P (JNumber f).
Hypothesis Hint : forall n, P (JInt n).
Hypothesis Hstring : forall s, P (JString s).
Hypothesis Harray : forall items, Forall P items -> P (JArray items).
Hypothesis Hobject :
  forall members, Forall (fun kv => P (snd kv)) members -> P (JObject members).

(** Induction over documents, with the property available for the
    elements of an array and the members of an object. *)
Fixpoint json_nested_ind (j : json) : P j :=
  match j with
  | JNull => Hnull
  | JBool b => Hbool b
  | JNumber f => Hnumber f
  | JInt n => Hint n
  | JString s => Hstring s
  | JArray items =>
      Harray items
        ((fix all (l : list json) : Forall P l :=
            match l with
            | [] => List.Forall_nil P
            | x :: r =>
                @List.Forall_cons _ P x r (json_nested_ind x) (all r)
            end) items)
  | JObject members =>
      Hobject members
        ((fix all (l : list (string * json))
            : Forall (fun kv => P (snd kv)) l :=
            match l with
            | [] => List.Forall_nil _
            | kv :: r =>
                @List.Forall_cons _ (fun kv => P (snd kv)) kv r
                  (json_nested_ind (snd kv)) (all r)
            end) members)
  end.

End JsonInduction.

Section Printing.

Variable fmt_float : float -> string.

Local Notation "'prints' n h vb top v" :=
  (is_Some (fmt_value fmt_float n h vb top v))
  (at level 10, n, h, vb, top, v at level 9).

Lemma prints_slice (n : nat) (h : heap) (vb : verb) (top : bool) (a : loc)
  (elems : list value) :
  h !! a = Some (OSlice elems) ->
  prints (S n) h vb top (VSlice a) <->
  Forall (fun v => prints n h vb false v) elems.
Proof.
  intros Ha. simpl. rewrite Ha.
  rewrite <- (mapM_is_Some (fmt_value fmt_float n h vb false)).
  destruct (mapM _ elems); simpl; split; intros [x Hx]; eauto; discriminate.
Qed.

Lemma prints_map (n : nat) (h : heap) (vb : verb) (top : bool) (m : loc)
  (fields : gmap string value) :
  h !! m = Some (OMap fields) ->
  prints (S n) h vb top (VMap m) <->
  Forall (fun kv => prints n h vb false (snd kv)) (sorted_fields fields).
Proof.
  intros Hm. simpl. rewrite Hm.
  set (field := fun kv : string * value =>
                  s ← fmt_value fmt_float n h vb false (snd kv);
                  Some (fst kv +:+ ":" +:+ s)).
  assert (Heach : forall kv,
             is_Some (field kv) <-> prints n h vb false (snd kv)).
  { intros kv. unfold field.
    destruct (fmt_value fmt_float n h vb false (snd kv)); simpl;
      split; intros [x Hx]; eauto; discriminate. }
  rewrite <- (Forall_iff _ (sorted_fields fields) _ Heach).
  rewrite <- (mapM_is_Some field).
  destruct (mapM field _); simpl; split; intros [x Hx]; eauto; discriminate.
Qed.

(** More fuel and a longer heap keep a string form. *)
Lemma prints_mono (n : nat) :
  forall (n' : nat) (h ext : heap) (vb : verb) (top : bool) (v : value),
    (n <= n')%nat ->
    prints n h vb top v -> prints n' (h ++ ext) vb top v.
Proof.
  induction n as [|n IH]; intros n' h ext vb top v Hle Hv.
  - destruct v; try (destruct n'; exact Hv);
      simpl in Hv; destruct Hv as [x Hx]; discriminate.
  - destruct n' as [|n']; [lia|].
    destruct v; try exact Hv.
    + simpl in Hv. destruct (h !! a) as [[elems|fields]|] eqn:Ha;
        try (destruct Hv as [x Hx]; discriminate).
      pose proof (proj1 (prints_slice n h vb top a elems Ha)) as Hfrom.
      apply (prints_slice n' (h ++ ext) vb top a elems
               (lookup_app_l_Some _ _ _ _ Ha)).
      eapply Forall_impl; [apply Hfrom; simpl; now rewrite Ha|].
      intros elem Helem. apply IH; [lia|exact Helem].
    + simpl in Hv. destruct (h !! m) as [[elems|fields]|] eqn:Hm;
        try (destruct Hv as [x Hx]; discriminate).
      pose proof (proj1 (prints_map n h vb top m fields Hm)) as Hfrom.
      apply (prints_map n' (h ++ ext) vb top m fields
               (lookup_app_l_Some _ _ _ _ Hm)).
      eapply Forall_impl; [apply Hfrom; simpl; now rewrite Hm|].
      intros kv Hkv. apply IH; [lia|exact Hkv].
Qed.

Lemma elem_of_insert_sorted (kv x : string * value)
  (l : list (string * value)) :
  x ∈ insert_sorted kv l -> x = kv \/ x ∈ l.
Proof.
  induction l as [|kv' l IH]; simpl.
  - intros Hx. apply list_elem_of_singleton in Hx. now left.
  - destruct (String.leb (fst kv) (fst kv')).
    + intros Hx. apply elem_of_cons in Hx as [->|Hx]; [now left|now right].
    + intros Hx. apply elem_of_cons in Hx as [->|Hx].
      * right. apply elem_of_cons. now left.
      * destruct (IH Hx) as [->|Hl]; [now left|].
        right. apply elem_of_cons. now right.
Qed.

Lemma sorted_fields_lookup (fields : gmap string value) (kv : string * value) :
  kv ∈ sorted_fields fields -> fields !! fst kv = Some (snd kv).
Proof.
  intros Hkv. apply elem_of_map_to_list'. revert Hkv. unfold sorted_fields.
  induction (map_to_list fields) as [|kv' l IH]; simpl; [easy|].
  intros Hkv. apply elem_of_insert_sorted in Hkv as [->|Hl].
  - apply elem_of_cons. now left.
  - apply elem_of_cons. right. now apply IH.
Qed.

Lemma alloc_items_prints (items : list json) :
  Forall (decodes_printable fmt_float) items ->
  forall h : heap,
  exists ext : heap,
    snd (alloc_items alloc_json items h) = h ++ ext
    /\ forall vb,
         Forall (fun v => prints (S (length ext)) (h ++ ext) vb false v)
           (fst (alloc_items alloc_json items h)).
Proof.
  induction 1 as [|x r Hx _ IH]; intros h.
  - exists []. simpl. rewrite app_nil_r. split; [reflexivity|constructor].
  - cbn [alloc_items]. destruct (Hx h) as (e1 & He1 & Hv).
    destruct (alloc_json x h) as [v h1]. cbn [fst snd] in He1, Hv. subst h1.
    destruct (IH (h ++ e1)) as (e2 & He2 & Hvs).
    destruct (alloc_items alloc_json r (h ++ e1)) as [vs h2].
    cbn [fst snd] in He2, Hvs. subst h2. cbn [fst snd].
    exists (e1 ++ e2). split; [now rewrite app_assoc|].
    intros vb. rewrite app_assoc. constructor.
    + apply (prints_mono (S (length e1))); [rewrite length_app; lia|apply Hv].
    + eapply Forall_impl; [apply Hvs|]. intros v' Hv'. cbn beta in Hv'.
      rewrite <- (app_nil_r ((h ++ e1) ++ e2)).
      apply (prints_mono (S (length e2))); [rewrite length_app; lia|exact Hv'].
Qed.

Lemma alloc_fields_prints (members : list (string * json)) :
  Forall (fun kv => decodes_printable fmt_float (snd kv)) members ->
  forall (h e0 : heap) (acc : gmap string value),
    map_Forall (fun _ v => forall vb,
                    prints (S (length e0)) (h ++ e0) vb false v) acc ->
    exists ext : heap,
      snd (alloc_fields alloc_json members acc (h ++ e0)) = h ++ ext
      /\ map_Forall (fun _ v => forall vb,
                         prints (S (length ext)) (h ++ ext) vb false v)
           (fst (alloc_fields alloc_json members acc (h ++ e0))).
Proof.
  induction 1 as [|[k x] r Hx _ IH]; intros h e0 acc Hacc.
  - exists e0. now split.
  - cbn [alloc_fields]. cbn [snd] in Hx.
    destruct (Hx (h ++ e0)) as (e1 & He1 & Hv).
    destruct (alloc_json x (h ++ e0)) as [v h1].
    cbn [fst snd] in He1, Hv. subst h1.
    rewrite <- app_assoc. apply IH.
    apply map_Forall_insert_2.
    + intros vb. rewrite app_assoc, <- (app_nil_r ((h ++ e0) ++ e1)).
      apply (prints_mono (S (length e1))); [rewrite length_app; lia|apply Hv].
    + eapply map_Forall_impl; [exact Hacc|].
      intros key v' Hv' vb. cbn beta in Hv'. rewrite app_assoc.
      apply (prints_mono (S (length e0))); [rewrite length_app; lia|apply Hv'].
Qed.

Lemma alloc_json_prints (j : json) : decodes_printable fmt_float j.
Proof.
  induction j as [| | | | |items IH|members IH] using json_nested_ind;
    intros h;
    try (exists []; cbn [alloc_json fst snd]; rewrite app_nil_r;
         split; [reflexivity|]; intros vb top; simpl; eauto).
  - destruct (alloc_items_prints items IH h) as (ext & Hext & Hvs).
    cbn [alloc_json]. destruct (alloc_items alloc_json items h) as [vs h1].
    cbn [fst snd] in Hext, Hvs. subst h1. cbn [fst snd].
    exists (ext ++ [OSlice vs]). split; [now rewrite app_assoc|].
    intros vb top. rewrite length_app, app_assoc. cbn [length].
    replace (length ext + 1)%nat with (S (length ext)) by lia.
    apply (prints_slice _ _ vb top _ vs);
      [apply list_lookup_middle; reflexivity|].
    eapply Forall_impl; [apply Hvs|]. intros v Hv. cbn beta in Hv.
    apply (prints_mono (S (length ext))); [lia|exact Hv].
  - destruct (alloc_fields_prints members IH h [] ∅) as (ext & Hext & Hvs);
      [apply map_Forall_empty|].
    rewrite app_nil_r in Hext, Hvs.
    cbn [alloc_json].
    destruct (alloc_fields alloc_json members ∅ h) as [fields h1].
    cbn [fst snd] in Hext, Hvs. subst h1. cbn [fst snd].
    exists (ext ++ [OMap fields]). split; [now rewrite app_assoc|].
    intros vb top. rewrite length_app, app_assoc. cbn [length].
    replace (length ext + 1)%nat with (S (length ext)) by lia.
    apply (prints_map _ _ vb top _ fields);
      [apply list_lookup_middle; reflexivity|].
    apply Forall_forall. intros kv Hkv.
    apply sorted_fields_lookup in Hkv.
    apply (prints_mono (S (length ext))); [lia|]. exact (Hvs _ _ Hkv vb).
Qed.

(** Every value decoded from a document has a string form under both
    verbs, in the heap it was decoded into. *)
Lemma decoded_value_prints (j : json) (h : heap) (vb : verb) :
  exists s : string,
    Sprintf fmt_float vb (fst (alloc_json j h)) (snd (alloc_json j h))
    = Ret s (snd (alloc_json j h)).
Proof.
  destruct (alloc_json_prints j h) as (ext & Hext & Hv).
  unfold Sprintf. rewrite Hext.
  assert (Hfuel : prints (S (length (h ++ ext))) (h ++ ext) vb true
                    (fst (alloc_json j h))).
  { rewrite <- (app_nil_r (h ++ ext)) at 2.
    apply (prints_mono (S (length ext))); [rewrite length_app; lia|apply Hv]. }
  destruct Hfuel as [s Hs]. exists s. now rewrite Hs.
Qed.

End Printing.

(** ** Entity lookup *)

(** C6, as stated, fails for an entity type the service does not know:
    the lookup returns the ID together with an error, and the pipeline
    aborts with it.  It also fails for a value whose string form is
    empty, which is an error before any lookup. *)
Lemma unsupported_entity_type_aborts :
  applyTransformation (shirt_library [vendor_rule]) (VString "42")
    vendor_rule []
  = Ret (VString "42", Some (Errorf "unsupported entity type: product")) []
  /\ (exists h,
        TransformData (shirt_library [vendor_rule]) 1 "" [] =
        Ret (Some {| Data := None;
                     Error :=
                       Some (Wrapf "error transforming field name"
                               (Errorf "unsupported entity type: product")) |},
             None) h)
  /\ applyTransformation no_manufacturer_library (VString "") vendor_rule []
     = Ret (VNil, Some (Errorf "empty entity ID")) [].
Proof.
  split; [|split; [eexists|]]; vm_compute; reflexivity.
Qed.

(** C6, amended.  For a value whose string form is a non-empty ID, an
    entity-lookup rule on manufacturers or categories returns that ID
    without an error when the record is not found or lacks the
    property; for any other entity type it returns the ID together with
    the error of an unsupported entity type. *)
Theorem entity_lookup_miss_and_unsupported (lib : Library) (v : value)
  (mapping : FieldMapping) (config : EntityLookupConfig) (strID : string)
  (h : heap) :
  TransformType mapping = TransformationTypeEntityLookup ->
  Unmarshal_entity_lookup lib (TransformConfig mapping) = inl config ->
  Sprintf_v lib v h = Ret strID h ->
  strID <> "" ->
  ((EntityType config = "manufacturer" \/ EntityType config = "category") ->
   (db_First lib (EntityType config) strID = ErrRecordNotFound \/
    exists columns,
      db_First lib (EntityType config) strID = Row columns /\
      columns !! Property config = None) ->
   applyTransformation lib v mapping h = Ret (VString strID, None) h)
  /\ (EntityType config <> "manufacturer" ->
      EntityType config <> "category" ->
      applyTransformation lib v mapping h =
      Ret (VString strID,
           Some (Errorf ("unsupported entity type: " +:+ EntityType config)))
          h).
Proof.
  intros Htype Hconfig Hprint Hid.
  assert (Hrun : applyTransformation lib v mapping h
                 = lookupEntity lib v config h).
  { unfold applyTransformation. rewrite Htype. simpl. now rewrite Hconfig. }
  rewrite Hrun. unfold lookupEntity, bind. rewrite Hprint.
  apply String.eqb_neq in Hid. rewrite Hid.
  split.
  - intros Hknown Hmiss. unfold lookup_in.
    destruct Hknown as [Hm|Hc].
    + rewrite Hm in *. simpl.
      destruct Hmiss as [->|(columns & -> & ->)]; reflexivity.
    + rewrite Hc in *. simpl.
      destruct Hmiss as [->|(columns & -> & ->)]; reflexivity.
  - intros Hm Hc.
    apply String.eqb_neq in Hm, Hc. now rewrite Hm, Hc.
Qed.

Lemma entity_lookup_miss_and_unsupported_witness :
  applyTransformation no_manufacturer_library (VString "42") vendor_rule []
  = Ret (VString "42", None) [].
Proof.
  apply (proj1 (entity_lookup_miss_and_unsupported no_manufacturer_library
                  (VString "42") vendor_rule manufacturer_lookup "42" []
                  eq_refl eq_refl eq_refl ltac:(discriminate)));
    [left; reflexivity|left; reflexivity].
Defined.

(** ** Media *)

(** The URL the code builds: [url] as it is when there is no base URL
    or [url] starts with the four bytes [http]; otherwise the base URL
    and [url], with a slash between them unless the base URL ends in
    one. *)
Lemma fullURL_cases (config : MediaConfig) (url : string) :
  (BaseURL config = "" \/ HasPrefix url "http" = true ->
   fullURL config url = url)
  /\ (BaseURL config <> "" -> HasPrefix url "http" = false ->
      HasSuffix (BaseURL config) "/" = true ->
      fullURL config url = BaseURL config +:+ url)
  /\ (BaseURL config <> "" -> HasPrefix url "http" = false ->
      HasSuffix (BaseURL config) "/" = false ->
      fullURL config url = BaseURL config +:+ "/" +:+ url).
Proof.
  unfold fullURL. repeat split.
  - intros [->| ->]; [reflexivity|now rewrite andb_false_r].
  - intros Hbase%String.eqb_neq -> ->. now rewrite Hbase.
  - intros Hbase%String.eqb_neq -> ->. now rewrite Hbase.
Qed.

Lemma Sprintf_s_text (lib : Library) (s : string) (h : heap) :
  Sprintf_s lib (VString s) h = Ret s h.
Proof. reflexivity. Qed.

Lemma string_property_text (lib : Library) (fields : gmap string value)
  (key text : string) (h : heap) :
  text_property fields key text ->
  string_property lib fields key h = Ret text h.
Proof.
  unfold string_property.
  intros [->|[-> [->| ->]]]; reflexivity.
Qed.

(** The loop appends one record per element to the heap, and returns
    their locations in order; [ext] is what was allocated since the
    records were described. *)
Lemma transformMedia_items_shape (lib : Library) (config : MediaConfig)
  (h0 : heap) (items : list value) (texts : list (string * string)) :
  Forall2 (media_record h0) items texts ->
  forall (i : Z) (ext : heap),
    transformMedia_items lib i items config (h0 ++ ext) =
    Ret (VMap <$> seq (length (h0 ++ ext)) (length items))
        ((h0 ++ ext)
           ++ imap (fun j t =>
                      OMap (media_item (fullURL config (fst t)) (snd t)
                              (i + Z.of_nat j + 1))) texts).
Proof.
  induction 1 as [|item t items texts Hrec _ IH]; intros i ext.
  - simpl. now rewrite app_nil_r.
  - destruct Hrec as (m & fields & title & -> & Hm & Hurl & Halt & Htitle).
    simpl transformMedia_items.
    rewrite (bind_Ret _ _ _ _ _
               (load_map_at _ _ _ (lookup_app_l_Some _ ext _ _ Hm))).
    rewrite (bind_Ret _ _ _ _ _ (string_property_text lib _ _ _ _ Hurl)).
    rewrite (bind_Ret _ _ _ _ _ (string_property_text lib _ _ _ _ Halt)).
    assert (Hdiscarded :
              match fields !! "title" with
              | Some VNil | None => ret (snd t)
              | Some titleVal => Sprintf_s lib titleVal
              end (h0 ++ ext)
              = Ret (match fields !! "title" with
                     | Some (VString s) => s
                     | _ => snd t
                     end) (h0 ++ ext)).
    { destruct Htitle as [->|[_ [->| ->]]]; reflexivity. }
    rewrite (bind_Ret _ _ _ _ _ Hdiscarded).
    rewrite (bind_Ret _ _ _ _ _ (new_at _ _)).
    rewrite <- app_assoc, (bind_Ret _ _ _ _ _ (IH (i + 1) (ext ++ [_]))).
    unfold ret. rewrite imap_cons. simpl length. rewrite !length_app. simpl.
    replace (length h0 + (length ext + 1))%nat
      with (S (length h0 + length ext)) by lia.
    replace (i + Z.of_nat 0 + 1) with (i + 1) by lia.
    rewrite <- !app_assoc. simpl.
    rewrite (imap_ext
               (fun j t0 =>
                  OMap (media_item (fullURL config (fst t0)) (snd t0)
                          (i + 1 + Z.of_nat j + 1)))
               ((fun j t0 =>
                   OMap (media_item (fullURL config (fst t0)) (snd t0)
                           (i + Z.of_nat j + 1))) ∘ S) texts);
      [reflexivity|].
    intros j x _. simpl. do 2 f_equal. lia.
Qed.

(** C8, as stated, fails: the prefix does not go by the scheme.  With
    the base URL [https://cdn.example.com], a relative URL that starts
    with the letters [http] is left without the base URL, and an
    absolute URL whose scheme is in capitals gets the base URL in
    front; the records are not the ones the specification
    describes. *)
Lemma media_map_prefix_ignores_scheme :
  Forall2 (media_record lookalikes) [VMap 0%nat; VMap 1%nat] lookalike_texts
  /\ applyTransformation (shirt_library []) (VSlice 2%nat) media_rule
       lookalikes
     = Ret (VSlice 5%nat, None)
         (lookalikes
            ++ [ OMap {[ "mediaContentType" := VString "IMAGE";
                         "originalSource" := VString "httpdocs/img.png";
                         "alt" := VString "Docs";
                         "position" := VInt 1 ]};
                 OMap {[ "mediaContentType" := VString "IMAGE";
                         "originalSource" :=
                           VString ("https://cdn.example.com/"
                                    +:+ "HTTPS://img.example.com/back.png");
                         "alt" := VString "Back";
                         "position" := VInt 2 ]};
                 OSlice [VMap 3%nat; VMap 4%nat] ])
  /\ applyTransformation (shirt_library []) (VSlice 2%nat) media_rule
       lookalikes
     <> Ret (VSlice 5%nat, None)
          (lookalikes
             ++ imap (spec_media (spec_originalSource (BaseURL cdn)))
                  lookalike_texts
             ++ [OSlice [VMap 3%nat; VMap 4%nat]]).
Proof.
  split; [|split].
  - repeat constructor.
    + exists 0%nat, {[ "url" := VString "httpdocs/img.png";
                       "alt" := VString "Docs" ]}, "".
      repeat split; try (left; reflexivity).
      right. split; [reflexivity|left; reflexivity].
    + exists 1%nat, {[ "url" := VString "HTTPS://img.example.com/back.png";
                       "alt" := VString "Back" ]}, "".
      repeat split; try (left; reflexivity).
      right. split; [reflexivity|left; reflexivity].
  - vm_compute. reflexivity.
  - intros H.
    assert (E := f_equal
                   (fun o : outcome result =>
                      match o with
                      | Ret _ h' =>
                          match h' !! 3%nat with
                          | Some (OMap fields) => fields !! "originalSource"
                          | _ => None
                          end
                      | Panic _ => None
                      end) H).
    vm_compute in E. discriminate E.
Qed.

(** C8, amended.  On an array of [{url, alt, title?}] records, a
    [media_map] rule allocates one record per element, in order, with
    the content type [IMAGE], the alt text, the 1-based position and
    the source, and returns the slice of these records without an
    error.  The source is the URL as it is when the base URL is empty
    or the URL starts with the four bytes [http], whatever follows
    them; otherwise it is the base URL and the URL, with a slash put
    between them unless the base URL ends in one. *)
Theorem media_map_shape (lib : Library) (mapping : FieldMapping)
  (config : MediaConfig) (h : heap) (a : loc) (items : list value)
  (texts : list (string * string)) :
  TransformType mapping = TransformationTypeMediaMap ->
  Unmarshal_media_map lib (TransformConfig mapping) = inl config ->
  h !! a = Some (OSlice items) ->
  Forall2 (media_record h) items texts ->
  exists originalSource : string -> string,
    applyTransformation lib (VSlice a) mapping h =
    Ret (VSlice (length h + length items)%nat, None)
        (h ++ imap (spec_media originalSource) texts
           ++ [OSlice (VMap <$> seq (length h) (length items))])
    /\ forall url : string,
         (BaseURL config = "" \/ HasPrefix url "http" = true ->
          originalSource url = url)
         /\ (BaseURL config <> "" -> HasPrefix url "http" = false ->
             HasSuffix (BaseURL config) "/" = true ->
             originalSource url = BaseURL config +:+ url)
         /\ (BaseURL config <> "" -> HasPrefix url "http" = false ->
             HasSuffix (BaseURL config) "/" = false ->
             originalSource url = BaseURL config +:+ "/" +:+ url).
Proof.
  intros Htype Hconfig Ha Hitems.
  exists (fullURL config). split; [|apply fullURL_cases].
  unfold applyTransformation. rewrite Htype. simpl. rewrite Hconfig.
  unfold transformMedia.
  rewrite (bind_Ret _ _ _ _ _ (load_slice_at _ _ _ Ha)).
  pose proof (transformMedia_items_shape lib config h items texts Hitems 0 [])
    as Hloop.
  rewrite app_nil_r in Hloop. rewrite (bind_Ret _ _ _ _ _ Hloop).
  unfold bind, new, ok, ret.
  rewrite length_app, length_imap, <- (Forall2_length _ _ _ Hitems).
  rewrite <- app_assoc. do 3 f_equal.
Qed.

Lemma media_map_shape_witness :
  exists originalSource : string -> string,
    applyTransformation (shirt_library []) (VSlice 2%nat) media_rule gallery
    = Ret (VSlice (length gallery + 2)%nat, None)
        (gallery ++ imap (spec_media originalSource) gallery_texts
           ++ [OSlice (VMap <$> seq (length gallery) 2)])
    /\ originalSource "media/front.png"
       = "https://cdn.example.com/media/front.png"
    /\ originalSource "https://img.example.com/back.png"
       = "https://img.example.com/back.png".
Proof.
  destruct (media_map_shape (shirt_library []) media_rule
              cdn gallery 2%nat [VMap 0%nat; VMap 1%nat] gallery_texts
              eq_refl eq_refl eq_refl) as (originalSource & Hrun & Hsource).
  - repeat constructor.
    + exists 0%nat, {[ "url" := VString "media/front.png";
                       "alt" := VString "Front" ]}, "".
      repeat split; try (left; reflexivity).
      right. split; [reflexivity|left; reflexivity].
    + exists 1%nat, {[ "url" := VString "https://img.example.com/back.png";
                       "alt" := VNil ]}, "".
      repeat split; try (left; reflexivity).
      * right. split; [reflexivity|right; reflexivity].
      * right. split; [reflexivity|left; reflexivity].
  - exists originalSource. split; [exact Hrun|]. split.
    + apply (proj2 (proj2 (Hsource "media/front.png")));
        [discriminate|reflexivity|reflexivity].
    + apply (proj1 (Hsource "https://img.example.com/back.png")).
      right. reflexivity.
Defined.

(** ** Metafields *)

(** Every value that is not a slice or a map has a string form. *)
Lemma scalar_prints (lib : Library) (v : value) (h : heap) :
  (forall a, v <> VSlice a) -> (forall m, v <> VMap m) ->
  exists s, Sprintf_v lib v h = Ret s h.
Proof.
  intros Hslice Hmap. unfold Sprintf_v, Sprintf.
  destruct v; simpl; eauto; [now destruct (Hslice a)|now destruct (Hmap m)].
Qed.




(** ** The two lookups *)

Section IndexFacts.

Variable sep : ascii.

Lemma Index_absent (s : string) : Contains s sep = false -> Index s sep = -1.
Proof.
  induction s as [|c s IH]; simpl; [reflexivity|].
  intros H. apply orb_false_iff in H as [Hc Hs].
  rewrite Hc, (IH Hs). reflexivity.
Qed.

Lemma Index_present (s : string) :
  Contains s sep = true -> 0 <= Index s sep < len s.
Proof.
  unfold len. induction s as [|c s IH]; simpl; [discriminate|].
  destruct (Ascii.eqb c sep); simpl; [lia|].
  intros H. specialize (IH H).
  destruct (Index s sep <? 0) eqn:E; lia.
Qed.

End IndexFacts.

Lemma arrayIndexRegex_plain (component : string) :
  Contains component "[" = false -> arrayIndexRegex component = None.
Proof.
  intros H. unfold arrayIndexRegex. now rewrite (Index_absent _ _ H).
Qed.

Lemma json_path_from_agrees (parts : list string) :
  Forall (fun part => Contains part "[" = false) parts ->
  forall (current : value) (h : heap),
    found_value (extractJsonPath_from current parts h)
    = found_value (getNestedValue_from current parts h).
Proof.
  induction 1 as [|part rest Hpart _ IH]; intros current h; [reflexivity|].
  cbn [extractJsonPath_from getNestedValue_from].
  unfold is_array_access. rewrite Hpart. cbn [andb].
  rewrite (arrayIndexRegex_plain _ Hpart).
  destruct current; try reflexivity.
  unfold bind, load_map. destruct (h !! m) as [[|fields]|]; try reflexivity.
  destruct (fields !! part); [apply IH|reflexivity].
Qed.

(** X6.  On a path of plain components, [json_path] finds what
    [getNestedValue] finds: both return the same value, or both report
    that there is none (in different words), or both panic on a
    dangling reference.  On the empty path they differ: [json_path]
    returns the value itself, [getNestedValue] looks for the empty key. *)
Theorem json_path_agrees_with_get (obj : loc) (path : string) (h : heap) :
  path <> "" ->
  Forall (fun part => Contains part "[" = false) (Split path ".") ->
  found_value (extractJsonPath (VMap obj) path h) = found_value (getNestedValue obj path h).
Proof.
  intros Hpath Hplain. unfold extractJsonPath, getNestedValue.
  destruct (String.eqb_spec path ""); [contradiction|].
  now apply json_path_from_agrees.
Qed.

Lemma json_path_agrees_with_get_witness :
  found_value (extractJsonPath (VMap root) "seo.keywords" shirt_with_seo)
  = found_value (getNestedValue root "seo.keywords" shirt_with_seo).
Proof.
  apply (json_path_agrees_with_get root "seo.keywords" shirt_with_seo);
    [discriminate|repeat constructor].
Defined.

Lemma extractJsonPath_from_reads_only (components : list string) :
  forall current : value, reads_only (extractJsonPath_from current components).
Proof.
  induction components as [|component rest IH]; intros current;
    cbn [extractJsonPath_from].
  - apply reads_only_ret.
  - unfold ok, fail.
    destruct (arrayIndexRegex component) as [[key indexStr]|];
      [destruct (Atoi indexStr)|];
      repeat first [ apply IH
                   | apply reads_only_index_read
                   | reads_only_step ].
Qed.

(** X7.  Neither lookup writes: whenever [json_path] or
    [getNestedValue] returns, with a value or with an error, the heap is
    the one it was called on, for every value, path and heap. *)
Theorem lookups_only_read (v : value) (obj : loc) (path : string) :
  reads_only (extractJsonPath v path) /\ reads_only (getNestedValue obj path).
Proof.
  split.
  - unfold extractJsonPath. destruct (String.eqb path "").
    + apply reads_only_ret.
    + apply extractJsonPath_from_reads_only.
  - apply getNestedValue_from_reads_only.
Qed.

(** ** Closed heaps *)

Lemma closed_object (h : heap) (l : loc) (o : object) :
  closed h = true -> h !! l = Some o -> object_closed h o = true.
Proof.
  unfold closed. rewrite forallb_forall. intros Hall Hl.
  apply Hall, list_elem_of_In, (list_elem_of_lookup_2 _ _ _ Hl).
Qed.

Lemma closed_field (h : heap) (m : loc) (fields : gmap string value)
  (key : string) (v : value) :
  closed h = true -> h !! m = Some (OMap fields) -> fields !! key = Some v ->
  valid h v = true.
Proof.
  intros Hc Hm Hkey. pose proof (closed_object _ _ _ Hc Hm) as Ho.
  cbn [object_closed] in Ho. rewrite forallb_forall in Ho.
  apply (Ho (key, v)), list_elem_of_In, elem_of_map_to_list, Hkey.
Qed.

Lemma closed_elem (h : heap) (a : loc) (elems : list value) (i : nat)
  (v : value) :
  closed h = true -> h !! a = Some (OSlice elems) -> elems !! i = Some v ->
  valid h v = true.
Proof.
  intros Hc Ha Hi. pose proof (closed_object _ _ _ Hc Ha) as Ho.
  cbn [object_closed] in Ho. rewrite forallb_forall in Ho.
  apply Ho, list_elem_of_In, (list_elem_of_lookup_2 _ _ _ Hi).
Qed.

Lemma valid_map (h : heap) (m : loc) :
  valid h (VMap m) = true -> exists fields, h !! m = Some (OMap fields).
Proof.
  cbn [valid]. destruct (h !! m) as [[|fields]|]; try discriminate. eauto.
Qed.

Lemma valid_slice (h : heap) (a : loc) :
  valid h (VSlice a) = true -> exists elems, h !! a = Some (OSlice elems).
Proof.
  cbn [valid]. destruct (h !! a) as [[elems|]|]; try discriminate. eauto.
Qed.

Lemma index_read_at (h : heap) (a : loc) (elems : list value) (index : Z) :
  h !! a = Some (OSlice elems) ->
  0 <= index < Z.of_nat (length elems) ->
  exists v, elems !! Z.to_nat index = Some v
            /\ index_read a index h = Ret v h.
Proof.
  intros Ha Hi.
  destruct (lookup_lt_is_Some_2 elems (Z.to_nat index)) as [v Hv]; [lia|].
  exists v. split; [exact Hv|].
  unfold index_read. rewrite (bind_Ret _ _ _ _ _ (load_slice_at _ _ _ Ha)).
  replace ((index <? 0) || (Z.of_nat (length elems) <=? index)) with false
    by (symmetry; apply orb_false_iff; split; lia).
  now rewrite Hv.
Qed.

Lemma object_closed_map (h : heap) (fields : gmap string value) :
  object_closed h (OMap fields) = true <->
  forall key v, fields !! key = Some v -> valid h v = true.
Proof.
  cbn [object_closed]. rewrite forallb_forall. split.
  - intros H key v Hkey.
    apply (H (key, v)), list_elem_of_In, elem_of_map_to_list, Hkey.
  - intros H [key v] Hin.
    apply list_elem_of_In, elem_of_map_to_list in Hin. exact (H _ _ Hin).
Qed.

Lemma object_closed_slice (h : heap) (elems : list value) :
  object_closed h (OSlice elems) = true <->
  Forall (fun v => valid h v = true) elems.
Proof.
  cbn [object_closed]. rewrite forallb_forall, Forall_forall.
  split; intros H v Hv; apply H, list_elem_of_In, Hv.
Qed.

Lemma closed_iff (h : heap) :
  closed h = true <->
  forall l o, h !! l = Some o -> object_closed h o = true.
Proof.
  split.
  - intros Hc l o. now apply closed_object.
  - intros H. unfold closed. rewrite forallb_forall. intros o Hin.
    apply list_elem_of_In, list_elem_of_lookup_1 in Hin as [l Hl]. eauto.
Qed.

Lemma object_closed_keeps (h h' : heap) (o : object) :
  keeps h h' -> object_closed h o = true -> object_closed h' o = true.
Proof.
  intros Hk. destruct o as [elems|fields].
  - rewrite !object_closed_slice. intros H.
    eapply Forall_impl; [exact H|exact Hk].
  - rewrite !object_closed_map. intros H key v Hkey. apply Hk. eauto.
Qed.

Lemma keeps_app (h ext : heap) : keeps h (h ++ ext).
Proof.
  intros [] Hv; try reflexivity; cbn [valid] in *.
  - destruct (h !! a) as [[|]|] eqn:Ha; try discriminate.
    now rewrite (lookup_app_l_Some _ _ _ _ Ha).
  - destruct (h !! m) as [[|]|] eqn:Hm; try discriminate.
    now rewrite (lookup_app_l_Some _ _ _ _ Hm).
Qed.

Lemma keeps_store_map (h : heap) (m : loc) (old new : gmap string value) :
  h !! m = Some (OMap old) -> keeps h (<[m := OMap new]> h).
Proof.
  intros Hm [] Hv; try reflexivity; cbn [valid] in *.
  - destruct (decide (a = m)) as [->|Hne]; [now rewrite Hm in Hv|].
    now rewrite list_lookup_insert_ne by congruence.
  - destruct (decide (m0 = m)) as [->|Hne].
    + now rewrite list_lookup_insert_eq by exact (lookup_lt_Some _ _ _ Hm).
    + now rewrite list_lookup_insert_ne by congruence.
Qed.

Lemma keeps_store_slice (h : heap) (a : loc) (old new : list value) :
  h !! a = Some (OSlice old) -> keeps h (<[a := OSlice new]> h).
Proof.
  intros Ha [] Hv; try reflexivity; cbn [valid] in *.
  - destruct (decide (a0 = a)) as [->|Hne].
    + now rewrite list_lookup_insert_eq by exact (lookup_lt_Some _ _ _ Ha).
    + now rewrite list_lookup_insert_ne by congruence.
  - destruct (decide (m = a)) as [->|Hne]; [now rewrite Ha in Hv|].
    now rewrite list_lookup_insert_ne by congruence.
Qed.

Lemma closed_new (h : heap) (o : object) :
  closed h = true -> object_closed h o = true -> closed (h ++ [o]) = true.
Proof.
  rewrite !closed_iff. intros Hc Ho l o' Hl.
  apply (object_closed_keeps h); [apply keeps_app|].
  apply lookup_app_Some in Hl as [Hl|[_ Hl]]; [eauto|].
  apply list_lookup_singleton_Some in Hl as [_ <-]. exact Ho.
Qed.

Lemma closed_store (h : heap) (l : loc) (o : object) :
  closed h = true -> keeps h (<[l := o]> h) -> object_closed h o = true ->
  closed (<[l := o]> h) = true.
Proof.
  rewrite !closed_iff. intros Hc Hk Ho l' o' Hl'.
  apply (object_closed_keeps h); [exact Hk|].
  destruct (decide (l' = l)) as [->|Hne].
  - apply list_lookup_insert_Some in Hl' as [(_ & <- & _)|[Hneq _]];
      [exact Ho|congruence].
  - rewrite list_lookup_insert_ne in Hl' by congruence. eauto.
Qed.

Lemma closed_map_assign (h : heap) (m : loc) (fields : gmap string value)
  (key : string) (v : value) :
  closed h = true -> h !! m = Some (OMap fields) -> valid h v = true ->
  closed (<[m := OMap (<[key := v]> fields)]> h) = true.
Proof.
  intros Hc Hm Hv. apply closed_store; [exact Hc| |].
  - exact (keeps_store_map _ _ _ _ Hm).
  - apply object_closed_map. intros k x Hk.
    apply lookup_insert_Some in Hk as [[_ <-]|[_ Hk]]; [exact Hv|].
    exact (closed_field _ _ _ _ _ Hc Hm Hk).
Qed.

Lemma alloc_items_closed (items : list json) :
  Forall decodes_closed items ->
  forall h : heap,
    closed h = true ->
    exists ext : heap,
      snd (alloc_items alloc_json items h) = h ++ ext
      /\ closed (h ++ ext) = true
      /\ Forall (fun v => valid (h ++ ext) v = true)
           (fst (alloc_items alloc_json items h)).
Proof.
  induction 1 as [|x r Hx _ IH]; intros h Hc.
  - exists []. simpl. rewrite app_nil_r. repeat split; [exact Hc|constructor].
  - cbn [alloc_items]. destruct (Hx h Hc) as (e1 & He1 & Hc1 & Hv).
    destruct (alloc_json x h) as [v h1]. cbn [fst snd] in He1, Hv. subst h1.
    destruct (IH (h ++ e1) Hc1) as (e2 & He2 & Hc2 & Hvs).
    destruct (alloc_items alloc_json r (h ++ e1)) as [vs h2].
    cbn [fst snd] in He2, Hvs. subst h2. cbn [fst snd].
    exists (e1 ++ e2). rewrite app_assoc. repeat split; [exact Hc2|].
    constructor; [apply keeps_app, Hv|exact Hvs].
Qed.

Lemma alloc_fields_closed (members : list (string * json)) :
  Forall (fun kv => decodes_closed (snd kv)) members ->
  forall (h e0 : heap) (acc : gmap string value),
    closed (h ++ e0) = true ->
    object_closed (h ++ e0) (OMap acc) = true ->
    exists ext : heap,
      snd (alloc_fields alloc_json members acc (h ++ e0)) = h ++ ext
      /\ closed (h ++ ext) = true
      /\ object_closed (h ++ ext)
           (OMap (fst (alloc_fields alloc_json members acc (h ++ e0)))) = true.
Proof.
  induction 1 as [|[k x] r Hx _ IH]; intros h e0 acc Hc Hacc.
  - exists e0. now repeat split.
  - cbn [alloc_fields]. cbn [snd] in Hx.
    destruct (Hx (h ++ e0) Hc) as (e1 & He1 & Hc1 & Hv).
    destruct (alloc_json x (h ++ e0)) as [v h1].
    cbn [fst snd] in He1, Hv. subst h1.
    rewrite <- app_assoc in *. apply IH; [exact Hc1|].
    apply object_closed_map. intros key v' Hkey.
    apply lookup_insert_Some in Hkey as [[_ <-]|[_ Hkey]]; [exact Hv|].
    rewrite app_assoc. apply keeps_app.
    exact (proj1 (object_closed_map _ _) Hacc _ _ Hkey).
Qed.

Lemma alloc_json_closed (j : json) : decodes_closed j.
Proof.
  induction j as [| | | | |items IH|members IH] using json_nested_ind;
    intros h Hc;
    try (exists []; cbn [alloc_json fst snd]; rewrite app_nil_r;
         now repeat split).
  - destruct (alloc_items_closed items IH h Hc) as (ext & Hext & Hc1 & Hvs).
    cbn [alloc_json]. destruct (alloc_items alloc_json items h) as [vs h1].
    cbn [fst snd] in Hext, Hvs. subst h1. cbn [fst snd].
    exists (ext ++ [OSlice vs]). rewrite app_assoc. repeat split.
    + apply closed_new; [exact Hc1|]. now apply object_closed_slice.
    + cbn [valid]. now rewrite list_lookup_middle.
  - destruct (alloc_fields_closed members IH h [] ∅) as (ext & Hext & Hc1 & Hf);
      [now rewrite app_nil_r| |].
    { apply object_closed_map. intros k v Hk.
      now rewrite lookup_empty in Hk. }
    rewrite app_nil_r in Hext, Hf. cbn [alloc_json].
    destruct (alloc_fields alloc_json members ∅ h) as [fields h1].
    cbn [fst snd] in Hext, Hf. subst h1. cbn [fst snd].
    exists (ext ++ [OMap fields]). rewrite app_assoc. repeat split.
    + now apply closed_new.
    + cbn [valid]. now rewrite list_lookup_middle.
Qed.

(** A decoded document is a closed heap. *)
Lemma unmarshal_object_closed (members : list (string * json)) (h : heap) :
  closed h = true ->
  exists (obj : loc) (ext : heap),
    unmarshal_object members h = Ret obj (h ++ ext)
    /\ closed (h ++ ext) = true
    /\ valid (h ++ ext) (VMap obj) = true.
Proof.
  intros Hc.
  destruct (alloc_json_closed (JObject members) h Hc) as (ext & Hext & Hc1 & Hv).
  unfold unmarshal_object. cbn [alloc_json] in Hext, Hv.
  destruct (alloc_fields alloc_json members ∅ h) as [fields h1].
  cbn [fst snd] in Hext, Hv. exists (length h1), ext.
  rewrite Hext. now repeat split.
Qed.

(** ** Lookups that cannot panic *)

Ltac answered := eexists; split; reflexivity.

Lemma extractJsonPath_from_total (h : heap) (components : list string) :
  closed h = true ->
  forall current : value,
    valid h current = true ->
    exists r : result,
      extractJsonPath_from current components h = Ret r h
      /\ valid h (fst r) = true.
Proof.
  intros Hc. induction components as [|component rest IH]; intros current Hv;
    cbn [extractJsonPath_from].
  - exists (current, None). now split.
  - destruct (arrayIndexRegex component) as [[key indexStr]|];
      [destruct (Atoi indexStr) as [idx|]|]; try answered.
    + destruct current; try answered.
      destruct (valid_map _ _ Hv) as [fields Hm].
      rewrite (bind_Ret _ _ _ _ _ (load_map_at _ _ _ Hm)).
      destruct (fields !! key) as [val|] eqn:Hkey; [|answered].
      pose proof (closed_field _ _ _ _ _ Hc Hm Hkey) as Hval.
      destruct (idx >=? 0) eqn:Hidx; [|now apply IH].
      destruct val; try answered.
      destruct (valid_slice _ _ Hval) as [elems Ha].
      rewrite (bind_Ret _ _ _ _ _ (load_slice_at _ _ _ Ha)).
      destruct (idx <? Z.of_nat (length elems)) eqn:Hlt; [|answered].
      destruct (index_read_at h a elems idx Ha) as (elem & Helem & Hread);
        [lia|].
      rewrite (bind_Ret _ _ _ _ _ Hread).
      apply IH, (closed_elem _ _ _ _ _ Hc Ha Helem).
    + destruct current; try answered.
      destruct (valid_map _ _ Hv) as [fields Hm].
      rewrite (bind_Ret _ _ _ _ _ (load_map_at _ _ _ Hm)).
      destruct (fields !! component) as [val|] eqn:Hkey; [|answered].
      change (-1 >=? 0) with false. cbv iota.
      apply IH, (closed_field _ _ _ _ _ Hc Hm Hkey).
Qed.

(** X8.  [json_path] never panics: on every closed heap, for every
    value and every path, [extractJsonPath] returns (a value or an
    error) and leaves the heap as it is. *)
Theorem extractJsonPath_never_panics (h : heap) (v : value) (path : string) :
  closed h = true -> valid h v = true ->
  exists r : result, extractJsonPath v path h = Ret r h.
Proof.
  intros Hc Hv. unfold extractJsonPath.
  destruct (String.eqb path ""); [now eexists|].
  destruct (extractJsonPath_from_total h (Split path ".") Hc v Hv)
    as (r & Hr & _).
  now exists r.
Qed.

Lemma extractJsonPath_never_panics_witness :
  exists r : result,
    extractJsonPath (VMap root) "tags[0]" tagged = Ret r tagged.
Proof.
  apply (extractJsonPath_never_panics tagged (VMap root) "tags[0]");
    vm_compute; reflexivity.
Defined.

Lemma slice_in_bounds (s : string) (lo hi : Z) :
  0 <= lo <= hi /\ hi <= len s -> exists r, slice s lo hi = Some r.
Proof.
  intros H. unfold slice.
  replace ((0 <=? lo) && (lo <=? hi) && (hi <=? len s)) with true
    by (symmetry; rewrite !andb_true_iff; repeat split; lia).
  now eexists.
Qed.

Lemma substr_at (s : string) (lo hi : Z) (r : string) (h : heap) :
  slice s lo hi = Some r -> substr s lo hi h = Ret r h.
Proof. intros H. unfold substr. now rewrite H. Qed.

Lemma getNestedValue_from_total (h : heap) (parts : list string) :
  closed h = true ->
  Forall (fun part => is_array_access part = true ->
                      Index part "[" < Index part "]") parts ->
  forall current : value,
    valid h current = true ->
    exists r : result,
      getNestedValue_from current parts h = Ret r h
      /\ valid h (fst r) = true.
Proof.
  intros Hc Hparts. induction Hparts as [|part rest Hpart _ IH];
    intros current Hv; cbn [getNestedValue_from].
  - exists (current, None). now split.
  - destruct (is_array_access part) eqn:Harr.
    + specialize (Hpart eq_refl).
      unfold is_array_access in Harr. apply andb_true_iff in Harr as [Ho Hcl].
      pose proof (Index_present _ _ Ho) as Hio.
      pose proof (Index_present _ _ Hcl) as Hic.
      destruct (slice_in_bounds part 0 (Index part "[")) as [key Hkey];
        [lia|].
      destruct (slice_in_bounds part (Index part "[" + 1) (Index part "]"))
        as [indexStr HindexStr]; [lia|].
      rewrite (bind_Ret _ _ _ _ _ (substr_at _ _ _ _ h Hkey)).
      rewrite (bind_Ret _ _ _ _ _ (substr_at _ _ _ _ h HindexStr)).
      match goal with |- context [Atoi ?s] => destruct (Atoi s) as [index|] end;
        [|answered].
      destruct current; try answered.
      destruct (valid_map _ _ Hv) as [fields Hm].
      rewrite (bind_Ret _ _ _ _ _ (load_map_at _ _ _ Hm)).
      destruct (fields !! key) as [val|] eqn:Hfield; [|answered].
      pose proof (closed_field _ _ _ _ _ Hc Hm Hfield) as Hval.
      destruct val; try answered.
      destruct (valid_slice _ _ Hval) as [elems Ha].
      rewrite (bind_Ret _ _ _ _ _ (load_slice_at _ _ _ Ha)).
      destruct ((index <? 0) || (index >=? Z.of_nat (length elems))) eqn:Hb;
        [answered|].
      apply orb_false_iff in Hb as [Hb1 Hb2].
      destruct (index_read_at h a elems index Ha) as (elem & Helem & Hread);
        [lia|].
      rewrite (bind_Ret _ _ _ _ _ Hread).
      apply IH, (closed_elem _ _ _ _ _ Hc Ha Helem).
    + destruct current; try answered.
      destruct (valid_map _ _ Hv) as [fields Hm].
      rewrite (bind_Ret _ _ _ _ _ (load_map_at _ _ _ Hm)).
      destruct (fields !! part) as [val|] eqn:Hkey; [|answered].
      apply IH, (closed_field _ _ _ _ _ Hc Hm Hkey).
Qed.

(** X9.  [getNestedValue] panics on a closed heap only through the
    slicing of a part: when every part that holds both brackets has its
    first [[] before its first []], it returns and leaves the heap as
    it is. *)
Theorem getNestedValue_panics_only_on_brackets (h : heap) (obj : loc)
  (path : string) :
  closed h = true -> valid h (VMap obj) = true ->
  Forall (fun part => is_array_access part = true ->
                      Index part "[" < Index part "]") (Split path ".") ->
  exists r : result, getNestedValue obj path h = Ret r h.
Proof.
  intros Hc Hv Hparts.
  destruct (getNestedValue_from_total h (Split path ".") Hc Hparts
              (VMap obj) Hv) as (r & Hr & _).
  now exists r.
Qed.

Lemma getNestedValue_panics_only_on_brackets_witness :
  exists r : result, getNestedValue root "tags[0]" tagged = Ret r tagged.
Proof.
  apply (getNestedValue_panics_only_on_brackets tagged root "tags[0]");
    [vm_compute; reflexivity|vm_compute; reflexivity|].
  repeat constructor.
Defined.

(** ** Panics of the accessor *)

Lemma Index_found (s : string) (sep : ascii) :
  0 <= Index s sep -> Contains s sep = true.
Proof.
  intros H. destruct (Contains s sep) eqn:E; [reflexivity|].
  rewrite (Index_absent _ _ E) in H. lia.
Qed.

Lemma misordered_brackets (part : string) (h : heap) :
  0 <= Index part "]" < Index part "[" ->
  is_array_access part = true
  /\ (exists key, substr part 0 (Index part "[") h = Ret key h)
  /\ substr part (Index part "[" + 1) (Index part "]") h
     = Panic "slice bounds out of range".
Proof.
  intros Hord.
  assert (Ho : Contains part "[" = true) by (apply Index_found; lia).
  assert (Hc : Contains part "]" = true) by (apply Index_found; lia).
  pose proof (Index_present _ _ Ho) as Hio.
  repeat split.
  - unfold is_array_access. now rewrite Ho, Hc.
  - destruct (slice_in_bounds part 0 (Index part "[")) as [key Hkey]; [lia|].
    exists key. now apply substr_at.
  - unfold substr, slice.
    replace ((0 <=? Index part "[" + 1)
             && (Index part "[" + 1 <=? Index part "]")
             && (Index part "]" <=? len part)) with false; [reflexivity|].
    symmetry. apply andb_false_iff. left. apply andb_false_iff. right.
    apply Z.leb_gt. lia.
Qed.

(** X10.  A part whose first []] stands before its first [[] makes
    both accessors panic with a slice out of bounds when it is the
    first part of the path, whatever the tree and the value. *)
Theorem misordered_brackets_panic (obj : loc) (path part : string)
  (rest : list string) (v : value) (h : heap) :
  Split path "." = part :: rest ->
  0 <= Index part "]" < Index part "[" ->
  getNestedValue obj path h = Panic "slice bounds out of range"
  /\ setNestedValue obj path v h = Panic "slice bounds out of range".
Proof.
  intros Hsplit Hord.
  destruct (misordered_brackets part h Hord) as (Harr & [key Hkey] & Hpanic).
  split.
  - unfold getNestedValue. rewrite Hsplit. cbn [getNestedValue_from].
    rewrite Harr, (bind_Ret _ _ _ _ _ Hkey). unfold bind at 1.
    now rewrite Hpanic.
  - unfold setNestedValue. rewrite Hsplit. destruct rest as [|next rest].
    + cbn [List.removelast List.last setNestedValue_loop].
      rewrite (bind_Ret _ _ h h (inl obj) eq_refl).
      rewrite Harr, (bind_Ret _ _ _ _ _ Hkey). unfold bind at 1.
      now rewrite Hpanic.
    + change (List.removelast (part :: next :: rest))
        with (part :: List.removelast (next :: rest)).
      cbn [setNestedValue_loop]. rewrite Harr. unfold bind at 1.
      rewrite (bind_Ret _ _ _ _ _ Hkey). unfold bind at 1.
      now rewrite Hpanic.
Qed.

Lemma misordered_brackets_panic_witness :
  getNestedValue root "a]b[" empty_root = Panic "slice bounds out of range"
  /\ setNestedValue root "a]b[" VNil empty_root
     = Panic "slice bounds out of range".
Proof.
  apply (misordered_brackets_panic root "a]b[" "a]b[" [] VNil empty_root);
    [reflexivity|].
  split; [vm_compute; discriminate|vm_compute; reflexivity].
Defined.

Lemma int_add_small (a b : Z) :
  min_int <= a + b <= max_int -> int_add a b = a + b.
Proof.
  unfold int_add, min_int, max_int. intros H.
  rewrite Z.mod_small; lia.
Qed.

Lemma make_slice_at (n : Z) (h : heap) :
  0 <= n -> 16 * n <= maxAlloc ->
  make_slice n h = Ret (length h) (h ++ [OSlice (replicate (Z.to_nat n) VNil)]).
Proof.
  intros Hn Hmax. unfold make_slice.
  destruct (n <? 0) eqn:E; [lia|].
  destruct (maxAlloc <? 16 * n) eqn:E'; [lia|reflexivity].
Qed.

Lemma index_assign_at (h : heap) (a : loc) (elems : list value) (index : Z)
  (v : value) :
  h !! a = Some (OSlice elems) ->
  0 <= index < Z.of_nat (length elems) ->
  index_assign a index v h
  = Ret tt (<[a := OSlice (<[Z.to_nat index := v]> elems)]> h).
Proof.
  intros Ha Hi. unfold index_assign.
  rewrite (bind_Ret _ _ _ _ _ (load_slice_at _ _ _ Ha)).
  replace ((index <? 0) || (Z.of_nat (length elems) <=? index)) with false
    by (symmetry; apply orb_false_iff; split; lia).
  reflexivity.
Qed.

Lemma copy_into_fresh (n : nat) (stored : list value) :
  (length stored <= n)%nat ->
  copy (replicate n VNil) stored
  = stored ++ replicate (n - length stored) VNil.
Proof.
  intros Hle. unfold copy. rewrite length_replicate.
  rewrite take_ge by exact Hle. now rewrite drop_replicate.
Qed.

Lemma Atoi_range (s : string) (v : Z) :
  Atoi s = Some v -> min_int <= v <= max_int.
Proof.
  unfold Atoi.
  destruct (match s with
            | String "-" r => (true, r)
            | String "+" r => (false, r)
            | _ => (false, s)
            end) as [neg body].
  destruct body; [discriminate|].
  destruct (all_digits _); [|discriminate].
  match goal with |- context [if ?c then Some _ else None] =>
    destruct c eqn:E end; [|discriminate].
  intros [= <-]. apply andb_true_iff in E as [E1 E2].
  apply Z.leb_le in E1, E2. now split.
Qed.

(** X11.  [setNestedValue] panics on every negative index at the last
    part of a path of one part, when the key is absent or holds a
    slice: the index is not checked, and the store, or the making of a
    slice of negative length, panics. *)
Theorem negative_leaf_index_panics (h : heap) (obj : loc)
  (fields : gmap string value) (path key indexStr : string) (index : Z)
  (v : value) :
  h !! obj = Some (OMap fields) ->
  Contains path "." = false ->
  is_array_access path = true ->
  slice path 0 (Index path "[") = Some key ->
  slice path (Index path "[" + 1) (Index path "]") = Some indexStr ->
  Atoi indexStr = Some index ->
  index < 0 ->
  fields !! key = None
  \/ (exists a stored, fields !! key = Some (VSlice a)
                       /\ h !! a = Some (OSlice stored)) ->
  setNestedValue obj path v h = Panic "index out of range"
  \/ setNestedValue obj path v h = Panic "makeslice: len out of range".
Proof.
  intros Hobj Hdot Harr Hkey HindexStr Hatoi Hneg Hstored.
  pose proof (Atoi_range _ _ Hatoi) as Hrange.
  pose proof (lookup_lt_Some _ _ _ Hobj) as Hlt.
  assert (Hadd : int_add index 1 = index + 1)
    by (apply int_add_small; unfold min_int, max_int, maxAlloc in *; lia).
  unfold setNestedValue. rewrite (Split_without_sep _ _ Hdot).
  cbn [List.removelast List.last setNestedValue_loop].
  rewrite (bind_Ret _ _ h h (inl obj) eq_refl).
  rewrite Harr.
  rewrite (bind_Ret _ _ _ _ _ (substr_at _ _ _ _ h Hkey)).
  rewrite (bind_Ret _ _ _ _ _ (substr_at _ _ _ _ h HindexStr)).
  rewrite Hatoi. unfold ensure_slice.
  destruct Hstored as [Hnone|(a & stored & Hsome & Ha)].
  - destruct (Z.eq_dec index (-1)) as [->|Hne].
    + left. unfold bind at 1. unfold bind at 1.
      rewrite (load_map_at _ _ _ Hobj), Hnone.
      set (a := length h).
      set (ha := h ++ [OSlice []]).
      set (hb := <[obj := OMap (<[key := VSlice a]> fields)]> ha).
      assert (Hha : ha !! obj = Some (OMap fields))
        by (apply lookup_app_l_Some; exact Hobj).
      assert (Hhb : hb !! obj = Some (OMap (<[key := VSlice a]> fields))).
      { apply list_lookup_insert_eq. unfold ha. rewrite length_app. simpl.
        lia. }
      assert (Hab : hb !! a = Some (OSlice [])).
      { unfold hb. rewrite list_lookup_insert_ne by (unfold a; lia).
        unfold ha, a. now rewrite list_lookup_middle. }
      rewrite (bind_Ret _ _ h hb tt).
      2:{ rewrite Hadd.
          rewrite (bind_Ret _ _ _ _ _ (make_slice_at 0 _ ltac:(lia) ltac:(unfold maxAlloc; lia))).
          apply (map_assign_at ha obj fields key (VSlice a) Hha). }
      rewrite (bind_Ret _ _ _ _ _ (load_map_at _ _ _ Hhb)).
      rewrite lookup_insert_eq.
      rewrite (bind_Ret _ _ _ _ _ (load_slice_at _ _ _ Hab)).
      change (-1 >=? Z.of_nat (length (@nil value))) with false.
      cbv iota. unfold ret at 1. unfold index_assign, bind.
      now rewrite (load_slice_at _ _ _ Hab).
    + right. unfold bind at 1. unfold bind at 1.
      rewrite (load_map_at _ _ _ Hobj), Hnone.
      unfold bind at 1. unfold bind at 1. rewrite Hadd. unfold make_slice.
      now replace (index + 1 <? 0) with true by (symmetry; apply Z.ltb_lt; lia).
  - left. unfold bind at 1. unfold bind at 1.
    rewrite (load_map_at _ _ _ Hobj), Hsome.
    rewrite (bind_Ret _ _ h h tt eq_refl).
    rewrite (bind_Ret _ _ _ _ _ (load_map_at _ _ _ Hobj)), Hsome.
    rewrite (bind_Ret _ _ _ _ _ (load_slice_at _ _ _ Ha)).
    replace (index >=? Z.of_nat (length stored)) with false
      by (rewrite Z.geb_leb; symmetry; apply Z.leb_gt; lia).
    unfold index_assign, bind, ret.
    rewrite (load_slice_at _ _ _ Ha).
    now replace (index <? 0) with true by (symmetry; apply Z.ltb_lt; lia).
Qed.

Lemma negative_leaf_index_panics_witness :
  setNestedValue root "tags[-3]" VNil empty_root = Panic "index out of range"
  \/ setNestedValue root "tags[-3]" VNil empty_root
     = Panic "makeslice: len out of range".
Proof.
  apply (negative_leaf_index_panics empty_root root ∅ "tags[-3]" "tags" "-3"
           (-3) VNil); try reflexivity.
  left. reflexivity.
Defined.

(** ** Writes at an index *)

(** What [ensure_slice] does when the key is absent or holds a slice:
    it returns a slice of more than [index] elements that starts with
    the stored ones, stored under the key; the slice is the stored one
    when that is long enough and a fresh one otherwise. *)
Lemma ensure_slice_grows (h : heap) (current : loc)
  (fields : gmap string value) (key : string) (index : Z)
  (stored : list value) :
  h !! current = Some (OMap fields) ->
  0 <= index /\ 16 * (index + 1) <= maxAlloc ->
  (fields !! key = None /\ stored = [])
  \/ (exists a, fields !! key = Some (VSlice a)
                /\ h !! a = Some (OSlice stored)) ->
  exists (arr : loc) (h1 : heap),
    ensure_slice current key index h = Ret (inl arr) h1
    /\ h1 !! current = Some (OMap (<[key := VSlice arr]> fields))
    /\ h1 !! arr
       = Some (OSlice (stored ++ replicate
                         (Z.to_nat index + 1 - length stored) VNil))
    /\ (forall l, (l < length h)%nat -> l <> current -> h1 !! l = h !! l).
Proof.
  intros Hcur Hidx Hkey.
  pose proof (lookup_lt_Some _ _ _ Hcur) as Hlt.
  assert (Hadd : int_add index 1 = index + 1)
    by (apply int_add_small; unfold min_int, max_int, maxAlloc in *; lia).
  unfold ensure_slice.
  rewrite (bind_Ret _ _ _ _ _ (load_map_at _ _ _ Hcur)).
  destruct Hkey as [[Hnone ->]|(a & Hsome & Ha)].
  - (* the key is absent: a slice of index+1 nils is stored *)
    rewrite Hnone, Hadd.
    set (a := length h).
    set (ha := h ++ [OSlice (replicate (Z.to_nat (index + 1)) VNil)]).
    set (hb := <[current := OMap (<[key := VSlice a]> fields)]> ha).
    assert (Hha : ha !! current = Some (OMap fields))
      by (apply lookup_app_l_Some; exact Hcur).
    assert (Hhb : hb !! current = Some (OMap (<[key := VSlice a]> fields))).
    { apply list_lookup_insert_eq. unfold ha. rewrite length_app. simpl. lia. }
    assert (Hab : hb !! a = Some (OSlice (replicate (Z.to_nat (index + 1)) VNil))).
    { unfold hb. rewrite list_lookup_insert_ne by (unfold a; lia).
      unfold ha, a. now rewrite list_lookup_middle. }
    rewrite (bind_Ret _ _ h hb tt).
    2:{ rewrite (bind_Ret _ _ _ _ _ (make_slice_at (index + 1) _ ltac:(lia) ltac:(lia))).
        apply (map_assign_at ha current fields key (VSlice a) Hha). }
    rewrite (bind_Ret _ _ _ _ _ (load_map_at _ _ _ Hhb)).
    rewrite lookup_insert_eq.
    rewrite (bind_Ret _ _ _ _ _ (load_slice_at _ _ _ Hab)).
    rewrite length_replicate.
    replace (index >=? Z.of_nat (Z.to_nat (index + 1))) with false
      by (rewrite Z.geb_leb; symmetry; apply Z.leb_gt; lia).
    exists a, hb. repeat split.
    + exact Hhb.
    + rewrite Hab. cbn [app length].
      replace (Z.to_nat index + 1 - 0)%nat with (Z.to_nat (index + 1)) by lia.
      reflexivity.
    + intros l Hl Hlc. unfold hb. rewrite list_lookup_insert_ne by congruence.
      unfold ha. now rewrite lookup_app_l by exact Hl.
  - rewrite Hsome. rewrite (bind_Ret _ _ h h tt eq_refl).
    rewrite (bind_Ret _ _ _ _ _ (load_map_at _ _ _ Hcur)).
    rewrite Hsome.
    rewrite (bind_Ret _ _ _ _ _ (load_slice_at _ _ _ Ha)).
    destruct (index >=? Z.of_nat (length stored)) eqn:Hge.
    + (* the stored slice is too short: a fresh one takes its place *)
      apply Z.geb_le in Hge. rewrite Hadd.
      rewrite (bind_Ret _ _ _ _ _ (make_slice_at (index + 1) _ ltac:(lia) ltac:(lia))).
      set (newArr := length h).
      set (fresh := replicate (Z.to_nat (index + 1)) VNil).
      set (ha := h ++ [OSlice fresh]).
      assert (Hnew : ha !! newArr = Some (OSlice fresh))
        by (unfold ha, newArr; now rewrite list_lookup_middle).
      rewrite (bind_Ret _ _ _ _ _ (load_slice_at _ _ _ Hnew)).
      unfold store at 1. unfold bind at 1.
      set (hb := <[newArr := OSlice (copy fresh stored)]> ha).
      assert (Hhb : hb !! current = Some (OMap fields)).
      { unfold hb. rewrite list_lookup_insert_ne by (unfold newArr; lia).
        apply lookup_app_l_Some. exact Hcur. }
      rewrite (bind_Ret _ _ _ _ _ (map_assign_at _ _ _ _ _ Hhb)).
      set (hc := <[current := OMap (<[key := VSlice newArr]> fields)]> hb).
      assert (Hlenb : length hb = S (length h)).
      { unfold hb, ha. rewrite length_insert, length_app. simpl. lia. }
      exists newArr, hc. repeat split.
      * apply list_lookup_insert_eq. lia.
      * unfold hc. rewrite list_lookup_insert_ne by (unfold newArr; lia).
        unfold hb. rewrite list_lookup_insert_eq
          by (unfold ha; rewrite length_app; simpl; unfold newArr; lia).
        unfold fresh. rewrite copy_into_fresh by lia.
        replace (Z.to_nat (index + 1) - length stored)%nat
          with (Z.to_nat index + 1 - length stored)%nat by lia.
        reflexivity.
      * intros l Hl Hlc. unfold hc, hb, ha.
        rewrite list_lookup_insert_ne by congruence.
        rewrite list_lookup_insert_ne by (unfold newArr; lia).
        now rewrite lookup_app_l by exact Hl.
    + (* the stored slice is long enough *)
      rewrite Z.geb_leb in Hge. apply Z.leb_gt in Hge.
      exists a, h. repeat split.
      * now rewrite insert_id.
      * rewrite Ha. replace (Z.to_nat index + 1 - length stored)%nat with 0%nat
          by lia. simpl. now rewrite app_nil_r.
Qed.

(** X12.  A path of one indexed part [key[index]] round-trips, for an
    index that is not negative and small enough for [make] to give
    [index + 1] elements (16 bytes each, within [maxAlloc]): on every
    tree where [key] is absent or holds a slice, [setNestedValue]
    succeeds, the slice under [key] is the stored elements with nils up
    to [index] and the value at [index], no other object that existed
    changes, and [getNestedValue] at the path returns the value. *)
Theorem indexed_leaf_round_trip (h : heap) (obj : loc)
  (fields : gmap string value) (path key indexStr : string) (index : Z)
  (stored : list value) (v : value) :
  h !! obj = Some (OMap fields) ->
  Contains path "." = false ->
  is_array_access path = true ->
  slice path 0 (Index path "[") = Some key ->
  slice path (Index path "[" + 1) (Index path "]") = Some indexStr ->
  Atoi indexStr = Some index ->
  0 <= index /\ 16 * (index + 1) <= maxAlloc ->
  (fields !! key = None /\ stored = [])
  \/ (exists a, fields !! key = Some (VSlice a)
                /\ h !! a = Some (OSlice stored)) ->
  exists (arr : loc) (h' : heap),
    setNestedValue obj path v h = Ret None h'
    /\ h' !! obj = Some (OMap (<[key := VSlice arr]> fields))
    /\ h' !! arr
       = Some (OSlice (<[Z.to_nat index := v]>
                         (stored ++ replicate
                            (Z.to_nat index + 1 - length stored) VNil)))
    /\ (forall l, (l < length h)%nat -> l <> obj -> l <> arr ->
                  h' !! l = h !! l)
    /\ getNestedValue obj path h' = Ret (v, None) h'.
Proof.
  intros Hobj Hdot Harr Hkey HindexStr Hatoi Hidx Hstored.
  destruct (ensure_slice_grows h obj fields key index stored Hobj Hidx Hstored)
    as (arr & h1 & Hensure & Hobj1 & Harr1 & Hframe).
  set (elems := stored ++ replicate (Z.to_nat index + 1 - length stored) VNil)
    in *.
  assert (Hlen : 0 <= index < Z.of_nat (length elems)).
  { unfold elems. rewrite length_app, length_replicate. lia. }
  assert (Hne : arr <> obj) by (intros ->; congruence).
  set (h' := <[arr := OSlice (<[Z.to_nat index := v]> elems)]> h1).
  assert (Hobj' : h' !! obj = Some (OMap (<[key := VSlice arr]> fields)))
    by (unfold h'; rewrite list_lookup_insert_ne by exact Hne; exact Hobj1).
  assert (Harr' : h' !! arr = Some (OSlice (<[Z.to_nat index := v]> elems)))
    by (apply list_lookup_insert_eq; exact (lookup_lt_Some _ _ _ Harr1)).
  exists arr, h'. split; [|split; [exact Hobj'|split; [exact Harr'|split]]].
  - unfold setNestedValue. rewrite (Split_without_sep _ _ Hdot).
    cbn [List.removelast List.last setNestedValue_loop].
    rewrite (bind_Ret _ _ h h (inl obj) eq_refl).
    rewrite Harr.
    rewrite (bind_Ret _ _ _ _ _ (substr_at _ _ _ _ h Hkey)).
    rewrite (bind_Ret _ _ _ _ _ (substr_at _ _ _ _ h HindexStr)).
    rewrite Hatoi.
    rewrite (bind_Ret _ _ _ _ _ Hensure).
    now rewrite (bind_Ret _ _ _ _ _ (index_assign_at _ _ _ _ v Harr1 Hlen)).
  - intros l Hl Hlo Hla. unfold h'.
    rewrite list_lookup_insert_ne by congruence. now apply Hframe.
  - unfold getNestedValue. rewrite (Split_without_sep _ _ Hdot).
    cbn [getNestedValue_from]. rewrite Harr.
    rewrite (bind_Ret _ _ _ _ _ (substr_at _ _ _ _ h' Hkey)).
    rewrite (bind_Ret _ _ _ _ _ (substr_at _ _ _ _ h' HindexStr)).
    rewrite Hatoi.
    rewrite (bind_Ret _ _ _ _ _ (load_map_at _ _ _ Hobj')).
    rewrite lookup_insert_eq.
    rewrite (bind_Ret _ _ _ _ _ (load_slice_at _ _ _ Harr')).
    rewrite length_insert.
    replace ((index <? 0) || (index >=? Z.of_nat (length elems))) with false
      by (symmetry; apply orb_false_iff; rewrite Z.geb_leb; split; lia).
    destruct (index_read_at h' arr _ index Harr')
      as (elem & Helem & Hread); [rewrite length_insert; lia|].
    rewrite (bind_Ret _ _ _ _ _ Hread).
    rewrite list_lookup_insert_eq in Helem by lia.
    now injection Helem as <-.
Qed.

Lemma indexed_leaf_round_trip_witness :
  exists (arr : loc) (h' : heap),
    setNestedValue root "tags[2]" (VString "new")
      tagged
    = Ret None h'
    /\ h' !! root = Some (OMap (<["tags" := VSlice arr]>
                                  {[ "tags" := VSlice 1%nat ]}))
    /\ h' !! arr
       = Some (OSlice (<[Z.to_nat 2 := VString "new"]>
                         ([VString "old"] ++ replicate
                            (Z.to_nat 2 + 1 - length [VString "old"]) VNil)))
    /\ (forall l, (l < 2)%nat -> l <> root -> l <> arr ->
                  h' !! l
                  = [OMap {[ "tags" := VSlice 1%nat ]};
                     OSlice [VString "old"]] !! l)
    /\ getNestedValue root "tags[2]" h' = Ret (VString "new", None) h'.
Proof.
  apply (indexed_leaf_round_trip
           [OMap {[ "tags" := VSlice 1%nat ]}; OSlice [VString "old"]]
           root {[ "tags" := VSlice 1%nat ]} "tags[2]" "tags" "2" 2
           [VString "old"] (VString "new"));
    try reflexivity.
  - unfold maxAlloc. lia.
  - right. exists 1%nat. split; [vm_compute; reflexivity|reflexivity].
Defined.

(** X13.  A path that starts with an indexed part and goes on with two
    or more plain parts round-trips on every tree that lacks the key,
    for an index that is not negative and small enough for [make] to
    give [index + 1] elements (16 bytes each, within [maxAlloc]): the
    element at the index becomes a fresh map and the rest of the path
    is built below it. *)
Theorem indexed_head_round_trip (h : heap) (obj : loc)
  (fields : gmap string value) (path head key indexStr last : string)
  (inter : list string) (index : Z) (v : value) :
  h !! obj = Some (OMap fields) ->
  Split path "." = head :: inter ++ [last] ->
  inter <> [] ->
  is_array_access head = true ->
  slice head 0 (Index head "[") = Some key ->
  slice head (Index head "[" + 1) (Index head "]") = Some indexStr ->
  Atoi indexStr = Some index ->
  0 <= index /\ 16 * (index + 1) <= maxAlloc ->
  fields !! key = None ->
  Forall (fun part => is_array_access part = false) (inter ++ [last]) ->
  exists h' : heap,
    setNestedValue obj path v h = Ret None h'
    /\ getNestedValue obj path h' = Ret (v, None) h'.
Proof.
  intros Hobj Hsplit Hinter Harr Hkey HindexStr Hatoi Hidx Hfresh Hplain.
  apply Forall_app in Hplain as [Hplain Hlast].
  apply Forall_cons in Hlast as [Hlast _].
  destruct (ensure_slice_grows h obj fields key index [] Hobj Hidx)
    as (arr & h1 & Hensure & Hobj1 & Harr1 & _); [now left|].
  cbn [app length] in Harr1.
  set (nils := replicate (Z.to_nat index + 1 - 0) VNil) in *.
  assert (Hlen : 0 <= index < Z.of_nat (length nils))
    by (unfold nils; rewrite length_replicate; lia).
  assert (Hne : arr <> obj) by (intros ->; congruence).
  pose proof (lookup_lt_Some _ _ _ Hobj1) as Hlt_obj.
  pose proof (lookup_lt_Some _ _ _ Harr1) as Hlt_arr.
  set (m := length h1).
  set (h2 := h1 ++ [OMap ∅]).
  set (h3 := <[arr := OSlice (<[Z.to_nat index := VMap m]> nils)]> h2).
  assert (Harr2 : h2 !! arr = Some (OSlice nils))
    by (apply lookup_app_l_Some; exact Harr1).
  assert (Harr3 : h3 !! arr
                  = Some (OSlice (<[Z.to_nat index := VMap m]> nils))).
  { apply list_lookup_insert_eq. unfold h2. rewrite length_app. simpl. lia. }
  assert (Hm3 : h3 !! m = Some (OMap ∅)).
  { unfold h3. rewrite list_lookup_insert_ne by (unfold m; lia).
    unfold h2, m. now rewrite list_lookup_middle. }
  assert (Hobj3 : h3 !! obj = Some (OMap (<[key := VSlice arr]> fields))).
  { unfold h3. rewrite list_lookup_insert_ne by exact Hne.
    apply lookup_app_l_Some. exact Hobj1. }
  assert (Hlen3 : length h3 = S (length h1)).
  { unfold h3, h2. rewrite length_insert, length_app. simpl. lia. }
  set (n := Z.of_nat (length (head :: inter ++ [last]))).
  destruct (setNestedValue_loop_plain inter n (0 + 1) m h3 ∅ Hplain Hm3)
    as (final & h4 & reached & Hloop & Hfinal & Hwhere & Hframe & Hwalk).
  { intros part _. apply lookup_empty. }
  assert (Hfinal_ge : (length h1 <= final)%nat).
  { destruct Hwhere as [->|Hge]; [unfold m|rewrite Hlen3 in Hge]; lia. }
  set (h' := <[final := OMap (<[last := v]> reached)]> h4).
  assert (Hobj' : h' !! obj = Some (OMap (<[key := VSlice arr]> fields))).
  { unfold h'. rewrite list_lookup_insert_ne by lia.
    rewrite Hframe; [exact Hobj3|rewrite Hlen3; lia|unfold m; lia]. }
  assert (Harr' : h' !! arr
                  = Some (OSlice (<[Z.to_nat index := VMap m]> nils))).
  { unfold h'. rewrite list_lookup_insert_ne by lia.
    rewrite Hframe; [exact Harr3|rewrite Hlen3; lia|unfold m; lia]. }
  assert (Hfinal' : h' !! final = Some (OMap (<[last := v]> reached))).
  { apply list_lookup_insert_eq. exact (lookup_lt_Some _ _ _ Hfinal). }
  exists h'. split.
  - unfold setNestedValue. rewrite Hsplit. fold n.
    replace (List.removelast (head :: inter ++ [last])) with (head :: inter).
    2:{ change (head :: inter ++ [last]) with ((head :: inter) ++ [last]).
        now rewrite List.removelast_last. }
    replace (List.last (head :: inter ++ [last]) EmptyString) with last.
    2:{ change (head :: inter ++ [last]) with ((head :: inter) ++ [last]).
        now rewrite List.last_last. }
    assert (Hloop0 : setNestedValue_loop n 0 obj (head :: inter) h
                     = Ret (inl final) h4).
    { cbn [setNestedValue_loop]. rewrite Harr.
      rewrite (bind_Ret _ _ _ _ _ (substr_at _ _ _ _ h Hkey)).
      rewrite (bind_Ret _ _ _ _ _ (substr_at _ _ _ _ h HindexStr)).
      rewrite Hatoi.
      rewrite (bind_Ret _ _ _ _ _ Hensure).
      replace (0 <? n - 2) with true.
      2:{ symmetry. apply Z.ltb_lt. unfold n. cbn [length].
          rewrite length_app. cbn [length].
          destruct inter; [contradiction|]. cbn [length]. lia. }
      destruct (index_read_at h1 arr nils index Harr1 Hlen)
        as (elem & Helem & Hread).
      assert (elem = VNil) as ->.
      { unfold nils in Helem. apply lookup_replicate in Helem. tauto. }
      rewrite (bind_Ret _ _ _ _ _ Hread).
      rewrite (bind_Ret _ _ h1 h3 tt).
      2:{ unfold make_map. rewrite (bind_Ret _ _ _ _ _ (new_at _ _)).
          apply (index_assign_at h2 arr nils index (VMap m) Harr2 Hlen). }
      destruct (index_read_at h3 arr _ index Harr3)
        as (elem & Helem' & Hread'); [rewrite length_insert; lia|].
      rewrite list_lookup_insert_eq in Helem' by lia.
      injection Helem' as <-.
      rewrite (bind_Ret _ _ _ _ _ Hread'). exact Hloop. }
    rewrite (bind_Ret _ _ _ _ _ Hloop0). rewrite Hlast.
    now rewrite (bind_Ret _ _ _ _ _ (map_assign_at _ _ _ _ _ Hfinal)).
  - unfold getNestedValue. rewrite Hsplit. cbn [getNestedValue_from].
    rewrite Harr.
    rewrite (bind_Ret _ _ _ _ _ (substr_at _ _ _ _ h' Hkey)).
    rewrite (bind_Ret _ _ _ _ _ (substr_at _ _ _ _ h' HindexStr)).
    rewrite Hatoi.
    rewrite (bind_Ret _ _ _ _ _ (load_map_at _ _ _ Hobj')).
    rewrite lookup_insert_eq.
    rewrite (bind_Ret _ _ _ _ _ (load_slice_at _ _ _ Harr')).
    rewrite length_insert.
    replace ((index <? 0) || (index >=? Z.of_nat (length nils))) with false
      by (symmetry; apply orb_false_iff; rewrite Z.geb_leb; split; lia).
    destruct (index_read_at h' arr _ index Harr')
      as (elem & Helem & Hread); [rewrite length_insert; lia|].
    rewrite list_lookup_insert_eq in Helem by lia. injection Helem as <-.
    rewrite (bind_Ret _ _ _ _ _ Hread).
    unfold h'. rewrite Hwalk. fold h'. cbn [getNestedValue_from].
    rewrite Hlast.
    rewrite (bind_Ret _ _ _ _ _ (load_map_at _ _ _ Hfinal')).
    now rewrite lookup_insert_eq.
Qed.

Lemma indexed_head_round_trip_witness :
  exists h' : heap,
    setNestedValue root "variants[0].option.name" (VString "Size") empty_root
    = Ret None h'
    /\ getNestedValue root "variants[0].option.name" h'
       = Ret (VString "Size", None) h'.
Proof.
  apply (indexed_head_round_trip empty_root root ∅ "variants[0].option.name"
           "variants[0]" "variants" "0" "name" ["option"] 0 (VString "Size"));
    try reflexivity; try discriminate.
  - unfold maxAlloc. lia.
  - repeat constructor.
Defined.

(** ** [array_map] *)

Lemma keeps_prefix (h h' : heap) : h `prefix_of` h' -> keeps h h'.
Proof. intros [ext ->]. apply keeps_app. Qed.

Lemma keeps_trans (h1 h2 h3 : heap) : keeps h1 h2 -> keeps h2 h3 -> keeps h1 h3.
Proof. intros H12 H23 v Hv. auto. Qed.

Lemma prefix_store (h0 h : heap) (l : loc) (o : object) :
  h0 `prefix_of` h -> (length h0 <= l)%nat -> h0 `prefix_of` <[l := o]> h.
Proof.
  intros [ext ->] Hl. exists (<[(l - length h0)%nat := o]> ext).
  now rewrite insert_app_r_alt.
Qed.

Lemma prefix_new (h0 h : heap) (o : object) :
  h0 `prefix_of` h -> h0 `prefix_of` h ++ [o].
Proof. intros H. now apply prefix_app_r. Qed.

Lemma source_walk_safe (h : heap) (paths : list string) :
  closed h = true ->
  forall current : loc,
    valid h (VMap current) = true ->
    exists r : option value,
      source_walk current paths h = Ret r h
      /\ forall v, r = Some v -> valid h v = true.
Proof.
  intros Hc. induction paths as [|path rest IH]; intros current Hv.
  - exists (Some VNil). split; [reflexivity|]. now intros v [= <-].
  - destruct (valid_map _ _ Hv) as [fields Hm].
    destruct rest as [|next rest].
    + cbn [source_walk].
      rewrite (bind_Ret _ _ _ _ _ (load_map_at _ _ _ Hm)).
      eexists. split; [reflexivity|]. intros v [= <-].
      destruct (fields !! path) as [x|] eqn:Hx; [|reflexivity].
      exact (closed_field _ _ _ _ _ Hc Hm Hx).
    + change (source_walk current (path :: next :: rest))
        with (let! fields := load_map current in
              match fields !! path with
              | Some (VMap nextMap) => source_walk nextMap (next :: rest)
              | _ => ret None
              end).
      rewrite (bind_Ret _ _ _ _ _ (load_map_at _ _ _ Hm)).
      destruct (fields !! path) as [x|] eqn:Hx;
        [|exists None; split; [reflexivity|discriminate]].
      pose proof (closed_field _ _ _ _ _ Hc Hm Hx) as Hvx.
      destruct x; try (exists None; split; [reflexivity|discriminate]).
      now apply IH.
Qed.

Lemma dest_walk_safe (h0 : heap) (mappedValue : value) (paths : list string) :
  forall (h : heap) (current : loc),
    closed h = true ->
    h !! current = Some (OMap ∅) ->
    valid h mappedValue = true ->
    h0 `prefix_of` h -> (length h0 <= current)%nat ->
    exists h' : heap,
      dest_walk current paths mappedValue h = Ret tt h'
      /\ closed h' = true /\ keeps h h' /\ h0 `prefix_of` h'.
Proof.
  induction paths as [|path rest IH]; intros h current Hc Hm Hv Hpre Hge.
  - exists h. now repeat split.
  - destruct rest as [|next rest].
    + cbn [dest_walk]. rewrite (map_assign_at _ _ _ _ _ Hm).
      eexists. split; [reflexivity|]. repeat split.
      * now apply closed_map_assign.
      * exact (keeps_store_map _ _ _ _ Hm).
      * now apply prefix_store.
    + change (dest_walk current (path :: next :: rest) mappedValue)
        with (let! fields := load_map current in
              let! _ := match fields !! path with
                        | None =>
                            let! m := make_map in
                            map_assign current path (VMap m)
                        | Some _ => ret tt
                        end in
              let! fields := load_map current in
              match fields !! path with
              | Some (VMap nextMap) =>
                  dest_walk nextMap (next :: rest) mappedValue
              | _ => panic "interface conversion: not a map"
              end).
      rewrite (bind_Ret _ _ _ _ _ (load_map_at _ _ _ Hm)).
      rewrite lookup_empty.
      pose proof (lookup_lt_Some _ _ _ Hm) as Hlt.
      set (m := length h).
      set (ha := h ++ [OMap ∅]).
      set (hb := <[current := OMap (<[path := VMap m]> ∅)]> ha).
      assert (Hha : ha !! current = Some (OMap ∅))
        by (apply lookup_app_l_Some; exact Hm).
      assert (Hca : closed ha = true).
      { apply closed_new; [exact Hc|]. apply object_closed_map.
        intros k v Hk. now rewrite lookup_empty in Hk. }
      assert (Hma : ha !! m = Some (OMap ∅))
        by (unfold ha, m; now rewrite list_lookup_middle).
      assert (Hcb : closed hb = true).
      { apply closed_map_assign; [exact Hca|exact Hha|].
        cbn [valid]. now rewrite Hma. }
      assert (Hmb : hb !! m = Some (OMap ∅)).
      { unfold hb. rewrite list_lookup_insert_ne by (unfold m; lia).
        exact Hma. }
      assert (Hkb : keeps h hb).
      { eapply keeps_trans; [apply keeps_app|].
        exact (keeps_store_map _ _ _ _ Hha). }
      destruct (IH hb m Hcb Hmb (Hkb _ Hv)) as (h' & Hwalk & Hc' & Hk' & Hp').
      { apply prefix_store; [now apply prefix_new|exact Hge]. }
      { unfold m. lia. }
      exists h'. repeat split; [|exact Hc'| |exact Hp'].
      * rewrite (bind_Ret _ _ h hb tt).
        -- assert (Hcur : hb !! current
                          = Some (OMap (<[path := VMap m]> ∅))).
           { apply list_lookup_insert_eq. unfold ha.
             rewrite length_app. simpl. lia. }
           rewrite (bind_Ret _ _ _ _ _ (load_map_at _ _ _ Hcur)).
           rewrite lookup_insert_eq. exact Hwalk.
        -- unfold make_map. rewrite (bind_Ret _ _ _ _ _ (new_at _ _)).
           apply (map_assign_at ha current ∅ path (VMap m) Hha).
      * eapply keeps_trans; [exact Hkb|exact Hk'].
Qed.

Lemma transformSingleObject_safe (h : heap) (item : loc)
  (config : ArrayMapConfig) :
  closed h = true -> valid h (VMap item) = true ->
  exists h' : heap,
    transformSingleObject item config h = Ret (length h) h'
    /\ closed h' = true /\ h `prefix_of` h'
    /\ valid h' (VMap (length h)) = true.
Proof.
  intros Hc Hitem. unfold transformSingleObject, make_map.
  rewrite (bind_Ret _ _ _ _ _ (new_at _ _)).
  set (result := length h). set (h1 := h ++ [OMap ∅]).
  assert (Hc1 : closed h1 = true).
  { apply closed_new; [exact Hc|]. apply object_closed_map.
    intros k v Hk. now rewrite lookup_empty in Hk. }
  assert (Hres : h1 !! result = Some (OMap ∅))
    by (unfold h1, result; now rewrite list_lookup_middle).
  assert (Hk1 : keeps h h1) by apply keeps_app.
  assert (Hp1 : h `prefix_of` h1) by now apply prefix_app_r.
  assert (Hvalid1 : valid h1 (VMap result) = true)
    by (cbn [valid]; now rewrite Hres).
  assert (Hfound : exists found : option value,
             (if String.eqb (SourcePath config) ""
              then ret (Some (VMap item))
              else source_walk item (Split (SourcePath config) ".")) h1
             = Ret found h1
             /\ forall v, found = Some v -> valid h1 v = true).
  { destruct (String.eqb (SourcePath config) "").
    - exists (Some (VMap item)). split; [reflexivity|].
      intros v [= <-]. now apply Hk1.
    - apply source_walk_safe; [exact Hc1|now apply Hk1]. }
  destruct Hfound as (found & Hfound & Hvfound).
  rewrite (bind_Ret _ _ _ _ _ Hfound).
  destruct found as [sourceValue|];
    [|exists h1; now repeat split].
  specialize (Hvfound _ eq_refl).
  set (mappedValue := match Mapping config, sourceValue with
                      | Some table, VString sourceStr =>
                          match table !! sourceStr with
                          | Some mapped => VString mapped
                          | None => sourceValue
                          end
                      | _, _ => sourceValue
                      end).
  assert (Hmapped : valid h1 mappedValue = true).
  { unfold mappedValue. destruct (Mapping config) as [table|]; [|exact Hvfound].
    destruct sourceValue; try exact Hvfound.
    now destruct (table !! s). }
  destruct (String.eqb (DestPath config) "").
  - destruct (valid_map _ _ (Hk1 _ Hitem)) as [fields Hfields].
    rewrite (bind_Ret _ _ h1 (<[result := OMap (fields ∪ ∅)]> h1) tt).
    + eexists. split; [reflexivity|]. repeat split.
      * apply closed_store; [exact Hc1| |].
        -- exact (keeps_store_map _ _ _ _ Hres).
        -- apply object_closed_map. intros k v Hk.
           rewrite (right_id ∅ (∪)) in Hk.
           exact (closed_field _ _ _ _ _ Hc1 Hfields Hk).
      * apply prefix_store; [exact Hp1|unfold result; lia].
      * exact (keeps_store_map _ _ _ _ Hres _ Hvalid1).
    + rewrite (bind_Ret _ _ _ _ _ (load_map_at _ _ _ Hfields)).
      rewrite (bind_Ret _ _ _ _ _ (load_map_at _ _ _ Hres)).
      reflexivity.
  - destruct (dest_walk_safe h mappedValue (Split (DestPath config) ".")
                h1 result Hc1 Hres Hmapped Hp1)
      as (h' & Hwalk & Hc' & Hk' & Hp'); [unfold result; lia|].
    rewrite (bind_Ret _ _ _ _ _ Hwalk).
    exists h'. repeat split; auto.
Qed.

Lemma transformArray_items_safe (config : ArrayMapConfig)
  (items : list value) :
  forall h : heap,
    closed h = true ->
    Forall (fun v => valid h v = true) items ->
    exists (dests : list value) (h' : heap),
      transformArray_items items config h = Ret dests h'
      /\ closed h' = true /\ h `prefix_of` h'
      /\ Forall (fun v => valid h' v = true) dests
      /\ Forall (fun v => is_object v = true) dests
      /\ length dests = length (filter (fun v => is_object v = true) items).
Proof.
  induction items as [|item rest IH]; intros h Hc Hitems.
  - exists [], h. repeat split; auto.
  - apply Forall_cons in Hitems as [Hitem Hrest].
    destruct item;
      try (destruct (IH h Hc Hrest) as (dests & h' & Hrun & H');
           exists dests, h'; split; [exact Hrun|exact H']).
    cbn [transformArray_items].
    destruct (transformSingleObject_safe h m config Hc Hitem)
      as (h1 & Hone & Hc1 & Hp1 & Hv1).
    rewrite (bind_Ret _ _ _ _ _ Hone).
    destruct (IH h1 Hc1) as (dests & h' & Hrun & Hc' & Hp' & Hvs & Hos & Hlen).
    { eapply Forall_impl; [exact Hrest|]. intros v. apply keeps_prefix, Hp1. }
    rewrite (bind_Ret _ _ _ _ _ Hrun).
    exists (VMap (length h) :: dests), h'. repeat split.
    + exact Hc'.
    + now transitivity h1.
    + constructor; [exact (keeps_prefix _ _ Hp' _ Hv1)|exact Hvs].
    + constructor; [reflexivity|exact Hos].
    + rewrite filter_cons_True by reflexivity. simpl. now rewrite Hlen.
Qed.

Lemma transformArray_safe (h : heap) (v : value) (config : ArrayMapConfig) :
  closed h = true -> valid h v = true ->
  exists (r : result) (ext : heap),
    transformArray v config h = Ret r (h ++ ext)
    /\ closed (h ++ ext) = true
    /\ match v with
       | VSlice a =>
           exists (sourceArray dests : list value) (destArray : loc),
             h !! a = Some (OSlice sourceArray)
             /\ r = (VSlice destArray, None)
             /\ (h ++ ext) !! destArray = Some (OSlice dests)
             /\ Forall (fun d => is_object d = true) dests
             /\ length dests
                = length (filter (fun x => is_object x = true) sourceArray)
       | VMap _ =>
           exists (single destArray : loc),
             r = (VSlice destArray, None)
             /\ (h ++ ext) !! destArray = Some (OSlice [VMap single])
       | _ => r = (VNil, Some (Errorf "value is not an array or object"))
              /\ ext = []
       end.
Proof.
  intros Hc Hv. unfold transformArray.
  destruct v;
    try (eexists; exists []; rewrite app_nil_r;
         split; [reflexivity|]; now split).
  - destruct (valid_slice _ _ Hv) as [sourceArray Ha].
    rewrite (bind_Ret _ _ _ _ _ (load_slice_at _ _ _ Ha)).
    destruct (transformArray_items_safe config sourceArray h Hc)
      as (dests & h' & Hrun & Hc' & [ext ->] & Hvs & Hos & Hlen).
    { apply object_closed_slice. exact (closed_object _ _ _ Hc Ha). }
    rewrite (bind_Ret _ _ _ _ _ Hrun).
    rewrite (bind_Ret _ _ _ _ _ (new_at _ _)).
    eexists. exists (ext ++ [OSlice dests]). rewrite app_assoc.
    split; [reflexivity|]. split.
    + apply closed_new; [exact Hc'|]. now apply object_closed_slice.
    + exists sourceArray, dests, (length (h ++ ext)).
      repeat split; auto. now rewrite list_lookup_middle.
  - destruct (transformSingleObject_safe h m config Hc Hv)
      as (h' & Hone & Hc' & [ext ->] & Hv').
    rewrite (bind_Ret _ _ _ _ _ Hone).
    rewrite (bind_Ret _ _ _ _ _ (new_at _ _)).
    eexists. exists (ext ++ [OSlice [VMap (length h)]]). rewrite app_assoc.
    split; [reflexivity|]. split.
    + apply closed_new; [exact Hc'|]. apply object_closed_slice.
      now constructor.
    + exists (length h), (length (h ++ ext)).
      split; [reflexivity|]. now rewrite list_lookup_middle.
Qed.

(** X14.  [array_map] is safe on every closed heap: it never panics
    (the unchecked type assertion of the destination loop included),
    only adds objects to the heap, so that the source document is as it
    was, and leaves the heap closed.  An array gives an array with one
    object per object element, other elements dropped; a single object
    gives an array of one; any other value the error. *)
Theorem array_map_is_safe (h : heap) (v : value) (config : ArrayMapConfig) :
  closed h = true -> valid h v = true ->
  exists (r : result) (ext : heap),
    transformArray v config h = Ret r (h ++ ext)
    /\ closed (h ++ ext) = true
    /\ match v with
       | VSlice a =>
           exists (sourceArray dests : list value) (destArray : loc),
             h !! a = Some (OSlice sourceArray)
             /\ r = (VSlice destArray, None)
             /\ (h ++ ext) !! destArray = Some (OSlice dests)
             /\ Forall (fun d => is_object d = true) dests
             /\ length dests
                = length (filter (fun x => is_object x = true) sourceArray)
       | VMap _ =>
           exists (single destArray : loc),
             r = (VSlice destArray, None)
             /\ (h ++ ext) !! destArray = Some (OSlice [VMap single])
       | _ => r = (VNil, Some (Errorf "value is not an array or object"))
              /\ ext = []
       end.
Proof. apply transformArray_safe. Qed.

Lemma array_map_is_safe_witness :
  exists (r : result) (ext : heap),
    transformArray (VSlice 2%nat) url_to_src gallery = Ret r (gallery ++ ext)
    /\ closed (gallery ++ ext) = true
    /\ exists (sourceArray dests : list value) (destArray : loc),
         gallery !! 2%nat = Some (OSlice sourceArray)
         /\ r = (VSlice destArray, None)
         /\ (gallery ++ ext) !! destArray = Some (OSlice dests)
         /\ Forall (fun d => is_object d = true) dests
         /\ length dests
            = length (filter (fun x => is_object x = true) sourceArray).
Proof.
  apply (array_map_is_safe gallery (VSlice 2%nat) url_to_src);
    vm_compute; reflexivity.
Defined.

(** ** Shared objects *)

Lemma plain_key_spec (key : string) :
  plain_key key = true ->
  Contains key "." = false /\ is_array_access key = false.
Proof.
  unfold plain_key. intros H. apply andb_true_iff in H as [H1 H2].
  now apply negb_true_iff in H1, H2.
Qed.

Lemma get_plain_key (h : heap) (obj : loc) (fields : gmap string value)
  (key : string) (v : value) :
  h !! obj = Some (OMap fields) -> plain_key key = true ->
  fields !! key = Some v ->
  getNestedValue obj key h = Ret (v, None) h.
Proof.
  intros Hobj Hkey Hv. apply plain_key_spec in Hkey as [Hdot Harr].
  unfold getNestedValue. rewrite (Split_without_sep _ _ Hdot).
  cbn [getNestedValue_from]. rewrite Harr.
  rewrite (bind_Ret _ _ _ _ _ (load_map_at _ _ _ Hobj)). now rewrite Hv.
Qed.

Lemma set_plain_key (h : heap) (obj : loc) (fields : gmap string value)
  (key : string) (v : value) :
  h !! obj = Some (OMap fields) -> plain_key key = true ->
  setNestedValue obj key v h
  = Ret None (<[obj := OMap (<[key := v]> fields)]> h).
Proof.
  intros Hobj Hkey. apply plain_key_spec in Hkey as [Hdot Harr].
  unfold setNestedValue. rewrite (Split_without_sep _ _ Hdot).
  cbn [List.removelast List.last setNestedValue_loop].
  rewrite (bind_Ret _ _ h h (inl obj) eq_refl). rewrite Harr.
  now rewrite (bind_Ret _ _ _ _ _ (map_assign_at _ _ _ _ _ Hobj)).
Qed.

Lemma Split_two (a b : string) :
  Contains a "." = false -> Contains b "." = false ->
  Split (a +:+ "." +:+ b) "." = [a; b].
Proof.
  intros Ha Hb. change (a +:+ "." +:+ b) with (a +:+ String "." b).
  now rewrite Split_app, (Split_without_sep _ _ Ha), (Split_without_sep _ _ Hb).
Qed.

Lemma apply_none (lib : Library) (v : value) (mapping : FieldMapping)
  (h : heap) :
  TransformType mapping = TransformationTypeNone ->
  applyTransformation lib v mapping h = Ret (v, None) h.
Proof. intros Htype. unfold applyTransformation. now rewrite Htype. Qed.

(** X15.  The destination shares the objects it copies: after a rule
    that copies an object of the source to [d] and a rule that writes
    the field [d.k], the object of the source document itself holds
    [k], and the source document reads back the value at [s.k]. *)
Theorem copied_object_is_shared (lib : Library) (sourceObj destObj shared : loc)
  (h : heap) (source dest inner : gmap string value) (s d s2 k : string)
  (v : value) (required1 required2 : bool) :
  h !! sourceObj = Some (OMap source) ->
  h !! destObj = Some (OMap dest) ->
  h !! shared = Some (OMap inner) ->
  sourceObj <> destObj -> shared <> destObj -> shared <> sourceObj ->
  source !! s = Some (VMap shared) ->
  source !! s2 = Some v ->
  Forall (fun key => plain_key key = true) [s; d; s2; k] ->
  exists h' : heap,
    TransformData_loop lib sourceObj destObj
      [ mapping_of TransformationTypeNone s d required1;
        mapping_of TransformationTypeNone s2 (d +:+ "." +:+ k) required2 ] h
    = Ret None h'
    /\ h' !! shared = Some (OMap (<[k := v]> inner))
    /\ getNestedValue sourceObj (s +:+ "." +:+ k) h' = Ret (v, None) h'.
Proof.
  intros Hsrc Hdst Hshared Hsd Hshd Hshs Hs Hs2 Hkeys.
  apply Forall_cons in Hkeys as [Hps Hkeys].
  apply Forall_cons in Hkeys as [Hpd Hkeys].
  apply Forall_cons in Hkeys as [Hps2 Hkeys].
  apply Forall_cons in Hkeys as [Hpk _].
  destruct (plain_key_spec _ Hps) as [Hs_dot Hs_arr].
  destruct (plain_key_spec _ Hpd) as [Hd_dot Hd_arr].
  destruct (plain_key_spec _ Hpk) as [Hk_dot Hk_arr].
  pose proof (lookup_lt_Some _ _ _ Hdst) as Hlt_dst.
  pose proof (lookup_lt_Some _ _ _ Hshared) as Hlt_shared.
  set (h1 := <[destObj := OMap (<[d := VMap shared]> dest)]> h).
  set (h2 := <[shared := OMap (<[k := v]> inner)]> h1).
  assert (Hsrc1 : h1 !! sourceObj = Some (OMap source))
    by (unfold h1; now rewrite list_lookup_insert_ne by congruence).
  assert (Hdst1 : h1 !! destObj = Some (OMap (<[d := VMap shared]> dest)))
    by (now apply list_lookup_insert_eq).
  assert (Hshared1 : h1 !! shared = Some (OMap inner))
    by (unfold h1; now rewrite list_lookup_insert_ne by congruence).
  assert (Hsrc2 : h2 !! sourceObj = Some (OMap source))
    by (unfold h2; now rewrite list_lookup_insert_ne by congruence).
  assert (Hshared2 : h2 !! shared = Some (OMap (<[k := v]> inner))).
  { apply list_lookup_insert_eq. unfold h1. now rewrite length_insert. }
  exists h2. split; [|split; [exact Hshared2|]].
  - cbn [TransformData_loop mapping_of SourceField DestField IsRequired
           DefaultValue].
    rewrite (bind_Ret _ _ _ _ _ (get_plain_key _ _ _ _ _ Hsrc Hps Hs)).
    cbv beta iota zeta.
    rewrite (bind_Ret _ _ _ _ _ (apply_none lib _ (mapping_of TransformationTypeNone s d required1) h
               eq_refl)).
    cbn [mapping_of DestField].
    rewrite (bind_Ret _ _ _ _ _ (set_plain_key _ _ _ _ _ Hdst Hpd)).
    fold h1.
    rewrite (bind_Ret _ _ _ _ _ (get_plain_key _ _ _ _ _ Hsrc1 Hps2 Hs2)).
    cbv beta iota zeta.
    rewrite (bind_Ret _ _ _ _ _ (apply_none lib _
               (mapping_of TransformationTypeNone s2 (d +:+ "." +:+ k)
                  required2) h1 eq_refl)).
    cbn [mapping_of DestField].
    rewrite (bind_Ret _ _ h1 h2 None); [reflexivity|].
    unfold setNestedValue. rewrite (Split_two _ _ Hd_dot Hk_dot).
    cbn [List.removelast List.last length].
    assert (Hloop : forall n i,
               setNestedValue_loop n i destObj [d] h1 = Ret (inl shared) h1).
    { intros n i. cbn [setNestedValue_loop]. rewrite Hd_arr.
      rewrite (bind_Ret _ _ _ _ _ (load_map_at _ _ _ Hdst1)).
      rewrite lookup_insert_eq.
      rewrite (bind_Ret _ _ h1 h1 tt eq_refl).
      rewrite (bind_Ret _ _ _ _ _ (load_map_at _ _ _ Hdst1)).
      now rewrite lookup_insert_eq. }
    rewrite (bind_Ret _ _ _ _ _ (Hloop _ _)).
    rewrite Hk_arr.
    now rewrite (bind_Ret _ _ _ _ _ (map_assign_at _ _ _ _ _ Hshared1)).
  - unfold getNestedValue. rewrite (Split_two _ _ Hs_dot Hk_dot).
    cbn [getNestedValue_from]. rewrite Hs_arr.
    rewrite (bind_Ret _ _ _ _ _ (load_map_at _ _ _ Hsrc2)), Hs.
    rewrite Hk_arr.
    rewrite (bind_Ret _ _ _ _ _ (load_map_at _ _ _ Hshared2)).
    now rewrite lookup_insert_eq.
Qed.

Lemma copied_object_is_shared_witness :
  exists h' : heap,
    TransformData_loop (shirt_library []) 0%nat 2%nat
      [ mapping_of TransformationTypeNone "seo" "seo" false;
        mapping_of TransformationTypeNone "name" "seo.title" false ]
      shirt_with_seo
    = Ret None h'
    /\ h' !! 1%nat
       = Some (OMap (<["title" := VString "Shirt"]>
                       {[ "keywords" := VString "cotton" ]}))
    /\ getNestedValue 0%nat "seo.title" h' = Ret (VString "Shirt", None) h'.
Proof.
  apply (copied_object_is_shared (shirt_library []) 0%nat 2%nat 1%nat
           shirt_with_seo
           {[ "name" := VString "Shirt"; "seo" := VMap 1%nat ]} ∅
           {[ "keywords" := VString "cotton" ]}
           "seo" "seo" "name" "title" (VString "Shirt") false false);
    try reflexivity; try discriminate; try (vm_compute; reflexivity).
  repeat constructor.
Defined.

(** ** Rules that copy a field *)

Lemma get_plain_key_missing (h : heap) (obj : loc)
  (fields : gmap string value) (key : string) :
  h !! obj = Some (OMap fields) -> plain_key key = true ->
  fields !! key = None ->
  getNestedValue obj key h
  = Ret (VNil, Some (Errorf ("field " +:+ key +:+ " not found"))) h.
Proof.
  intros Hobj Hkey Hv. apply plain_key_spec in Hkey as [Hdot Harr].
  unfold getNestedValue. rewrite (Split_without_sep _ _ Hdot).
  cbn [getNestedValue_from]. rewrite Harr.
  rewrite (bind_Ret _ _ _ _ _ (load_map_at _ _ _ Hobj)). now rewrite Hv.
Qed.

(** X26.  Rules without transformation between plain keys build the
    destination one field after the other: the run succeeds, touches
    nothing but the destination map, and leaves in it, on top of what
    it held, each rule's source value (or default value) under the
    rule's destination key, a later rule overwriting an earlier one; a
    rule whose source field is absent and that has no default adds
    nothing.  The values are copied by reference. *)
Theorem plain_rules_copy_fields (lib : Library) (sourceObj destObj : loc)
  (source : gmap string value) (rules : list FieldMapping) :
  sourceObj <> destObj ->
  Forall (copies source) rules ->
  forall (h : heap) (dest : gmap string value),
    h !! sourceObj = Some (OMap source) ->
    h !! destObj = Some (OMap dest) ->
    TransformData_loop lib sourceObj destObj rules h
    = Ret None (<[destObj := OMap (foldl (copy_rule source) dest rules)]> h).
Proof.
  intros Hne Hrules.
  induction Hrules as [|mapping rest (Htype & Hsrc & Hdst & Hreq) _ IH];
    intros h dest Hsource Hdest.
  - cbn [foldl TransformData_loop]. now rewrite list_insert_id.
  - pose proof (lookup_lt_Some _ _ _ Hdest) as Hlt.
    assert (Hstep : forall v,
               (let! transformed := applyTransformation lib v mapping in
                match transformed with
                | (_, Some err) =>
                    ret (Some (Wrapf ("error transforming field "
                                      +:+ SourceField mapping) err))
                | (transformedValue, None) =>
                    let! set :=
                      setNestedValue destObj (DestField mapping)
                        transformedValue in
                    match set with
                    | Some err =>
                        ret (Some (Wrapf ("error setting field "
                                          +:+ DestField mapping) err))
                    | None => TransformData_loop lib sourceObj destObj rest
                    end
                end) h
               = Ret None
                   (<[destObj := OMap (foldl (copy_rule source)
                                         (<[DestField mapping := v]> dest)
                                         rest)]> h)).
    { intros v.
      rewrite (bind_Ret _ _ _ _ _ (apply_none lib v mapping h Htype)).
      rewrite (bind_Ret _ _ _ _ _ (set_plain_key _ _ _ _ v Hdest Hdst)).
      rewrite (IH _ (<[DestField mapping := v]> dest)).
      - now rewrite list_insert_insert_eq.
      - now rewrite list_lookup_insert_ne by congruence.
      - now apply list_lookup_insert_eq. }
    cbn [foldl TransformData_loop]. unfold copy_rule at 2, rule_value.
    destruct (source !! SourceField mapping) as [v|] eqn:Hv.
    + rewrite (bind_Ret _ _ _ _ _ (get_plain_key _ _ _ _ _ Hsource Hsrc Hv)).
      apply Hstep.
    + rewrite (bind_Ret _ _ _ _ _
                 (get_plain_key_missing _ _ _ _ Hsource Hsrc Hv)).
      destruct (IsRequired mapping);
        [destruct (Hreq eq_refl) as [x Hx]; discriminate|].
      destruct (String.eqb (DefaultValue mapping) ""); cbn [negb].
      * now apply IH.
      * apply Hstep.
Qed.

Lemma plain_rules_copy_fields_witness :
  TransformData_loop (shirt_library []) 0%nat 1%nat
    [ mapping_of TransformationTypeNone "name" "title" true;
      mapping_of TransformationTypeNone "price" "price" false;
      mapping_of TransformationTypeNone "active" "title" false ]
    shirt_and_destination
  = Ret None
      (<[1%nat := OMap (foldl (copy_rule {[ "name" := VString "Shirt";
                                            "active" := VBool true ]}) ∅
                          [ mapping_of TransformationTypeNone "name" "title"
                              true;
                            mapping_of TransformationTypeNone "price" "price"
                              false;
                            mapping_of TransformationTypeNone "active" "title"
                              false ])]>
         shirt_and_destination).
Proof.
  apply (plain_rules_copy_fields (shirt_library []) 0%nat 1%nat
           {[ "name" := VString "Shirt"; "active" := VBool true ]});
    [discriminate| |reflexivity|reflexivity].
  repeat constructor; try discriminate. intros _. now eexists.
Defined.

(** ** Writes that cannot panic *)

Lemma keeps_refl (h : heap) : keeps h h.
Proof. now intros v Hv. Qed.

(** [ensure_slice] on a closed heap: it returns, keeps the heap closed
    and every reference valid, leaves [current] a map, and the slice it
    gives is longer than [index]. *)
Lemma ensure_slice_safe (h : heap) (current : loc)
  (fields : gmap string value) (key : string) (index : Z) :
  closed h = true ->
  h !! current = Some (OMap fields) ->
  0 <= index /\ 16 * (index + 1) <= maxAlloc ->
  exists (r : loc + error) (h1 : heap),
    ensure_slice current key index h = Ret r h1
    /\ closed h1 = true /\ keeps h h1
    /\ match r with
       | inl arr =>
           exists elems, h1 !! arr = Some (OSlice elems)
                         /\ index < Z.of_nat (length elems)
       | inr _ => True
       end.
Proof.
  intros Hc Hcur Hidx.
  destruct (fields !! key) as [stored|] eqn:Hkey.
  - destruct stored;
      try (exists (inr (Errorf ("field " +:+ key +:+ " is not an array"))), h;
           split; [|split; [exact Hc|split; [apply keeps_refl|exact I]]];
           unfold ensure_slice;
           rewrite (bind_Ret _ _ _ _ _ (load_map_at _ _ _ Hcur)), Hkey;
           rewrite (bind_Ret _ _ h h tt eq_refl);
           rewrite (bind_Ret _ _ _ _ _ (load_map_at _ _ _ Hcur)), Hkey;
           reflexivity).
    pose proof (closed_field _ _ _ _ _ Hc Hcur Hkey) as Hva.
    destruct (valid_slice _ _ Hva) as [stored Ha].
    destruct (ensure_slice_grows h current fields key index stored Hcur Hidx)
      as (arr & h1 & Hrun & Hcur1 & Harr1 & Hframe);
      [right; now exists a|].
    exists (inl arr), h1. split; [exact Hrun|].
    assert (Hlen : index < Z.of_nat (length (stored ++ replicate
                      (Z.to_nat index + 1 - length stored) VNil)))
      by (rewrite length_app, length_replicate; lia).
    (* the heap afterwards, by the two cases of the lemma's proof *)
    revert Hrun. unfold ensure_slice.
    rewrite (bind_Ret _ _ _ _ _ (load_map_at _ _ _ Hcur)), Hkey.
    rewrite (bind_Ret _ _ h h tt eq_refl).
    rewrite (bind_Ret _ _ _ _ _ (load_map_at _ _ _ Hcur)), Hkey.
    rewrite (bind_Ret _ _ _ _ _ (load_slice_at _ _ _ Ha)).
    destruct (index >=? Z.of_nat (length stored)) eqn:Hge.
    + rewrite Z.geb_leb in Hge. apply Z.leb_le in Hge.
      assert (Hadd : int_add index 1 = index + 1)
        by (apply int_add_small; unfold min_int, max_int, maxAlloc in *; lia).
      rewrite Hadd.
      rewrite (bind_Ret _ _ _ _ _ (make_slice_at (index + 1) _ ltac:(lia) ltac:(lia))).
      set (newArr := length h).
      set (fresh := replicate (Z.to_nat (index + 1)) VNil).
      set (ha := h ++ [OSlice fresh]).
      assert (Hnew : ha !! newArr = Some (OSlice fresh))
        by (unfold ha, newArr; now rewrite list_lookup_middle).
      rewrite (bind_Ret _ _ _ _ _ (load_slice_at _ _ _ Hnew)).
      unfold store at 1. unfold bind at 1.
      set (hb := <[newArr := OSlice (copy fresh stored)]> ha).
      pose proof (lookup_lt_Some _ _ _ Hcur) as Hlt.
      assert (Hhb : hb !! current = Some (OMap fields)).
      { unfold hb. rewrite list_lookup_insert_ne by (unfold newArr; lia).
        apply lookup_app_l_Some. exact Hcur. }
      rewrite (bind_Ret _ _ _ _ _ (map_assign_at _ _ _ _ _ Hhb)).
      intros [= <- <-].
      assert (Hca : closed ha = true).
      { apply closed_new; [exact Hc|]. apply object_closed_slice.
        unfold fresh. apply Forall_replicate. reflexivity. }
      assert (Hcb : closed hb = true).
      { apply closed_store;
          [exact Hca
          |exact (keeps_store_slice ha newArr fresh (copy fresh stored) Hnew)|].
        apply object_closed_slice. unfold fresh.
        rewrite copy_into_fresh by lia. apply Forall_app. split.
        - eapply Forall_impl;
            [exact (proj1 (object_closed_slice h stored)
                      (closed_object h a _ Hc Ha))|].
          intros x. apply keeps_app.
        - apply Forall_replicate. reflexivity. }
      assert (Hnewb : hb !! newArr = Some (OSlice (copy fresh stored))).
      { apply list_lookup_insert_eq. unfold ha. rewrite length_app. simpl.
        unfold newArr. lia. }
      split; [|split].
      * apply closed_map_assign; [exact Hcb|exact Hhb|].
        cbn [valid]. now rewrite Hnewb.
      * eapply keeps_trans; [apply keeps_app|].
        eapply keeps_trans;
          [exact (keeps_store_slice ha newArr fresh (copy fresh stored) Hnew)|].
        exact (keeps_store_map _ _ _ _ Hhb).
      * eexists. split; [exact Harr1|exact Hlen].
    + intros [= <- <-]. split; [exact Hc|]. split; [apply keeps_refl|].
      eexists. split; [exact Harr1|exact Hlen].
  - destruct (ensure_slice_grows h current fields key index [] Hcur Hidx)
      as (arr & h1 & Hrun & Hcur1 & Harr1 & Hframe); [now left|].
    exists (inl arr), h1. split; [exact Hrun|].
    assert (Hlen : index < Z.of_nat (length ([] ++ replicate
                      (Z.to_nat index + 1 - length (@nil value)) VNil)))
      by (rewrite length_app, length_replicate; cbn [length]; lia).
    revert Hrun. unfold ensure_slice.
    rewrite (bind_Ret _ _ _ _ _ (load_map_at _ _ _ Hcur)), Hkey.
    assert (Hadd : int_add index 1 = index + 1)
      by (apply int_add_small; unfold min_int, max_int, maxAlloc in *; lia).
    rewrite Hadd.
    pose proof (lookup_lt_Some _ _ _ Hcur) as Hlt.
    set (a := length h).
    set (ha := h ++ [OSlice (replicate (Z.to_nat (index + 1)) VNil)]).
    set (hb := <[current := OMap (<[key := VSlice a]> fields)]> ha).
    assert (Hha : ha !! current = Some (OMap fields))
      by (apply lookup_app_l_Some; exact Hcur).
    assert (Hhb : hb !! current = Some (OMap (<[key := VSlice a]> fields))).
    { apply list_lookup_insert_eq. unfold ha. rewrite length_app. simpl. lia. }
    assert (Haa : ha !! a = Some (OSlice (replicate (Z.to_nat (index + 1)) VNil)))
      by (unfold ha, a; now rewrite list_lookup_middle).
    assert (Hab : hb !! a = Some (OSlice (replicate (Z.to_nat (index + 1)) VNil))).
    { unfold hb. rewrite list_lookup_insert_ne by (unfold a; lia). exact Haa. }
    rewrite (bind_Ret _ _ h hb tt).
    2:{ rewrite (bind_Ret _ _ _ _ _ (make_slice_at (index + 1) _ ltac:(lia) ltac:(lia))).
        apply (map_assign_at ha current fields key (VSlice a) Hha). }
    rewrite (bind_Ret _ _ _ _ _ (load_map_at _ _ _ Hhb)).
    rewrite lookup_insert_eq.
    rewrite (bind_Ret _ _ _ _ _ (load_slice_at _ _ _ Hab)).
    rewrite length_replicate.
    replace (index >=? Z.of_nat (Z.to_nat (index + 1))) with false
      by (rewrite Z.geb_leb; symmetry; apply Z.leb_gt; lia).
    intros [= <- <-].
    assert (Hca : closed ha = true).
    { apply closed_new; [exact Hc|]. apply object_closed_slice.
      apply Forall_replicate. reflexivity. }
    split; [|split].
    + apply closed_map_assign; [exact Hca|exact Hha|].
      cbn [valid]. now rewrite Haa.
    + eapply keeps_trans; [apply keeps_app|].
      exact (keeps_store_map _ _ _ _ Hha).
    + eexists. split; [exact Harr1|exact Hlen].
Qed.

Lemma safe_part_access (part : string) (h : heap) :
  safe_part part = true -> is_array_access part = true ->
  exists key indexStr,
    substr part 0 (Index part "[") h = Ret key h
    /\ substr part (Index part "[" + 1) (Index part "]") h = Ret indexStr h
    /\ match Atoi indexStr with
       | Some index => 0 <= index /\ 16 * (index + 1) <= maxAlloc
       | None => True
       end.
Proof.
  unfold safe_part. intros Hsafe Harr. rewrite Harr in Hsafe.
  unfold is_array_access in Harr. apply andb_true_iff in Harr as [Ho _].
  pose proof (Index_present _ _ Ho) as Hio.
  destruct (slice_in_bounds part 0 (Index part "[")) as [key Hkey]; [lia|].
  destruct (slice part (Index part "[" + 1) (Index part "]"))
    as [indexStr|] eqn:HindexStr; [|discriminate].
  exists key, indexStr. split; [now apply substr_at|].
  split; [now apply substr_at|].
  destruct (Atoi indexStr) as [index|]; [|exact I].
  apply andb_true_iff in Hsafe as [H1 H2]. lia.
Qed.

Lemma closed_empty_map (h : heap) :
  closed h = true -> closed (h ++ [OMap ∅]) = true.
Proof.
  intros Hc. apply closed_new; [exact Hc|]. apply object_closed_map.
  intros k v Hk. now rewrite lookup_empty in Hk.
Qed.

Lemma closed_index_assign (h : heap) (a : loc) (elems : list value)
  (i : nat) (v : value) :
  closed h = true -> h !! a = Some (OSlice elems) -> valid h v = true ->
  closed (<[a := OSlice (<[i := v]> elems)]> h) = true.
Proof.
  intros Hc Ha Hv. apply closed_store; [exact Hc| |].
  - exact (keeps_store_slice _ _ _ _ Ha).
  - apply object_closed_slice. apply Forall_insert; [|exact Hv].
    exact (proj1 (object_closed_slice h elems) (closed_object h a _ Hc Ha)).
Qed.

Lemma setNestedValue_loop_safe (inter : list string) :
  forall (n i : Z) (current : loc) (h : heap),
    closed h = true ->
    valid h (VMap current) = true ->
    Forall (fun part => safe_part part = true) inter ->
    exists (r : loc + error) (h1 : heap),
      setNestedValue_loop n i current inter h = Ret r h1
      /\ closed h1 = true /\ keeps h h1
      /\ match r with
         | inl final => valid h1 (VMap final) = true
         | inr _ => True
         end.
Proof.
  induction inter as [|part rest IH]; intros n i current h Hc Hv Hsafe.
  - exists (inl current), h. repeat split; auto. apply keeps_refl.
  - apply Forall_cons in Hsafe as [Hpart Hrest].
    destruct (valid_map _ _ Hv) as [fields Hcur].
    cbn [setNestedValue_loop].
    destruct (is_array_access part) eqn:Harr.
    + destruct (safe_part_access part h Hpart Harr)
        as (key & indexStr & Hkey & HindexStr & Hindex).
      rewrite (bind_Ret _ _ _ _ _ Hkey), (bind_Ret _ _ _ _ _ HindexStr).
      destruct (Atoi indexStr) as [index|];
        [|do 2 eexists; split; [reflexivity|];
          repeat split; auto; apply keeps_refl].
      destruct (ensure_slice_safe h current fields key index Hc Hcur Hindex)
        as (r & h1 & Hensure & Hc1 & Hk1 & Hr).
      rewrite (bind_Ret _ _ _ _ _ Hensure).
      destruct r as [arr|e];
        [|do 2 eexists; split; [reflexivity|]; repeat split; auto].
      destruct Hr as (elems & Harr1 & Hlen).
      destruct (i <? n - 2).
      2:{ destruct (IH n (i + 1) current h1 Hc1 (Hk1 _ Hv) Hrest)
            as (r & h2 & Hrun & Hc2 & Hk2 & Hr).
          exists r, h2. repeat split; auto.
          now apply (keeps_trans h h1 h2). }
      destruct (index_read_at h1 arr elems index Harr1)
        as (elem & Helem & Hread); [lia|].
      rewrite (bind_Ret _ _ _ _ _ Hread).
      pose proof (closed_elem _ _ _ _ _ Hc1 Harr1 Helem) as Hvelem.
      destruct elem;
        try (rewrite (bind_Ret _ _ h1 h1 tt eq_refl);
             rewrite (bind_Ret _ _ _ _ _ Hread);
             do 2 eexists; split; [reflexivity|]; repeat split; auto).
      * (* a nil element becomes a fresh map *)
        set (m := length h1).
        set (h2 := h1 ++ [OMap ∅]).
        set (h3 := <[arr := OSlice (<[Z.to_nat index := VMap m]> elems)]> h2).
        pose proof (lookup_lt_Some _ _ _ Harr1) as Hlt.
        assert (Harr2 : h2 !! arr = Some (OSlice elems))
          by (apply lookup_app_l_Some; exact Harr1).
        assert (Hm2 : h2 !! m = Some (OMap ∅))
          by (unfold h2, m; now rewrite list_lookup_middle).
        assert (Hc3 : closed h3 = true).
        { apply closed_index_assign;
            [now apply closed_empty_map|exact Harr2|].
          cbn [valid]. now rewrite Hm2. }
        assert (Hk3 : keeps h1 h3).
        { eapply keeps_trans; [apply keeps_app|].
          exact (keeps_store_slice h2 arr elems _ Harr2). }
        assert (Harr3 : h3 !! arr
                        = Some (OSlice (<[Z.to_nat index := VMap m]> elems))).
        { apply list_lookup_insert_eq. unfold h2. rewrite length_app.
          simpl. lia. }
        rewrite (bind_Ret _ _ h1 h3 tt).
        2:{ unfold make_map. rewrite (bind_Ret _ _ _ _ _ (new_at _ _)).
            apply (index_assign_at h2 arr elems index (VMap m) Harr2). lia. }
        destruct (index_read_at h3 arr _ index Harr3)
          as (elem & Helem' & Hread'); [rewrite length_insert; lia|].
        rewrite list_lookup_insert_eq in Helem' by lia.
        injection Helem' as <-.
        rewrite (bind_Ret _ _ _ _ _ Hread').
        destruct (IH n (i + 1) m h3 Hc3) as (r & h4 & Hrun & Hc4 & Hk4 & Hr);
          [|exact Hrest|].
        { cbn [valid]. unfold h3.
          rewrite list_lookup_insert_ne by (unfold m; lia). now rewrite Hm2. }
        exists r, h4. repeat split; auto.
        apply (keeps_trans h h1 h4); [exact Hk1|].
        now apply (keeps_trans h1 h3 h4).
      * (* the element is a map already *)
        rewrite (bind_Ret _ _ h1 h1 tt eq_refl).
        rewrite (bind_Ret _ _ _ _ _ Hread).
        destruct (IH n (i + 1) m h1 Hc1 Hvelem Hrest)
          as (r & h2 & Hrun & Hc2 & Hk2 & Hr).
        exists r, h2. repeat split; auto.
        now apply (keeps_trans h h1 h2).
    + rewrite (bind_Ret _ _ _ _ _ (load_map_at _ _ _ Hcur)).
      destruct (fields !! part) as [next|] eqn:Hnext.
      * rewrite (bind_Ret _ _ h h tt eq_refl).
        rewrite (bind_Ret _ _ _ _ _ (load_map_at _ _ _ Hcur)), Hnext.
        pose proof (closed_field _ _ _ _ _ Hc Hcur Hnext) as Hvnext.
        destruct next;
          try (do 2 eexists; split; [reflexivity|]; repeat split; auto;
               apply keeps_refl).
        now apply IH.
      * pose proof (lookup_lt_Some _ _ _ Hcur) as Hlt.
        set (m := length h).
        set (ha := h ++ [OMap ∅]).
        set (hb := <[current := OMap (<[part := VMap m]> fields)]> ha).
        assert (Hha : ha !! current = Some (OMap fields))
          by (apply lookup_app_l_Some; exact Hcur).
        assert (Hma : ha !! m = Some (OMap ∅))
          by (unfold ha, m; now rewrite list_lookup_middle).
        assert (Hcb : closed hb = true).
        { apply closed_map_assign; [now apply closed_empty_map|exact Hha|].
          cbn [valid]. now rewrite Hma. }
        assert (Hkb : keeps h hb).
        { eapply keeps_trans; [apply keeps_app|].
          exact (keeps_store_map _ _ _ _ Hha). }
        assert (Hhb : hb !! current
                      = Some (OMap (<[part := VMap m]> fields))).
        { apply list_lookup_insert_eq. unfold ha. rewrite length_app.
          simpl. lia. }
        rewrite (bind_Ret _ _ h hb tt).
        2:{ unfold make_map. rewrite (bind_Ret _ _ _ _ _ (new_at _ _)).
            apply (map_assign_at ha current fields part (VMap m) Hha). }
        rewrite (bind_Ret _ _ _ _ _ (load_map_at _ _ _ Hhb)).
        rewrite lookup_insert_eq.
        destruct (IH n (i + 1) m hb Hcb) as (r & h2 & Hrun & Hc2 & Hk2 & Hr);
          [|exact Hrest|].
        { cbn [valid]. unfold hb.
          rewrite list_lookup_insert_ne by (unfold m; lia). now rewrite Hma. }
        exists r, h2. repeat split; auto.
        now apply (keeps_trans h hb h2).
Qed.

Lemma setNestedValue_safe (h : heap) (obj : loc) (path : string)
  (v : value) :
  closed h = true ->
  valid h (VMap obj) = true ->
  valid h v = true ->
  Forall (fun part => safe_part part = true) (Split path ".") ->
  exists (r : option error) (h' : heap),
    setNestedValue obj path v h = Ret r h'
    /\ closed h' = true
    /\ keeps h h'.
Proof.
  intros Hc Hobj Hv Hsafe. unfold setNestedValue.
  pose proof (Split_nonempty "." path) as Hne.
  destruct (@exists_last _ (Split path ".") Hne)
    as (inter & lastPart & Hparts).
  rewrite Hparts in *.
  rewrite List.removelast_last, List.last_last.
  apply Forall_app in Hsafe as [Hinter Hlast].
  apply Forall_cons in Hlast as [Hlast _].
  destruct (setNestedValue_loop_safe inter
              (Z.of_nat (length (inter ++ [lastPart]))) 0 obj h Hc Hobj Hinter)
    as (r & h1 & Hloop & Hc1 & Hk1 & Hr).
  rewrite (bind_Ret _ _ _ _ _ Hloop).
  destruct r as [current|e];
    [|do 2 eexists; split; [reflexivity|]; now split].
  destruct (valid_map _ _ Hr) as [fields Hcur].
  destruct (is_array_access lastPart) eqn:Harr.
  - destruct (safe_part_access lastPart h1 Hlast Harr)
      as (key & indexStr & Hkey & HindexStr & Hindex).
    rewrite (bind_Ret _ _ _ _ _ Hkey), (bind_Ret _ _ _ _ _ HindexStr).
    destruct (Atoi indexStr) as [index|];
      [|do 2 eexists; split; [reflexivity|]; now split].
    destruct (ensure_slice_safe h1 current fields key index Hc1 Hcur Hindex)
      as (r & h2 & Hensure & Hc2 & Hk2 & Hr2).
    rewrite (bind_Ret _ _ _ _ _ Hensure).
    destruct r as [arr|e].
    2:{ do 2 eexists. split; [reflexivity|]. split; [exact Hc2|].
        now apply (keeps_trans h h1 h2). }
    destruct Hr2 as (elems & Harr2 & Hlen).
    rewrite (bind_Ret _ _ _ _ _
               (index_assign_at h2 arr elems index v Harr2 ltac:(lia))).
    do 2 eexists. split; [reflexivity|]. split.
    + apply closed_index_assign; [exact Hc2|exact Harr2|].
      apply Hk2, Hk1, Hv.
    + apply (keeps_trans h h1); [exact Hk1|].
      apply (keeps_trans h1 h2); [exact Hk2|].
      exact (keeps_store_slice _ _ _ _ Harr2).
  - rewrite (bind_Ret _ _ _ _ _ (map_assign_at _ _ _ _ v Hcur)).
    do 2 eexists. split; [reflexivity|]. split.
    + apply closed_map_assign; [exact Hc1|exact Hcur|apply Hk1, Hv].
    + apply (keeps_trans h h1); [exact Hk1|].
      exact (keeps_store_map _ _ _ _ Hcur).
Qed.

(** X27.  [setNestedValue] cannot panic on a path of safe parts: plain
    parts, and array accesses whose brackets are in order and whose
    index, when it is a number, is not negative and small enough for
    [make] to give [index + 1] elements (16 bytes each, within
    [maxAlloc]).  On a closed heap, for an object and a value that are
    valid, it returns, with or without an error, whatever the object
    holds; the heap is closed afterwards and every reference that was
    valid still is. *)
Theorem setNestedValue_is_safe (h : heap) (obj : loc) (path : string)
  (v : value) :
  closed h = true ->
  valid h (VMap obj) = true ->
  valid h v = true ->
  Forall (fun part => safe_part part = true) (Split path ".") ->
  exists (r : option error) (h' : heap),
    setNestedValue obj path v h = Ret r h'
    /\ closed h' = true
    /\ keeps h h'.
Proof. apply setNestedValue_safe. Qed.

Lemma setNestedValue_is_safe_witness :
  exists (r : option error) (h' : heap),
    setNestedValue root "tags[3].label" (VString "new") tagged = Ret r h'
    /\ closed h' = true
    /\ keeps tagged h'.
Proof.
  apply (setNestedValue_is_safe tagged root "tags[3].label" (VString "new")).
  - vm_compute; reflexivity.
  - vm_compute; reflexivity.
  - reflexivity.
  - replace (Split "tags[3].label" ".") with ["tags[3]"; "label"]
      by (vm_compute; reflexivity).
    repeat (constructor; [vm_compute; reflexivity|]). constructor.
Defined.

(** ** Rules that cannot panic *)

Lemma safe_part_ordered (part : string) :
  safe_part part = true -> is_array_access part = true ->
  Index part "[" < Index part "]".
Proof.
  unfold safe_part. intros Hsafe Harr. rewrite Harr in Hsafe.
  unfold slice in Hsafe.
  destruct ((0 <=? Index part "[" + 1)
            && (Index part "[" + 1 <=? Index part "]")
            && (Index part "]" <=? len part)) eqn:E; [|discriminate].
  apply andb_true_iff in E as [E _]. apply andb_true_iff in E as [_ E]. lia.
Qed.

Lemma structural_cases (t : string) :
  existsb (String.eqb t) structural = true ->
  t = TransformationTypeNone \/ t = TransformationTypeFormat
  \/ t = TransformationTypeGraphQLID \/ t = TransformationTypeArrayMap
  \/ t = TransformationTypeJsonPath.
Proof.
  cbn [existsb structural]. rewrite !orb_true_iff, !String.eqb_eq.
  intuition discriminate.
Qed.

(** The structural transformations on a closed heap: they return, keep
    the heap closed and every reference valid, and give a valid
    value. *)
Lemma applyTransformation_safe (lib : Library) (v : value)
  (mapping : FieldMapping) (h : heap) :
  closed h = true -> valid h v = true ->
  existsb (String.eqb (TransformType mapping)) structural = true ->
  exists (r : result) (h' : heap),
    applyTransformation lib v mapping h = Ret r h'
    /\ closed h' = true /\ keeps h h' /\ valid h' (fst r) = true.
Proof.
  intros Hc Hv Htype. unfold applyTransformation.
  assert (Hsame : forall r : result,
             valid h (fst r) = true ->
             exists (r' : result) (h' : heap),
               Ret r h = Ret r' h'
               /\ closed h' = true /\ keeps h h' /\ valid h' (fst r') = true).
  { intros r Hr. exists r, h. repeat split; auto. apply keeps_refl. }
  destruct (structural_cases _ Htype) as [->|[->|[->|[->| ->]]]]; simpl.
  - now apply Hsame.
  - destruct (Unmarshal_format lib _) as [config|e]; [|now apply Hsame].
    destruct v; try (now apply Hsame).
    destruct (time_Parse lib _ _); now apply Hsame.
  - destruct (Unmarshal_graphql_id lib _) as [config|e]; [|now apply Hsame].
    destruct v; try (now apply Hsame).
    destruct (String.eqb (Direction config) "to_global"); [now apply Hsame|].
    destruct (String.eqb (Direction config) "from_global"); now apply Hsame.
  - destruct (Unmarshal_array_map lib _) as [config|e]; [|now apply Hsame].
    destruct (transformArray_safe h v config Hc Hv)
      as (r & ext & Hrun & Hc' & Hshape).
    exists r, (h ++ ext). split; [exact Hrun|]. split; [exact Hc'|].
    split; [apply keeps_app|].
    destruct v; try (destruct Hshape as [-> _]; reflexivity).
    + destruct Hshape as (sourceArray & dests & destArray & _ & -> & Hd & _).
      cbn [fst valid]. now rewrite Hd.
    + destruct Hshape as (single & destArray & -> & Hd).
      cbn [fst valid]. now rewrite Hd.
  - destruct (Unmarshal_json_path lib _) as [config|e]; [|now apply Hsame].
    unfold extractJsonPath.
    destruct (String.eqb (Path config) ""); [now apply Hsame|].
    destruct (extractJsonPath_from_total h (Split (Path config) ".") Hc v Hv)
      as (r & Hr & Hvr).
    rewrite Hr. now apply Hsame.
Qed.

Lemma structural_rules_safe (lib : Library) (sourceObj destObj : loc)
  (rules : list FieldMapping) :
  Forall (fun mapping => safe_rule mapping = true) rules ->
  forall h : heap,
    closed h = true ->
    valid h (VMap sourceObj) = true ->
    valid h (VMap destObj) = true ->
    exists (r : option error) (h' : heap),
      TransformData_loop lib sourceObj destObj rules h = Ret r h'
      /\ closed h' = true /\ keeps h h'.
Proof.
  induction 1 as [|mapping rest Hrule _ IH]; intros h Hc Hsrc Hdst.
  - exists None, h. repeat split; auto. apply keeps_refl.
  - unfold safe_rule in Hrule.
    apply andb_true_iff in Hrule as [Hrule Hdest].
    apply andb_true_iff in Hrule as [Htype Hsource].
    rewrite forallb_forall in Hsource, Hdest.
    assert (Hstep : forall v,
               valid h v = true ->
               exists (r : option error) (h' : heap),
                 (let! transformed := applyTransformation lib v mapping in
                  match transformed with
                  | (_, Some err) =>
                      ret (Some (Wrapf ("error transforming field "
                                        +:+ SourceField mapping) err))
                  | (transformedValue, None) =>
                      let! set :=
                        setNestedValue destObj (DestField mapping)
                          transformedValue in
                      match set with
                      | Some err =>
                          ret (Some (Wrapf ("error setting field "
                                            +:+ DestField mapping) err))
                      | None => TransformData_loop lib sourceObj destObj rest
                      end
                  end) h = Ret r h'
                 /\ closed h' = true /\ keeps h h').
    { intros v Hv.
      destruct (applyTransformation_safe lib v mapping h Hc Hv Htype)
        as ([transformedValue [err|]] & h1 & Happly & Hc1 & Hk1 & Hv1).
      - rewrite (bind_Ret _ _ _ _ _ Happly). do 2 eexists.
        split; [reflexivity|]. now split.
      - rewrite (bind_Ret _ _ _ _ _ Happly).
        destruct (setNestedValue_safe h1 destObj (DestField mapping)
                    transformedValue Hc1 (Hk1 _ Hdst) Hv1)
          as ([err|] & h2 & Hset & Hc2 & Hk2).
        { apply Forall_forall. intros part Hin.
          apply Hdest, list_elem_of_In, Hin. }
        + rewrite (bind_Ret _ _ _ _ _ Hset). do 2 eexists.
          split; [reflexivity|]. split; [exact Hc2|].
          now apply (keeps_trans h h1 h2).
        + rewrite (bind_Ret _ _ _ _ _ Hset).
          destruct (IH h2 Hc2 (Hk2 _ (Hk1 _ Hsrc)) (Hk2 _ (Hk1 _ Hdst)))
            as (r & h3 & Hrun & Hc3 & Hk3).
          exists r, h3. split; [exact Hrun|]. split; [exact Hc3|].
          apply (keeps_trans h h1 h3); [exact Hk1|].
          now apply (keeps_trans h1 h2 h3). }
    cbn [TransformData_loop].
    destruct (getNestedValue_from_total h (Split (SourceField mapping) ".")
                Hc) with (current := VMap sourceObj)
      as ([sourceValue [err|]] & Hget & Hvalue); [|exact Hsrc| |].
    { apply Forall_forall. intros part Hin. apply safe_part_ordered.
      apply Hsource, list_elem_of_In, Hin. }
    + unfold getNestedValue. rewrite (bind_Ret _ _ _ _ _ Hget).
      destruct (IsRequired mapping).
      { do 2 eexists. split; [reflexivity|]. split; [exact Hc|].
        apply keeps_refl. }
      destruct (String.eqb (DefaultValue mapping) ""); cbn [negb].
      * now apply IH.
      * now apply Hstep.
    + unfold getNestedValue. rewrite (bind_Ret _ _ _ _ _ Hget).
      now apply Hstep.
Qed.

(** X28.  Rules that do not print cannot panic: when every rule has
    the transformation [none], [format], [graphql_id], [array_map] or
    [json_path] and source and destination paths of safe parts (plain
    parts, and array accesses with brackets in order and an index
    that, when it is a number, is not negative and small enough for
    [make] to give [index + 1] elements within [maxAlloc]), the loop of
    [TransformData] returns, with or without an error, on every closed
    heap, whatever the two documents hold and whatever the configs
    decode to; the heap is closed afterwards and every reference that
    was valid still is. *)
Theorem structural_rules_never_panic (lib : Library)
  (sourceObj destObj : loc) (rules : list FieldMapping) (h : heap) :
  closed h = true ->
  valid h (VMap sourceObj) = true ->
  valid h (VMap destObj) = true ->
  Forall (fun mapping => safe_rule mapping = true) rules ->
  exists (r : option error) (h' : heap),
    TransformData_loop lib sourceObj destObj rules h = Ret r h'
    /\ closed h' = true /\ keeps h h'.
Proof.
  intros Hc Hsrc Hdst Hrules. now apply structural_rules_safe.
Qed.

Lemma structural_rules_never_panic_witness :
  exists (r : option error) (h' : heap),
    TransformData_loop (shirt_library []) 0%nat 3%nat variant_rules
      shirt_with_variants = Ret r h'
    /\ closed h' = true /\ keeps shirt_with_variants h'.
Proof.
  apply (structural_rules_never_panic (shirt_library []) 0%nat 3%nat
           variant_rules shirt_with_variants).
  - vm_compute; reflexivity.
  - reflexivity.
  - reflexivity.
  - unfold variant_rules.
    repeat (constructor; [vm_compute; reflexivity|]). constructor.
Defined.

(** ** GraphQL IDs, again *)

Lemma Split_segments (sep : ascii) (s : string) :
  Forall (fun seg => Contains seg sep = false) (Split s sep).
Proof.
  induction s as [|c s IH]; simpl; [repeat constructor|].
  destruct (Ascii.eqb c sep) eqn:E; [constructor; [reflexivity|exact IH]|].
  destruct (Split s sep) as [|seg segs]; [repeat constructor; simpl; now rewrite E|].
  apply Forall_cons in IH as [Hseg Hsegs].
  constructor; [simpl; now rewrite E|exact Hsegs].
Qed.

Lemma last_in (l : list string) (d : string) : l <> [] -> List.last l d ∈ l.
Proof.
  intros Hne. destruct (@exists_last _ l Hne) as (l' & x & ->).
  rewrite List.last_last. apply elem_of_app. right. now left.
Qed.

(** X16.  Decoding a global ID is idempotent: what
    [convertFromGraphQLGlobalID] returns, it returns unchanged. *)
Theorem from_global_id_twice (globalID : string) :
  convertFromGraphQLGlobalID (convertFromGraphQLGlobalID globalID)
  = convertFromGraphQLGlobalID globalID.
Proof.
  unfold convertFromGraphQLGlobalID at 2 3.
  destruct (length (Split globalID "/") <? 4)%nat eqn:Hshort.
  - unfold convertFromGraphQLGlobalID. now rewrite Hshort.
  - pose proof (Split_segments "/" globalID) as Hsegs.
    rewrite Forall_forall in Hsegs.
    specialize (Hsegs _ (last_in _ EmptyString (Split_nonempty "/" globalID))).
    unfold convertFromGraphQLGlobalID.
    now rewrite (Split_without_sep _ _ Hsegs).
Qed.

(** ** Templates *)

Lemma append_nil_r (s : string) : s +:+ "" = s.
Proof.
  induction s as [|c s IH]; [reflexivity|]. rewrite append_cons. now f_equal.
Qed.

Lemma prefix_append (p r : string) : String.prefix p (p +:+ r) = true.
Proof.
  induction p as [|c p IH]; [now destruct r|].
  rewrite append_cons. simpl. now destruct (Ascii.ascii_dec c c).
Qed.

Section ReplaceFacts.

Variables (c0 : ascii) (old' new : string).

Local Abbreviation old := (String c0 old').

Lemma replace_from_skip (a rest : string) :
  replace_from old new (a +:+ rest) (String.length a)
  = replace_from old new rest O.
Proof.
  induction a as [|c a IH]; [now rewrite append_nil_l|].
  rewrite append_cons. exact IH.
Qed.

Lemma replace_from_match (rest : string) :
  replace_from old new (old +:+ rest) O
  = new +:+ replace_from old new rest O.
Proof.
  rewrite (append_cons c0 old' rest). cbn [replace_from].
  change (String c0 (old' +:+ rest)) with (old +:+ rest).
  rewrite prefix_append. f_equal.
  replace (String.length old - 1)%nat with (String.length old')
    by (simpl; lia).
  apply replace_from_skip.
Qed.

Lemma replace_from_plain (a rest : string) :
  Contains a c0 = false ->
  replace_from old new (a +:+ rest) O
  = a +:+ replace_from old new rest O.
Proof.
  induction a as [|c a IH]; [now rewrite !append_nil_l|].
  simpl. intros H. apply orb_false_iff in H as [Hc Ha].
  rewrite !append_cons. cbn [replace_from].
  cbn [String.prefix].
  destruct (Ascii.ascii_dec c0 c) as [->|_];
    [now rewrite Ascii.eqb_refl in Hc|].
  f_equal. exact (IH Ha).
Qed.

End ReplaceFacts.

(** X17.  A [template] rule puts the string form of the value in the
    place of the placeholder: with a template [before{{value}}after]
    whose [before] holds no brace the result is [before], the value,
    and [after] with its placeholders replaced in turn; a text without
    a brace is left as it is, and the value put in is not scanned
    again. *)
Theorem template_fills_placeholder (lib : Library) (v : value)
  (mapping : FieldMapping) (before after s : string) (h : heap) :
  TransformType mapping = TransformationTypeTemplate ->
  Unmarshal_template lib (TransformConfig mapping)
  = inl {| Template := before +:+ "{{value}}" +:+ after |} ->
  Contains before "{" = false ->
  Sprintf_v lib v h = Ret s h ->
  applyTransformation lib v mapping h
  = Ret (VString (before +:+ s +:+ ReplaceAll after "{{value}}" s), None) h
  /\ (Contains after "{" = false -> ReplaceAll after "{{value}}" s = after).
Proof.
  intros Htype Hconfig Hbefore Hprint. split.
  - unfold applyTransformation. rewrite Htype. simpl.
    rewrite Hconfig. rewrite (bind_Ret _ _ _ _ _ Hprint).
    unfold ok, ret. do 3 f_equal. cbn [Template]. unfold ReplaceAll.
    rewrite (replace_from_plain "{" "{value}}" s before _ Hbefore).
    f_equal. apply (replace_from_match "{" "{value}}" s).
  - intros Hafter. unfold ReplaceAll.
    rewrite <- (append_nil_r after) at 1.
    rewrite (replace_from_plain "{" "{value}}" s after "" Hafter).
    apply append_nil_r.
Qed.

Lemma template_fills_placeholder_witness :
  applyTransformation (with_template (shirt_library []) sku_template)
    (VString "42") (mapping_of TransformationTypeTemplate "id" "sku" false) []
  = Ret (VString ("SKU-" +:+ "42" +:+ ReplaceAll "-EU" "{{value}}" "42"),
         None) []
  /\ (Contains "-EU" "{" = false -> ReplaceAll "-EU" "{{value}}" "42" = "-EU").
Proof.
  apply (template_fills_placeholder
           (with_template (shirt_library []) sku_template) (VString "42")
           (mapping_of TransformationTypeTemplate "id" "sku" false)
           "SKU-" "-EU" "42" []); reflexivity.
Defined.

(** ** Conversions *)

(** X18.  The conversions to [int], [float] and [bool] take strings
    only: every other value, a JSON number or boolean included, gives
    the error [value is not a string]. *)
Theorem convert_accepts_only_strings (lib : Library) (v : value)
  (mapping : FieldMapping) (config : ConvertConfig) (h : heap) :
  TransformType mapping = TransformationTypeConvert ->
  Unmarshal_convert lib (TransformConfig mapping) = inl config ->
  ConvertTo config = "int" \/ ConvertTo config = "float"
  \/ ConvertTo config = "bool" ->
  (forall s, v <> VString s) ->
  applyTransformation lib v mapping h
  = Ret (VNil, Some (Errorf "value is not a string")) h.
Proof.
  intros Htype Hconfig Hto Hv. unfold applyTransformation.
  rewrite Htype. simpl. rewrite Hconfig.
  destruct Hto as [->|[->| ->]]; simpl;
    destruct v; try reflexivity; now destruct (Hv s).
Qed.

Lemma convert_accepts_only_strings_witness :
  applyTransformation (shirt_library []) (VFloat 5) stock_rule []
  = Ret (VNil, Some (Errorf "value is not a string")) [].
Proof.
  apply (convert_accepts_only_strings (shirt_library []) (VFloat 5) stock_rule
           {| ConvertTo := "int" |} []);
    [reflexivity|reflexivity|now left|discriminate].
Defined.

(** ** The middleware *)

Lemma Join_Split (sep : ascii) (s : string) :
  Join (Split s sep) (String sep "") = s.
Proof.
  induction s as [|c s IH]; [reflexivity|]. simpl.
  destruct (Ascii.eqb_spec c sep) as [->|Hne].
  - pose proof (Split_nonempty sep s) as Hne.
    destruct (Split s sep) as [|seg segs] eqn:E; [contradiction|].
    change (Join ("" :: seg :: segs) (String sep ""))
      with ("" +:+ String sep "" +:+ Join (seg :: segs) (String sep "")).
    rewrite IH. reflexivity.
  - pose proof (Split_nonempty sep s) as Hnil.
    destruct (Split s sep) as [|seg segs] eqn:E; [contradiction|].
    destruct segs as [|seg' segs].
    + simpl in *. now rewrite IH.
    + change (Join (String c seg :: seg' :: segs) (String sep ""))
        with (String c seg +:+ String sep "" +:+ Join (seg' :: segs) (String sep "")).
      change (Join (seg :: seg' :: segs) (String sep ""))
        with (seg +:+ String sep "" +:+ Join (seg' :: segs) (String sep "")) in IH.
      rewrite append_cons. now rewrite IH.
Qed.

(** X19.  [AuthMiddleware] lets a request through exactly when its
    header is [Bearer], one space and the secret, and the secret holds
    no space: a secret with a space authenticates nobody.
    [APIKeyMiddleware] lets it through exactly when the key is the
    configured one and that is not empty. *)
Theorem middleware_accepts (secret authHeader apiKey requestAPIKey : string) :
  (Middleware.AuthMiddleware secret authHeader = Middleware.Next <->
   authHeader = "Bearer " +:+ secret /\ Contains secret " " = false)
  /\ (Middleware.APIKeyMiddleware apiKey requestAPIKey = Middleware.Next <->
      requestAPIKey = apiKey /\ apiKey <> "").
Proof.
  split.
  - unfold Middleware.AuthMiddleware. split.
    + destruct (String.eqb authHeader "") eqn:Hempty; [discriminate|].
      pose proof (Join_Split " " authHeader) as Hjoin.
      pose proof (Split_segments " " authHeader) as Hsegs.
      destruct (Split authHeader " ") as [|a [|b [|c parts]]];
        cbn [length Nat.eqb negb orb nth] in *; try discriminate.
      destruct (String.eqb_spec a "Bearer") as [->|]; [|discriminate].
      destruct (String.eqb_spec b secret) as [->|]; [|discriminate].
      intros _. split; [now rewrite <- Hjoin|].
      apply Forall_cons in Hsegs as [_ Hsegs].
      now apply Forall_cons in Hsegs as [Hsecret _].
    + intros [-> Hsecret].
      change ("Bearer " +:+ secret) with ("Bearer" +:+ String " " secret).
      rewrite Split_app, (Split_without_sep _ _ Hsecret).
      cbn. now rewrite String.eqb_refl.
  - unfold Middleware.APIKeyMiddleware.
    destruct (String.eqb_spec requestAPIKey "") as [Hempty|Hkey];
      destruct (String.eqb_spec requestAPIKey apiKey) as [Heq|Hne];
      cbn [negb orb]; split; try discriminate; try tauto;
      intros H; try (destruct H; congruence); split; congruence.
Qed.

(** ** The database *)

Lemma call_run {A} (f : Database -> A * Database) (w : world) :
  call f w
  = if fails w then Done (inr ErrDatabase) (after w (tables w))
    else Done (inl (fst (f (tables w)))) (after w (snd (f (tables w)))).
Proof.
  unfold call, fails, after. destruct (faults w) as [|[] rest]; try reflexivity;
    now destruct (f (tables w)).
Qed.

Lemma First_run {R} (table : Database -> gmap N R) (id : N) (w : world) :
  First table id w
  = Done (if fails w then inr ErrDatabase
          else match table (tables w) !! id with
               | Some row => inl row
               | None => inr gorm_ErrRecordNotFound
               end)
      (after w (tables w)).
Proof.
  unfold First. unfold mbind, DB_bind. rewrite call_run.
  now destruct (fails w).
Qed.

Lemma exec_run (f : Database -> Database) (w : world) :
  exec f w
  = if fails w then Done (Some ErrDatabase) (after w (tables w))
    else Done None (after w (f (tables w))).
Proof.
  unfold exec. unfold mbind, DB_bind. rewrite call_run.
  now destruct (fails w).
Qed.

Lemma bind_Done {A B} (m : DB A) (k : A -> DB B) (w w' : world) (a : A) :
  m w = Done a w' -> mbind k m w = k a w'.
Proof. intros H. unfold mbind, DB_bind. now rewrite H. Qed.

Lemma no_logs_of (id : N) (logs : Webhook.table) :
  (0 <? size (filter (fun kv => Webhook.DataflowID (snd kv) = id) logs))%nat
  = false <->
  map_Forall (fun _ log => Webhook.DataflowID log <> id) logs.
Proof.
  rewrite Nat.ltb_ge, Nat.le_0_r, map_size_empty_iff, map_empty_filter.
  split; intros H key log Hlog; exact (H key log Hlog).
Qed.

Lemma referenced_without (t : Database) (id : N) :
  referenced t ->
  map_Forall (fun _ log => Webhook.DataflowID log <> id) (migration_logs t) ->
  referenced
    (with_dataflows
       (with_field_mappings t
          (filter (fun kv => DataflowID (snd kv) <> id) (field_mappings t)))
       (delete id (dataflows t))).
Proof.
  intros [Hmaps Hlogs] Hnone. split; cbn.
  - intros key fm Hfm. apply map_lookup_filter_Some in Hfm as [Hfm Hne].
    cbn in Hne. rewrite lookup_delete_ne by congruence. exact (Hmaps _ _ Hfm).
  - intros key log Hlog. rewrite lookup_delete_ne
      by (intros Heq; exact (Hnone _ _ Hlog (eq_sym Heq))).
    exact (Hlogs _ _ Hlog).
Qed.

Lemma referenced_fewer_mappings (t : Database) (id : N) :
  referenced t ->
  referenced
    (with_field_mappings t
       (filter (fun kv => DataflowID (snd kv) <> id) (field_mappings t))).
Proof.
  intros [Hmaps Hlogs]. split; cbn; [|exact Hlogs].
  intros key fm Hfm. apply map_lookup_filter_Some in Hfm as [Hfm _].
  exact (Hmaps _ _ Hfm).
Qed.

Ltac refused Href :=
  do 2 eexists; (split; [reflexivity|]); cbn [tables after];
  split; [exact Href|]; split; [reflexivity|];
  split; [intros ?; discriminate|];
  intros; split; [discriminate|reflexivity].

(** X20.  [DeleteDataflow] keeps the references of the database
    whole, whatever calls of the database fail: afterwards every field
    mapping and every log still names a dataflow that exists, and the
    logs are as they were.  When it returns no error the dataflow and
    all its field mappings are gone; a dataflow that has a log is
    refused and nothing changes. *)
Theorem DeleteDataflow_keeps_references (id : N) (w : world) :
  referenced (tables w) ->
  exists (err : option error) (w' : world),
    DataflowService.DeleteDataflow id w = Done err w'
    /\ referenced (tables w')
    /\ migration_logs (tables w') = migration_logs (tables w)
    /\ (err = None ->
        dataflows (tables w') !! id = None
        /\ map_Forall (fun _ fm => DataflowID fm <> id)
             (field_mappings (tables w')))
    /\ (forall key log,
           migration_logs (tables w) !! key = Some log ->
           Webhook.DataflowID log = id ->
           err <> None /\ tables w' = tables w).
Proof.
  intros Href.
  unfold DataflowService.DeleteDataflow, DataflowService.GetDataflow.
  rewrite (bind_Done _ _ _ _ _ (First_run _ _ _)).
  destruct (fails w); [refused Href|].
  destruct (dataflows (tables w) !! id) as [existing|] eqn:Hid;
    [|refused Href].
  unfold mbind at 1, DB_bind at 1. rewrite call_run.
  cbn [fst snd tables after].
  destruct (fails (after w (tables w))); [refused Href|].
  destruct (0 <? size _)%nat eqn:Hcount; [refused Href|].
  apply no_logs_of in Hcount.
  unfold mbind at 1, DB_bind at 1. rewrite exec_run. cbn [tables after].
  match goal with |- context [if fails ?w2 then _ else _] =>
    destruct (fails w2) end; [refused Href|].
  rewrite exec_run. cbn [tables after].
  match goal with |- context [if fails ?w3 then _ else _] =>
    destruct (fails w3) end;
    do 2 eexists; (split; [reflexivity|]); cbn [tables after].
  - split; [exact (referenced_fewer_mappings (tables w) id Href)|].
    split; [reflexivity|].
    split; [discriminate|].
    intros key log Hlog Hof. now destruct (Hcount _ _ Hlog).
  - split; [exact (referenced_without (tables w) id Href Hcount)|].
    split; [reflexivity|]. split.
    + intros _. cbn. split; [apply lookup_delete_eq|].
      intros key fm Hfm. now apply map_lookup_filter_Some in Hfm as [_ Hne].
    + intros key log Hlog Hof. now destruct (Hcount _ _ Hlog).
Qed.

Lemma shop_referenced : referenced shop.
Proof.
  split.
  - apply map_Forall_singleton. now eexists.
  - apply map_Forall_singleton. now eexists.
Qed.

Lemma DeleteDataflow_keeps_references_witness :
  exists (err : option error) (w' : world),
    DataflowService.DeleteDataflow 7 (reliable shop) = Done err w'
    /\ referenced (tables w')
    /\ migration_logs (tables w') = migration_logs (tables (reliable shop))
    /\ (err = None ->
        dataflows (tables w') !! 7%N = None
        /\ map_Forall (fun _ fm => DataflowID fm <> 7%N)
             (field_mappings (tables w')))
    /\ (forall key log,
           migration_logs (tables (reliable shop)) !! key = Some log ->
           Webhook.DataflowID log = 7%N ->
           err <> None /\ tables w' = tables (reliable shop)).
Proof.
  apply (DeleteDataflow_keeps_references 7 (reliable shop)).
  exact shop_referenced.
Defined.

Lemma referenced_insert_mapping (t : Database) (key id : N)
  (fieldMapping : FieldMapping) :
  referenced t -> is_Some (dataflows t !! id) ->
  referenced
    (with_field_mappings t
       (<[key := DataflowHandler.for_dataflow fieldMapping id]>
          (field_mappings t))).
Proof.
  intros [Hmaps Hlogs] Hid. split; cbn; [|exact Hlogs].
  apply map_Forall_insert_2; [exact Hid|exact Hmaps].
Qed.

Lemma referenced_delete_mapping (t : Database) (key : N) :
  referenced t ->
  referenced (with_field_mappings t (delete key (field_mappings t))).
Proof.
  intros [Hmaps Hlogs]. split; cbn; [|exact Hlogs].
  now apply map_Forall_delete.
Qed.

Ltac rejected Href :=
  do 2 eexists; (split; [reflexivity|]); (split; [exact Href|]);
  try (unfold DataflowHandler.status_of; cbn); intros ?; discriminate.

(** X21.  The three field-mapping handlers keep the references whole
    too, whatever the request and whatever calls fail.  An update that
    answers 200 has stored the body under the mapping ID with the
    dataflow of the URL, whichever dataflow the mapping belonged to; a
    delete that answers 200 has removed the mapping, with no look at
    the dataflow of the URL. *)
Theorem field_mapping_handlers_keep_references (w : world)
  (id_param mappingId_param : string) (body : option FieldMapping)
  (key : N) :
  referenced (tables w) ->
  (exists status w',
      DataflowHandler.CreateFieldMapping id_param body key w = Done status w'
      /\ referenced (tables w'))
  /\ (exists status w',
         DataflowHandler.UpdateFieldMapping id_param mappingId_param body w
         = Done status w'
         /\ referenced (tables w')
         /\ (status = 200 ->
             exists dataflowID mappingID fieldMapping,
               ParseUint id_param = Some dataflowID
               /\ ParseUint mappingId_param = Some mappingID
               /\ body = Some fieldMapping
               /\ is_Some (field_mappings (tables w) !! mappingID)
               /\ field_mappings (tables w') !! mappingID
                  = Some (DataflowHandler.for_dataflow fieldMapping
                            dataflowID)))
  /\ (exists status w',
         DataflowHandler.DeleteFieldMapping mappingId_param w = Done status w'
         /\ referenced (tables w')
         /\ (status = 200 ->
             exists mappingID,
               ParseUint mappingId_param = Some mappingID
               /\ is_Some (field_mappings (tables w) !! mappingID)
               /\ field_mappings (tables w') !! mappingID = None)).
Proof.
  intros Href. repeat apply conj.
  - unfold DataflowHandler.CreateFieldMapping.
    destruct (ParseUint id_param) as [id|]; [|now do 2 eexists].
    unfold DataflowService.GetDataflow.
    rewrite (bind_Done _ _ _ _ _ (First_run _ _ _)).
    destruct (fails w); [now do 2 eexists|].
    destruct (dataflows (tables w) !! id) as [existing|] eqn:Hid;
      [|now do 2 eexists].
    destruct body as [fieldMapping|]; [|now do 2 eexists].
    unfold FieldMappingService.CreateFieldMapping.
    unfold mbind at 1 2, DB_bind at 1 2. rewrite call_run.
    cbn [tables after].
    match goal with |- context [if fails ?w1 then _ else _] =>
      destruct (fails w1) end; [now do 2 eexists|].
    destruct (BeforeCreate _); [now do 2 eexists|].
    do 2 eexists. split; [reflexivity|]. cbn [tables after snd].
    apply referenced_insert_mapping; [exact Href|now rewrite Hid].
  - unfold DataflowHandler.UpdateFieldMapping.
    destruct (ParseUint id_param) as [dataflowID|];
      [|rejected Href].
    destruct (ParseUint mappingId_param) as [mappingID|];
      [|rejected Href].
    unfold DataflowService.GetDataflow.
    rewrite (bind_Done _ _ _ _ _ (First_run _ _ _)).
    destruct (fails w);
      [rejected Href|].
    destruct (dataflows (tables w) !! dataflowID) as [existing|] eqn:Hid;
      [|rejected Href].
    destruct body as [fieldMapping|];
      [|rejected Href].
    unfold FieldMappingService.UpdateFieldMapping,
      FieldMappingService.GetFieldMapping.
    unfold mbind at 1, DB_bind at 1.
    rewrite (bind_Done _ _ _ _ _ (First_run _ _ _)). cbn [tables after].
    match goal with |- context [if fails ?w1 then _ else _] =>
      destruct (fails w1) end;
      [rejected Href|].
    destruct (field_mappings (tables w) !! mappingID) as [old|] eqn:Hold;
      [|rejected Href].
    rewrite exec_run. cbn [tables after].
    match goal with |- context [if fails ?w2 then _ else _] =>
      destruct (fails w2) end;
      [rejected Href|].
    do 2 eexists. split; [reflexivity|]. cbn [tables after]. split.
    + apply referenced_insert_mapping; [exact Href|now rewrite Hid].
    + intros _. exists dataflowID, mappingID, fieldMapping.
      repeat split; auto. cbn. apply lookup_insert_eq.
  - unfold DataflowHandler.DeleteFieldMapping.
    destruct (ParseUint mappingId_param) as [mappingID|];
      [|rejected Href].
    unfold FieldMappingService.DeleteFieldMapping,
      FieldMappingService.GetFieldMapping.
    unfold mbind at 1, DB_bind at 1.
    rewrite (bind_Done _ _ _ _ _ (First_run _ _ _)). cbn [tables after].
    destruct (fails w);
      [rejected Href|].
    destruct (field_mappings (tables w) !! mappingID) as [old|] eqn:Hold;
      [|rejected Href].
    rewrite exec_run. cbn [tables after].
    match goal with |- context [if fails ?w2 then _ else _] =>
      destruct (fails w2) end;
      [rejected Href|].
    do 2 eexists. split; [reflexivity|]. cbn [tables after]. split.
    + now apply referenced_delete_mapping.
    + intros _. exists mappingID. repeat split; auto. cbn.
      apply lookup_delete_eq.
Qed.

Lemma field_mapping_handlers_keep_references_witness :
  (exists status w',
      DataflowHandler.CreateFieldMapping "8"
        (Some (mapping_of TransformationTypeNone "id" "name" false)) 4
        (reliable shop) = Done status w'
      /\ referenced (tables w'))
  /\ (exists status w',
         DataflowHandler.UpdateFieldMapping "8" "3"
           (Some (mapping_of TransformationTypeNone "id" "name" false))
           (reliable shop)
         = Done status w'
         /\ referenced (tables w')
         /\ (status = 200 ->
             exists dataflowID mappingID fieldMapping,
               ParseUint "8" = Some dataflowID
               /\ ParseUint "3" = Some mappingID
               /\ Some (mapping_of TransformationTypeNone "id" "name" false)
                  = Some fieldMapping
               /\ is_Some (field_mappings (tables (reliable shop))
                             !! mappingID)
               /\ field_mappings (tables w') !! mappingID
                  = Some (DataflowHandler.for_dataflow fieldMapping
                            dataflowID)))
  /\ (exists status w',
         DataflowHandler.DeleteFieldMapping "3" (reliable shop)
         = Done status w'
         /\ referenced (tables w')
         /\ (status = 200 ->
             exists mappingID,
               ParseUint "3" = Some mappingID
               /\ is_Some (field_mappings (tables (reliable shop))
                             !! mappingID)
               /\ field_mappings (tables w') !! mappingID = None)).
Proof.
  apply (field_mapping_handlers_keep_references (reliable shop) "8" "3"
           (Some (mapping_of TransformationTypeNone "id" "name" false)) 4).
  exact shop_referenced.
Defined.

(** X22.  [GetMigrationLog] serves a log only under its own dataflow:
    an answer 200 carries the log stored under the log ID, that log
    names the dataflow of the URL, the dataflow exists, and the tables
    are as they were. *)
Theorem GetMigrationLog_checks_owner (id_param logId_param : string)
  (w w' : world) (log : Webhook.MigrationLog) :
  DataflowHandler.GetMigrationLog id_param logId_param w
  = Done (200, Some log) w' ->
  tables w' = tables w
  /\ exists dataflowID logID,
       ParseUint id_param = Some dataflowID
       /\ ParseUint logId_param = Some logID
       /\ is_Some (dataflows (tables w) !! dataflowID)
       /\ migration_logs (tables w) !! logID = Some log
       /\ Webhook.DataflowID log = dataflowID.
Proof.
  unfold DataflowHandler.GetMigrationLog.
  destruct (ParseUint id_param) as [dataflowID|]; [|discriminate].
  destruct (ParseUint logId_param) as [logID|]; [|discriminate].
  unfold DataflowService.GetDataflow, DataflowService.GetMigrationLog.
  rewrite (bind_Done _ _ _ _ _ (First_run _ _ _)).
  destruct (fails w); [unfold DataflowHandler.status_of; cbn; discriminate|].
  destruct (dataflows (tables w) !! dataflowID) as [dataflow|] eqn:Hflow;
    [|unfold DataflowHandler.status_of; cbn; discriminate].
  rewrite (bind_Done _ _ _ _ _ (First_run _ _ _)). cbn [tables after].
  match goal with |- context [if fails ?w1 then _ else _] =>
    destruct (fails w1) end;
    [unfold DataflowHandler.status_of; cbn; discriminate|].
  destruct (migration_logs (tables w) !! logID) as [found|] eqn:Hlog;
    [|unfold DataflowHandler.status_of; cbn; discriminate].
  destruct (N.eqb_spec (Webhook.DataflowID found) dataflowID) as [Howner|];
    [|discriminate].
  cbn [negb]. intros [= <- <-]. split; [reflexivity|].
  exists dataflowID, logID. repeat split; auto.
Qed.

Lemma GetMigrationLog_checks_owner_witness :
  tables (after (after (reliable shop) shop) shop) = tables (reliable shop)
  /\ exists dataflowID logID,
       ParseUint "7" = Some dataflowID
       /\ ParseUint "1" = Some logID
       /\ is_Some (dataflows (tables (reliable shop)) !! dataflowID)
       /\ migration_logs (tables (reliable shop)) !! logID
          = Some Webhook.finished_log
       /\ Webhook.DataflowID Webhook.finished_log = dataflowID.
Proof.
  apply (GetMigrationLog_checks_owner "7" "1" (reliable shop)
           (after (after (reliable shop) shop) shop) Webhook.finished_log).
  vm_compute. reflexivity.
Defined.

(** ** [ExecuteDataflow] *)

Lemma Create_run (key : N) (migrationLog : Webhook.MigrationLog) (w : world) :
  DataflowService.Create key migrationLog w
  = if fails w then Done (Some ErrDatabase) (after w (tables w))
    else Done None
           (after w (with_migration_logs (tables w)
                       (<[key := migrationLog]> (migration_logs (tables w))))).
Proof. apply exec_run. Qed.

Lemma Save_run (key : N) (migrationLog : Webhook.MigrationLog) (w : world) :
  DataflowService.Save key migrationLog w
  = if fails w then Done (Some ErrDatabase) (after w (tables w))
    else Done None
           (after w (with_migration_logs (tables w)
                       (<[key := migrationLog]> (migration_logs (tables w))))).
Proof. apply exec_run. Qed.

Lemma abandon_run (key : N) (migrationLog : Webhook.MigrationLog)
  (message : string) (err : error) (w : world) :
  DataflowService.abandon key migrationLog message err w
  = Done (Some err)
      (after w (if fails w then tables w
                else with_migration_logs (tables w)
                       (<[key := DataflowService.failed migrationLog message]>
                          (migration_logs (tables w))))).
Proof.
  unfold DataflowService.abandon. unfold mbind, DB_bind. rewrite Save_run.
  now destruct (fails w).
Qed.

Lemma leaves_insert (w : world) (t : Database) (logs : Webhook.table)
  (key : N) (log : Webhook.MigrationLog) :
  Webhook.CompletedAt log = None ->
  leaves (after w (with_migration_logs t (<[key := log]> logs))) key
    (Webhook.Status log).
Proof.
  intros Hc. exists log. cbn. now rewrite lookup_insert_eq.
Qed.

Lemma abandon_settles (key : N) (migrationLog : Webhook.MigrationLog)
  (message : string) (err : error) (w : world) (faulty : Prop) :
  Webhook.CompletedAt migrationLog = None ->
  leaves w key Webhook.MigrationStatusInProgress ->
  (fails w = true -> faulty) ->
  settled key faulty
    (DataflowService.abandon key migrationLog message err w).
Proof.
  intros Hc Hw Hfaulty. rewrite abandon_run. cbn [settled].
  destruct (fails w).
  - right. split; [|now apply Hfaulty].
    destruct Hw as (log & Hlog & Hs & Hcl). now exists log.
  - left. apply (leaves_insert w (tables w) _ key
                   (DataflowService.failed migrationLog message)). exact Hc.
Qed.

Lemma upload_settles (lib : Library) (shopify : Shopify) {Request : Type}
  (unmarshal : string -> Request + error) (create : Request -> Z + error)
  (what : string) (key : N) (migrationLog : Webhook.MigrationLog) (h : heap)
  (data : value) (w : world) (faulty : Prop) :
  Webhook.CompletedAt migrationLog = None ->
  leaves w key Webhook.MigrationStatusInProgress ->
  (fails w = true -> faulty) ->
  settled key faulty
    (DataflowService.upload lib shopify unmarshal create what key
       migrationLog h data w).
Proof.
  intros Hc Hw Hfaulty. unfold DataflowService.upload.
  destruct (json_Marshal lib h data) as [transformedJSON|err];
    [|now apply abandon_settles].
  destruct (unmarshal transformedJSON) as [request|err];
    [|now apply abandon_settles].
  destruct (create request) as [id|err]; [|now apply abandon_settles].
  rewrite Save_run. destruct (fails w) eqn:Hfails; cbn [settled].
  - right. split; [|now apply Hfaulty].
    destruct Hw as (log & Hlog & Hs & Hcl). now exists log.
  - apply (leaves_insert w (tables w) _ key
             (DataflowService.succeeded
                (DataflowService.with_payload migrationLog transformedJSON)
                (Itoa id))). exact Hc.
Qed.

Lemma fails_after (w : world) (t : Database) :
  fails (after w t) = true -> faults w <> [].
Proof. unfold fails, after. cbn. now destruct (faults w). Qed.

Lemma fails_faults (w : world) : fails w = true -> faults w <> [].
Proof. unfold fails. now destruct (faults w). Qed.

(** X23.  [ExecuteDataflow] settles the log it creates.  It returns no
    error only when the stored log is [success]; when it returns an
    error the log was not created (no such dataflow, or the database
    failed), or is [failed], or is left [in_progress] because a save
    failed; a panic of the transformation leaves it [in_progress].  The
    completion time is never set. *)
Theorem ExecuteDataflow_settles_log (lib : Library) (shopify : Shopify)
  (dataflowID : N) (sourceIdentifier sourceData : string) (key : N)
  (w : world) :
  migration_logs (tables w) !! key = None ->
  match DataflowService.ExecuteDataflow lib shopify dataflowID
          sourceIdentifier sourceData key w with
  | Done None w' => leaves w' key Webhook.MigrationStatusSuccess
  | Done (Some err) w' =>
      (migration_logs (tables w') !! key = None
       /\ (dataflows (tables w) !! dataflowID = None \/ faults w <> []))
      \/ leaves w' key Webhook.MigrationStatusFailed
      \/ (leaves w' key Webhook.MigrationStatusInProgress /\ faults w <> [])
  | Crash why w' => leaves w' key Webhook.MigrationStatusInProgress
  end.
Proof.
  intros Hfresh.
  assert (Hsettled : forall r, settled key (faults w <> []) r ->
            match r with
            | Done None w' => leaves w' key Webhook.MigrationStatusSuccess
            | Done (Some err) w' =>
                (migration_logs (tables w') !! key = None
                 /\ (dataflows (tables w) !! dataflowID = None
                     \/ faults w <> []))
                \/ leaves w' key Webhook.MigrationStatusFailed
                \/ (leaves w' key Webhook.MigrationStatusInProgress
                    /\ faults w <> [])
            | Crash why w' => leaves w' key Webhook.MigrationStatusInProgress
            end).
  { intros [[err|] w'|why w']; cbn [settled]; auto. }
  unfold DataflowService.ExecuteDataflow, DataflowService.GetDataflow.
  rewrite (bind_Done _ _ _ _ _ (First_run _ _ _)).
  destruct (fails w) eqn:Hf0.
  { left. split; [exact Hfresh|right; now apply fails_faults]. }
  destruct (dataflows (tables w) !! dataflowID) as [dataflow|] eqn:Hid;
    [|left; split; [exact Hfresh|now left]].
  unfold mbind at 1, DB_bind at 1. rewrite Create_run. cbn [tables after].
  set (w1 := after w (tables w)).
  destruct (fails w1) eqn:Hf1.
  { left. split; [exact Hfresh|right; exact (fails_after _ _ Hf1)]. }
  set (migrationLog :=
         {| Webhook.DataflowID := dataflowID;
            Webhook.Status := Webhook.MigrationStatusInProgress;
            Webhook.SourceIdentifier := sourceIdentifier;
            Webhook.DestIdentifier := "";
            Webhook.ExecutionARN := "";
            Webhook.SourcePayload := sourceData;
            Webhook.TransformedPayload := "";
            Webhook.ErrorMessage := "";
            Webhook.CompletedAt := None |}).
  set (w2 := after w1 _).
  assert (Hw2 : leaves w2 key Webhook.MigrationStatusInProgress).
  { apply (leaves_insert w1 (tables w) _ key migrationLog). reflexivity. }
  assert (Hfaulty : fails w2 = true -> faults w <> []).
  { intros H. apply fails_after in H. unfold w1 in H. cbn in H.
    intros Hnil. rewrite Hnil in H. now apply H. }
  refine (Hsettled _ _).
  unfold mbind at 1, DB_bind at 1, DataflowService.transform.
  destruct (TransformData lib dataflowID sourceData [])
    as [[[result|] [err|]] h|why]; cbv beta iota;
    try (now apply abandon_settles); try exact Hw2.
  destruct (Error result) as [err|]; [now apply abandon_settles|].
  destruct (String.eqb (Type_ dataflow) DataflowTypeProduct);
    [now apply upload_settles|].
  destruct (String.eqb (Type_ dataflow) DataflowTypeOrder);
    [now apply upload_settles|].
  now apply abandon_settles.
Qed.

Lemma ExecuteDataflow_settles_log_witness :
  match DataflowService.ExecuteDataflow (shirt_library []) example_shopify 7
          "p-1" "" 2 (reliable shop) with
  | Done None w' => leaves w' 2 Webhook.MigrationStatusSuccess
  | Done (Some err) w' =>
      (migration_logs (tables w') !! 2%N = None
       /\ (dataflows (tables (reliable shop)) !! 7%N = None
           \/ faults (reliable shop) <> []))
      \/ leaves w' 2 Webhook.MigrationStatusFailed
      \/ (leaves w' 2 Webhook.MigrationStatusInProgress
          /\ faults (reliable shop) <> [])
  | Crash why w' => leaves w' 2 Webhook.MigrationStatusInProgress
  end.
Proof.
  apply (ExecuteDataflow_settles_log (shirt_library []) example_shopify 7
           "p-1" "" 2 (reliable shop)).
  reflexivity.
Defined.

(** ** The migration lifecycle *)

Import Webhook.






Import Handoff.

Lemma keeps_record_refl (log : MigrationLog) : keeps_record log log.
Proof. now repeat split. Qed.

Lemma keeps_record_trans (a b c : MigrationLog) :
  keeps_record a b -> keeps_record b c -> keeps_record a c.
Proof.
  intros (H1 & H2 & H3 & H4 & H5 & H6 & H7 & H8)
         (K1 & K2 & K3 & K4 & K5 & K6 & K7 & K8).
  repeat split; try congruence; auto.
Qed.

Lemma or_keep_set (new old : string) : old <> "" -> or_keep new old <> "".
Proof.
  unfold or_keep. destruct (String.eqb_spec new ""); auto.
Qed.

Lemma UpdateMigrationStatus_keeps_record (request : StatusRequest)
  (db : table) (id : N) :
  match db !! id with
  | Some log =>
      exists log', fst (UpdateMigrationStatus request db) !! id = Some log'
                   /\ keeps_record log log'
  | None => fst (UpdateMigrationStatus request db) !! id = None
  end.
Proof.
  unfold UpdateMigrationStatus.
  destruct (db !! MigrationID request) as [found|] eqn:Hfound.
  2:{ cbn [fst]. destruct (db !! id) as [log|] eqn:Hid; [|reflexivity].
      exists log. split; [reflexivity|apply keeps_record_refl]. }
  destruct (save_ok request); cbn [fst].
  2:{ destruct (db !! id) as [log|] eqn:Hid; [|reflexivity].
      exists log. split; [reflexivity|apply keeps_record_refl]. }
  destruct (decide (MigrationID request = id)) as [<-|Hne].
  - rewrite Hfound, lookup_insert_eq. eexists. split; [reflexivity|].
    repeat split; cbn; try (now apply or_keep_set).
    destruct (_ || _); [now eexists|auto].
  - rewrite lookup_insert_ne by exact Hne.
    destruct (db !! id) as [log|] eqn:Hid; [|reflexivity].
    exists log. split; [reflexivity|apply keeps_record_refl].
Qed.

(** X24.  Callbacks take nothing back: through every sequence of
    status callbacks a log keeps its dataflow, source identifier,
    source payload and execution, and a destination identifier, error
    message, transformed payload or completion time it has stays set (a
    success reported after a failure keeps the error message); and no
    callback creates or deletes a log. *)
Theorem callbacks_take_nothing_back (requests : list StatusRequest)
  (db : table) (id : N) :
  Forall (fun db' : table =>
            match db !! id with
            | Some log =>
                exists log', db' !! id = Some log' /\ keeps_record log log'
            | None => db' !! id = None
            end)
    (callbacks requests db).
Proof.
  revert db. induction requests as [|request requests IH]; intros db;
    [constructor|].
  cbn [callbacks].
  pose proof (UpdateMigrationStatus_keeps_record request db id) as Hstep.
  specialize (IH (fst (UpdateMigrationStatus request db))).
  destruct (db !! id) as [log|].
  - destruct Hstep as (log1 & Hlog1 & Hkeeps1). constructor; [eauto|].
    rewrite Hlog1 in IH. eapply Forall_impl; [exact IH|].
    intros db' (log' & Hlog' & Hkeeps'). exists log'.
    split; [exact Hlog'|]. now apply (keeps_record_trans log log1 log').
  - constructor; [exact Hstep|]. now rewrite Hstep in IH.
Qed.

Lemma handle_dataflow_new (a : answers) (sourceID payload : string)
  (db : table) (id : N) :
  handle_dataflow (dataflow a) sourceID payload (created a) (started a)
    (saved a) db !! id = db !! id
  \/ exists log,
       handle_dataflow (dataflow a) sourceID payload (created a) (started a)
         (saved a) db !! id = Some log
       /\ (Status log = MigrationStatusPending
           \/ Status log = MigrationStatusInProgress
           \/ Status log = MigrationStatusFailed)
       /\ DataflowID log = dataflow a
       /\ SourceIdentifier log = sourceID
       /\ SourcePayload log = payload
       /\ DestIdentifier log = ""
       /\ CompletedAt log = None.
Proof.
  unfold handle_dataflow. destruct (created a) as [key|]; [|now left].
  destruct (decide (key = id)) as [->|Hne].
  - right. destruct (saved a); cbn [negb]; [destruct (started a)|];
      rewrite lookup_insert_eq; eexists; (split; [reflexivity|]); cbn; auto 10.
  - left. destruct (saved a); cbn [negb]; [destruct (started a)|];
      now rewrite ?lookup_insert_ne by exact Hne.
Qed.

(** X25.  Every log the webhook handler stores starts unfinished: after
    the loop over the dataflows each key holds what it held, or a log
    of one of the dataflows with the source identifier and payload of
    the webhook, a status among [pending], [in_progress] and [failed],
    no destination identifier and no completion time. *)
Theorem webhook_logs_start_unfinished (sourceID payload : string)
  (dataflows : list answers) (db : table) (id : N) :
  HandleShopwareWebhook_loop sourceID payload dataflows db !! id = db !! id
  \/ exists log a,
       HandleShopwareWebhook_loop sourceID payload dataflows db !! id
       = Some log
       /\ a ∈ dataflows
       /\ DataflowID log = dataflow a
       /\ (Status log = MigrationStatusPending
           \/ Status log = MigrationStatusInProgress
           \/ Status log = MigrationStatusFailed)
       /\ SourceIdentifier log = sourceID
       /\ SourcePayload log = payload
       /\ DestIdentifier log = ""
       /\ CompletedAt log = None.
Proof.
  unfold HandleShopwareWebhook_loop.
  induction dataflows as [|a dataflows IH] using rev_ind; [now left|].
  rewrite foldl_app. cbn [foldl].
  destruct (handle_dataflow_new a sourceID payload
              (foldl (fun db a =>
                        handle_dataflow (dataflow a) sourceID payload
                          (created a) (started a) (saved a) db)
                 db dataflows) id)
    as [Hsame|(log & Hlog & Hstatus & Hflow & Hrest)].
  - rewrite Hsame. destruct IH as [IH|(log & b & Hlog & Hb & Hrest)];
      [now left|right].
    exists log, b. split; [exact Hlog|]. split; [|exact Hrest].
    apply elem_of_app. now left.
  - right. exists log, a. split; [exact Hlog|]. split.
    + apply elem_of_app. right. now left.
    + tauto.
Qed.
